(** * mcp-server-chart: the local SVG chart generator

    A shallow embedding of [generateSvgContent] and of the nine layout
    engines it dispatches to (column, line, pie, area, scatter, radar,
    dual-axes, histogram, funnel).

    Modelling decisions, stated once:

    - A JS number is a rational or one of NaN, +Infinity, -Infinity.  The
      special values follow the IEEE rules the source relies on (x/0,
      0/0, NaN-propagation, comparisons with NaN are false).  The pie,
      histogram and funnel engines, whose properties here depend on the
      values computed, compute in binary64: every operation is rounded
      to the nearest double, ties to even, with gradual underflow and
      overflow to the infinities ([b64] and the operations of the scope
      [b64]).  The other engines (column, line, area, scatter, radar,
      dual-axes), whose properties here are about which shapes are drawn,
      in what order and with which text, compute on the exact rationals
      (scope [num]).  The sign of zero is not modelled.
    - A string is a string of bytes.  [toLowerCase], [toUpperCase] and
      [charAt(0)] act byte by byte, which is what JS does on ASCII; the
      default title is stated for type tags that are empty or start with
      an ASCII character.
    - Data items are JSON values: a primitive (undefined, null, boolean,
      number, string) or a flat record of primitive fields, whose keys
      are taken not to shadow the members of Object.prototype.
    - Property access on null throws a TypeError, [Array(n)] on a
      length that is not an integer in 0..2^32-1 throws a RangeError, and
      so does spreading an array into more arguments than a call takes
      ([Math.max(...a)]), as in JS; they are results of the error monad
      [result].  The limit on the arguments is the runtime's
      ([max_arguments]); the histogram engine, which spreads its values
      and the array of its bins, checks it, and the arrays the line,
      area, dual-axes and funnel engines spread are taken to be within
      it.
    - What the engine gets from the JS runtime and does not define itself
      (string-to-number parsing, printing of non-integral numbers,
      cos/sin, Math.random, toLocaleString) is a field of [JsHost].
    - An engine builds its fragment by appending one template literal per
      shape.  The model keeps each literal as an [elem] (tag, attributes
      in source order, optional text body); [render] prints it back
      character for character, and the fragment is the concatenation.
    - [generateChartUrl] and [generateMap] are functions of the clock
      reading and of what the Node runtime decides ([NodeHost]: the
      environment variable, the path functions, the paths that exist, the
      file-system calls that throw).  Their effect on the disk is the
      list of the file-system calls they make, in order, and their
      promise is a value of [settled].
    - The render call of the other copy of the file, src/utils/generate.ts,
      is the module [generate_ts]; the converter script that follows it in
      that file is the module [converter], with its runtime in
      [ScriptHost]. *)

From Stdlib Require Import ZArith QArith Qabs Qround Qreduction Qpower List Bool Lia Lqa.
From Stdlib Require Qcanon.
From Stdlib Require Import Strings.String Strings.Ascii Numbers.DecimalString.
Import ListNotations.

Local Open Scope string_scope.

(* ================================================================= *)
(** ** Numbers *)

Inductive num : Type :=
| Fin (q : Q)
| PInf
| NInf
| NaN.

Definition nz (z : Z) : num := Fin (inject_Z z).
Definition nn (n : nat) : num := Fin (inject_Z (Z.of_nat n)).

Definition Qsgn (q : Q) : Z := Z.sgn (Qnum q).

Definition num_neg (a : num) : num :=
  match a with
  | Fin q => Fin (- q)
  | PInf => NInf
  | NInf => PInf
  | NaN => NaN
  end.

Definition num_add (a b : num) : num :=
  match a, b with
  | NaN, _ | _, NaN => NaN
  | Fin x, Fin y => Fin (x + y)
  | PInf, NInf | NInf, PInf => NaN
  | PInf, _ | _, PInf => PInf
  | NInf, _ | _, NInf => NInf
  end.

Definition num_sub (a b : num) : num := num_add a (num_neg b).

(** Infinity scaled by a finite factor of sign [s]. *)
Definition inf_signed (s : Z) : num :=
  match s with
  | Z0 => NaN
  | Zpos _ => PInf
  | Zneg _ => NInf
  end.

Definition num_mul (a b : num) : num :=
  match a, b with
  | NaN, _ | _, NaN => NaN
  | Fin x, Fin y => Fin (x * y)
  | PInf, Fin y | Fin y, PInf => inf_signed (Qsgn y)
  | NInf, Fin y | Fin y, NInf => inf_signed (- Qsgn y)
  | PInf, PInf | NInf, NInf => PInf
  | PInf, NInf | NInf, PInf => NInf
  end.

(** Division: x/0 is an infinity of the sign of x, 0/0 is NaN, a finite
    value over an infinity is 0, an infinity over an infinity is NaN. *)
Definition num_div (a b : num) : num :=
  match a, b with
  | NaN, _ | _, NaN => NaN
  | Fin x, Fin y =>
      if Qeq_bool y 0 then inf_signed (Qsgn x) else Fin (x / y)
  | Fin _, (PInf | NInf) => Fin 0
  | (PInf | NInf), (PInf | NInf) => NaN
  | PInf, Fin y => if Qle_bool 0 y then PInf else NInf
  | NInf, Fin y => if Qle_bool 0 y then NInf else PInf
  end.

Definition Qlt_bool (x y : Q) : bool := negb (Qle_bool y x).

Definition num_lt (a b : num) : bool :=
  match a, b with
  | NaN, _ | _, NaN => false
  | Fin x, Fin y => Qlt_bool x y
  | NInf, (Fin _ | PInf) => true
  | Fin _, PInf => true
  | _, _ => false
  end.

Definition num_gt (a b : num) : bool := num_lt b a.

Definition num_le (a b : num) : bool :=
  match a, b with
  | NaN, _ | _, NaN => false
  | Fin x, Fin y => Qle_bool x y
  | NInf, _ => true
  | _, PInf => true
  | _, _ => false
  end.

(** [a === b] on numbers. *)
Definition num_seq (a b : num) : bool :=
  match a, b with
  | Fin x, Fin y => Qeq_bool x y
  | PInf, PInf | NInf, NInf => true
  | _, _ => false
  end.

Definition isNaN (a : num) : bool :=
  match a with NaN => true | _ => false end.

(** ToBoolean on a number: 0 and NaN are falsy. *)
Definition num_truthy (a : num) : bool :=
  match a with
  | Fin q => negb (Qeq_bool q 0)
  | NaN => false
  | _ => true
  end.

(** [a || b] on numbers. *)
Definition num_or (a b : num) : num := if num_truthy a then a else b.

Definition max2 (a b : num) : num :=
  match a, b with
  | NaN, _ | _, NaN => NaN
  | _, _ => if num_lt a b then b else a
  end.

Definition min2 (a b : num) : num :=
  match a, b with
  | NaN, _ | _, NaN => NaN
  | _, _ => if num_lt b a then b else a
  end.

(** [Math.max(...l)] and [Math.min(...l)]; -Infinity and +Infinity on no
    argument. *)
Definition Math_max (l : list num) : num := fold_left max2 l NInf.
Definition Math_min (l : list num) : num := fold_left min2 l PInf.

Definition Math_floor (a : num) : num :=
  match a with Fin q => nz (Qfloor q) | _ => a end.

Definition Math_ceil (a : num) : num :=
  match a with Fin q => nz (Qceiling q) | _ => a end.

(** [Math.round]: the nearest integer, a tie going up. *)
Definition Math_round (a : num) : num :=
  match a with Fin q => nz (Qfloor (q + (1 # 2))) | _ => a end.

(** [a % b]: the remainder has the sign of the dividend. *)
Definition num_mod (a b : num) : num :=
  match a, b with
  | Fin x, Fin y =>
      if Qeq_bool y 0 then NaN
      else Fin (x - y * inject_Z (Z.quot (Qnum (x / y)) (Zpos (Qden (x / y)))))
  | Fin x, (PInf | NInf) => Fin x
  | _, _ => NaN
  end.

(** The double nearest to pi, which is what [Math.PI] holds. *)
Definition Math_PI : num := Fin (884279719003555 # 281474976710656).

Declare Scope num_scope.
Delimit Scope num_scope with num.
Infix "+" := num_add : num_scope.
Infix "-" := num_sub : num_scope.
Infix "*" := num_mul : num_scope.
Infix "/" := num_div : num_scope.
Notation "- x" := (num_neg x) : num_scope.
Infix ">?" := num_gt (at level 70) : num_scope.
Infix "<?" := num_lt (at level 70) : num_scope.
Infix "<=?" := num_le (at level 70) : num_scope.
Infix "===" := num_seq (at level 70) : num_scope.
Infix "||" := num_or : num_scope.
Infix "%%" := num_mod (at level 40) : num_scope.

(* ================================================================= *)
(** ** Binary64 *)

(** The operations above are exact.  Where a result decides what is drawn
    or is printed as a number the claims speak of, the engines below use
    the operations of this section, which round each finite result to the
    nearest double, a tie going to the even mantissa, as IEEE 754 and so
    JS does.  The sign of zero is not kept. *)
Definition Qpow2 (e : Z) : Q := (2 # 1) ^ e.

(** For [a > 0], the [e] with [2^e <= a < 2^(e+1)]. *)
Definition binade (a : Q) : Z :=
  let e0 := (Z.log2 (Qnum a) - Z.log2 (Zpos (Qden a)))%Z in
  if Qle_bool (Qpow2 e0) a then e0 else (e0 - 1)%Z.

Definition round_half_even (y : Q) : Z :=
  let f := Qfloor y in
  match Qcompare (y - inject_Z f) (1 # 2) with
  | Lt => f
  | Gt => (f + 1)%Z
  | Eq => if Z.even f then f else (f + 1)%Z
  end.

(** The exponent of the double nearest to [a]: the binade, and -1022 in
    the subnormal range. *)
Definition exponent (a : Q) : Z := Z.max (binade a) (-1022).

(** The double nearest to [a > 0], overflow apart: a multiple of
    [2^(e - 52)] with a mantissa of 53 bits. *)
Definition b64_pos (a : Q) : Q :=
  inject_Z (round_half_even (a / Qpow2 (exponent a - 52))) * Qpow2 (exponent a - 52).

(** The double nearest to [q]; from [2^1024 - 2^970] on it is an
    infinity. *)
Definition b64 (q : Q) : num :=
  let x := Qred q in
  match Qnum x with
  | Z0 => Fin 0
  | Zpos _ =>
      let r := b64_pos x in
      if Qle_bool (Qpow2 1024) r then PInf else Fin (Qred r)
  | Zneg _ =>
      let r := b64_pos (- x) in
      if Qle_bool (Qpow2 1024) r then NInf else Fin (Qred (- r))
  end.

Definition fl (a : num) : num :=
  match a with
  | Fin q => b64 q
  | _ => a
  end.

Definition b_add (a b : num) : num := fl (num_add a b).
Definition b_sub (a b : num) : num := fl (num_sub a b).
Definition b_mul (a b : num) : num := fl (num_mul a b).
Definition b_div (a b : num) : num := fl (num_div a b).

Declare Scope b64_scope.
Delimit Scope b64_scope with b64.
Infix "+" := b_add : b64_scope.
Infix "-" := b_sub : b64_scope.
Infix "*" := b_mul : b64_scope.
Infix "/" := b_div : b64_scope.
Notation "- x" := (num_neg x) : b64_scope.
Infix ">?" := num_gt (at level 70) : b64_scope.
Infix "<?" := num_lt (at level 70) : b64_scope.
Infix "<=?" := num_le (at level 70) : b64_scope.
Infix "===" := num_seq (at level 70) : b64_scope.
Infix "||" := num_or : b64_scope.

(* ================================================================= *)
(** ** Strings *)

(** The characters a Rocq literal cannot hold directly. *)
Definition dq : string := String (ascii_of_nat 34) EmptyString.
Definition nl : string := String (ascii_of_nat 10) EmptyString.

Definition concat_all (l : list string) : string := String.concat EmptyString l.

Definition Z_to_string (z : Z) : string := NilEmpty.string_of_int (Z.to_int z).

(** [t] occurs in [s] as a contiguous run of characters. *)
Definition Substring (t s : string) : Prop :=
  exists pre post, s = pre ++ t ++ post.

Fixpoint is_substring (t s : string) : bool :=
  String.prefix t s ||
  match s with
  | EmptyString => false
  | String _ s' => is_substring t s'
  end.

Definition ascii_upper (c : ascii) : ascii :=
  let n := nat_of_ascii c in
  if ((97 <=? n) && (n <=? 122))%nat then ascii_of_nat (n - 32) else c.

Definition ascii_lower (c : ascii) : ascii :=
  let n := nat_of_ascii c in
  if ((65 <=? n) && (n <=? 90))%nat then ascii_of_nat (n + 32) else c.

Fixpoint string_map (f : ascii -> ascii) (s : string) : string :=
  match s with
  | EmptyString => EmptyString
  | String c s' => String (f c) (string_map f s')
  end.

(** [s.toLowerCase()] and [s.toUpperCase()], on the ASCII letters; other
    characters are left as they are. *)
Definition toLowerCase : string -> string := string_map ascii_lower.
Definition toUpperCase : string -> string := string_map ascii_upper.

(** [s.charAt(0)] and [s.slice(1)]. *)
Definition charAt0 (s : string) : string :=
  match s with
  | EmptyString => EmptyString
  | String c _ => String c EmptyString
  end.

Definition slice1 (s : string) : string :=
  match s with
  | EmptyString => EmptyString
  | String _ s' => s'
  end.

Fixpoint repeat_string (s : string) (n : nat) : string :=
  match n with
  | O => EmptyString
  | S n' => s ++ repeat_string s n'
  end.

(* ================================================================= *)
(** ** What the JS runtime provides *)

Record JsHost : Type := {
  (** [Number(s)] on a string. *)
  StringToNumber : string -> num;
  (** [String(x)] on a finite number that is not an integer below 2^53:
      the shortest digits that read back as the same double. *)
  NumberToString : Q -> string;
  Math_cos : num -> num;
  Math_sin : num -> num;
  (** The value of the k-th call of [Math.random()]. *)
  Math_random : nat -> num;
  (** [x.toLocaleString()]. *)
  toLocaleString : num -> string;
  (** The most arguments a call can take: spreading a longer array into
      [Math.max] or [Math.min] throws a RangeError. *)
  max_arguments : nat
}.

(** [String(x)] and the template literal on a number. *)
Definition num_to_string (H : JsHost) (n : num) : string :=
  match n with
  | NaN => "NaN"
  | PInf => "Infinity"
  | NInf => "-Infinity"
  | Fin q =>
      let r := Qred q in
      if ((Zpos (Qden r) =? 1) && (Z.abs (Qnum r) <? 2 ^ 53))%Z
      then Z_to_string (Qnum r)
      else NumberToString H r
  end.

(** [x.toFixed(d)]: the decimal with [d] fraction digits nearest to x, a
    tie going away from zero; a magnitude of 10^21 or more is printed as
    [String(x)]. *)
Definition toFixed (H : JsHost) (d : nat) (n : num) : string :=
  match n with
  | Fin q =>
      let r := Qred q in
      if Qle_bool (inject_Z (10 ^ 21)) (Qabs r) then num_to_string H n
      else
        let m := Qfloor (Qabs r * inject_Z (10 ^ Z.of_nat d) + (1 # 2)) in
        let digits := Z_to_string m in
        let padded := repeat_string "0" (S d - String.length digits) ++ digits in
        let k := (String.length padded - d)%nat in
        (if Qlt_bool r 0 then "-" else EmptyString)
        ++ substring 0 k padded
        ++ (match d with
            | O => EmptyString
            | _ => "." ++ substring k d padded
            end)
  | _ => num_to_string H n
  end.

(* ================================================================= *)
(** ** Data items *)

Inductive prim : Type :=
| PUndef
| PNull
| PBool (b : bool)
| PNum (n : num)
| PStr (s : string).

Inductive item : Type :=
| IPrim (p : prim)
| IObj (fields : list (string * prim)).

Definition fields := list (string * prim).

(** [o.k] on a record: the first field of that name, undefined if none. *)
Fixpoint field (k : string) (fs : fields) : prim :=
  match fs with
  | [] => PUndef
  | (k', v) :: fs' => if String.eqb k k' then v else field k fs'
  end.

Definition defined (p : prim) : bool :=
  match p with PUndef => false | _ => true end.

(** ToBoolean. *)
Definition truthy (p : prim) : bool :=
  match p with
  | PUndef | PNull => false
  | PBool b => b
  | PNum n => num_truthy n
  | PStr s => negb (String.eqb s EmptyString)
  end.

(** [a || b] on values. *)
Definition por (a b : prim) : prim := if truthy a then a else b.

(** [String(p)], also what a template literal prints. *)
Definition ToString (H : JsHost) (p : prim) : string :=
  match p with
  | PUndef => "undefined"
  | PNull => "null"
  | PBool true => "true"
  | PBool false => "false"
  | PNum n => num_to_string H n
  | PStr s => s
  end.

(** [Number(p)]. *)
Definition ToNumber (H : JsHost) (p : prim) : num :=
  match p with
  | PUndef => NaN
  | PNull => nz 0
  | PBool true => nz 1
  | PBool false => nz 0
  | PNum n => n
  | PStr s => StringToNumber H s
  end.

(** [Number(item)]: a record converts to NaN. *)
Definition Number_item (H : JsHost) (it : item) : num :=
  match it with
  | IPrim p => ToNumber H p
  | IObj _ => NaN
  end.

(** SameValueZero, the equality of Map and Set keys. *)
Definition same_value_zero (a b : prim) : bool :=
  match a, b with
  | PUndef, PUndef | PNull, PNull => true
  | PBool x, PBool y => Bool.eqb x y
  | PNum NaN, PNum NaN => true
  | PNum x, PNum y => num_seq x y
  | PStr x, PStr y => String.eqb x y
  | _, _ => false
  end.

(* ================================================================= *)
(** ** Exceptions *)

Inductive js_error : Type := TypeError | RangeError.

Inductive result (A : Type) : Type :=
| Ok (a : A)
| Throw (e : js_error).

Arguments Ok {A} a.
Arguments Throw {A} e.

Definition bind {A B : Type} (r : result A) (k : A -> result B) : result B :=
  match r with
  | Ok a => k a
  | Throw e => Throw e
  end.

Notation "x <- c ;; k" := (bind c (fun x => k))
  (at level 61, c at next level, right associativity).

Fixpoint mapM {A B : Type} (f : A -> result B) (l : list A) : result (list B) :=
  match l with
  | [] => Ok []
  | a :: l' => b <- f a ;; bs <- mapM f l' ;; Ok (b :: bs)
  end.

(** The guard [typeof item === 'object' && item.k ...] that every engine
    opens with: a record gives its fields, a non-object falls through to
    the else branch, and null, whose typeof is 'object' as well, throws
    on the property access. *)
Definition as_object (it : item) : result (option fields) :=
  match it with
  | IObj fs => Ok (Some fs)
  | IPrim PNull => Throw TypeError
  | IPrim _ => Ok None
  end.

(** [options.data] as the engines see it: an array or some other value. *)
Inductive jsdata : Type :=
| DArray (items : list item)
| DValue (v : item).

Record Series : Type := {
  s_type : string;
  s_data : list num;
  s_axisYTitle : option string
}.

Record Options : Type := {
  width : option num;
  height : option num;
  title : option string;
  data : option jsdata;
  axisXTitle : option string;
  axisYTitle : option string;
  bins : option num;
  series : option (list Series);
  categories : option (list string)
}.

(** [options.f || dflt] on an optional number and an optional string. *)
Definition opt_num_or (o : option num) (dflt : num) : num :=
  match o with
  | Some n => num_or n dflt
  | None => dflt
  end.

Definition opt_str_truthy (o : option string) : option string :=
  match o with
  | Some s => if String.eqb s EmptyString then None else Some s
  | None => None
  end.

(* ================================================================= *)
(** ** Markup elements *)

Record elem : Type := Elem {
  tag : string;
  attrs : list (string * string);
  body : option string
}.

Definition render_attr (a : string * string) : string :=
  " " ++ fst a ++ "=" ++ dq ++ snd a ++ dq.

Definition render (e : elem) : string :=
  "<" ++ tag e ++ concat_all (map render_attr (attrs e)) ++
  match body e with
  | None => "/>"
  | Some b => ">" ++ b ++ "</" ++ tag e ++ ">"
  end.

Definition render_all (l : list elem) : string := concat_all (map render l).

Definition attr (k : string) (e : elem) : option string :=
  option_map snd (find (fun a => String.eqb (fst a) k) (attrs e)).

Definition has_attr (k v : string) (e : elem) : bool :=
  match attr k e with
  | Some v' => String.eqb v v'
  | None => false
  end.

Definition is_tag (t : string) (e : elem) : bool := String.eqb (tag e) t.

(** The placeholder every engine returns on no data. *)
Definition placeholder (msg : string) : elem :=
  Elem "text"
       [("x", "400"); ("y", "300"); ("text-anchor", "middle"); ("class", "axis-label")]
       (Some msg).

Definition indexed {A : Type} (l : list A) : list (nat * A) :=
  combine (seq 0 (List.length l)) l.

Definition color_at (colors : list string) (i : nat) : string :=
  nth (i mod List.length colors) colors EmptyString.

(* ================================================================= *)
(** ** Insertion-ordered Map and Set *)

Section Ordered.
Context {K V : Type} (keq : K -> K -> bool).

Fixpoint omap_get (k : K) (m : list (K * V)) : option V :=
  match m with
  | [] => None
  | (k', v) :: m' => if keq k k' then Some v else omap_get k m'
  end.

(** [m.set(k, v)]: a key already there keeps its place. *)
Fixpoint omap_set (k : K) (v : V) (m : list (K * V)) : list (K * V) :=
  match m with
  | [] => [(k, v)]
  | (k', v') :: m' =>
      if keq k k' then (k', v) :: m' else (k', v') :: omap_set k v m'
  end.

(** [s.add(k)]. *)
Definition oset_add (k : K) (s : list K) : list K :=
  if existsb (keq k) s then s else s ++ [k].
End Ordered.

Fixpoint foldM {A S : Type} (f : S -> A -> result S) (l : list A) (s : S) : result S :=
  match l with
  | [] => Ok s
  | a :: l' => s' <- f s a ;; foldM f l' s'
  end.

(** [Array.isArray(data) && data.length > 0], giving the items. *)
Definition nonempty_array (d : jsdata) : option (list item) :=
  match d with
  | DArray [] => None
  | DArray l => Some l
  | DValue _ => None
  end.

Record ChartArea : Type := {
  ax : num;
  ay : num;
  aw : num;
  ah : num
}.

(** [{ x: 80, y: 60, width: width - 140, height: height - 140 }]. *)
Definition chartArea (w h : num) : ChartArea :=
  {| ax := nz 80; ay := nz 60; aw := (w - nz 140)%num; ah := (h - nz 140)%num |}.

Section Engines.
Variable H : JsHost.

Definition str (n : num) : string := num_to_string H n.

Definition text_elem (x y : num) (more : list (string * string)) (b : string) : elem :=
  Elem "text" ([("x", str x); ("y", str y)] ++ more) (Some b).

Definition no_data : list elem := [placeholder "No data available"].

(** The two axis lines that close most fragments. *)
Definition axes (a : ChartArea) : list elem :=
  [ Elem "line" [("x1", str (ax a)); ("y1", str (ay a)); ("x2", str (ax a));
                 ("y2", str (ay a + ah a)%num); ("class", "axis")] None;
    Elem "line" [("x1", str (ax a)); ("y1", str (ay a + ah a)%num);
                 ("x2", str (ax a + aw a)%num); ("y2", str (ay a + ah a)%num);
                 ("class", "axis")] None ].

(** The optional axis titles of the column and line engines. *)
Definition axis_titles (a : ChartArea) (o : Options) : list elem :=
  (match opt_str_truthy (axisXTitle o) with
   | Some t =>
       [text_elem (ax a + aw a / nz 2)%num (ay a + ah a + nz 50)%num
                  [("text-anchor", "middle"); ("class", "axis-title")] t]
   | None => []
   end) ++
  (match opt_str_truthy (axisYTitle o) with
   | Some t =>
       [Elem "text"
             [("x", "30"); ("y", str (ay a + ah a / nz 2)%num);
              ("text-anchor", "middle"); ("class", "axis-title");
              ("transform", "rotate(-90 30 " ++ str (ay a + ah a / nz 2)%num ++ ")")]
             (Some t)]
   | None => []
   end).

(* --------------------------------------------------------------- *)
(** *** Column *)

Definition column_colors : list string :=
  ["#4285f4"; "#ea4335"; "#fbbc04"; "#34a853"; "#9aa0a6"; "#ff6d01"].

Record ColumnState : Type := {
  groupedData : list (string * list (prim * num));
  categorySet : list string;
  groupSet : list prim
}.

Definition column_init : ColumnState :=
  {| groupedData := []; categorySet := []; groupSet := [] |}.

(** The body of [data.forEach] that groups the items. *)
Definition column_collect (st : ColumnState) (it : item) : result ColumnState :=
  o <- as_object it ;;
  match o with
  | Some fs =>
      if truthy (field "category" fs) && defined (field "value" fs) then
        let category := ToString H (field "category" fs) in
        let group := por (field "group" fs) (PStr "Series 1") in
        let value := ToNumber H (field "value" fs) in
        let inner :=
          match omap_get String.eqb category (groupedData st) with
          | Some m => m
          | None => []
          end in
        Ok {| groupedData :=
                omap_set String.eqb category
                         (omap_set same_value_zero group value inner)
                         (groupedData st);
              categorySet := oset_add String.eqb category (categorySet st);
              groupSet := oset_add same_value_zero group (groupSet st) |}
      else Ok st
  | None => Ok st
  end.

(** The scaling maximum: the largest cell value, from 0, and 1 in place
    of 0. *)
Definition column_maxValue (gd : list (string * list (prim * num))) : num :=
  let m :=
    fold_left
      (fun m categoryMap =>
         fold_left (fun m cell => Math_max [m; snd cell]) (snd categoryMap) m)
      gd (nz 0) in
  if (m === nz 0)%num then nz 1 else m.

Section ColumnBars.
Variables (a : ChartArea) (maxValue categoryWidth barWidth : num)
          (groupArray : list prim).

(** [categoryData.get(group) || 0]. *)
Definition cell_value (categoryData : list (prim * num)) (group : prim) : num :=
  match omap_get same_value_zero group categoryData with
  | Some v => (v || nz 0)%num
  | None => nz 0
  end.

Definition barHeight_of (value : num) : num := (value / maxValue * ah a)%num.

Definition bar_rect (categoryX : num) (groupIndex : nat) (value : num) : elem :=
  let barHeight := barHeight_of value in
  let barX :=
    (categoryX + nn groupIndex * barWidth
     + (categoryWidth - nn (List.length groupArray) * barWidth) / nz 2)%num in
  let barY := (ay a + ah a - barHeight)%num in
  Elem "rect"
       [("x", str barX); ("y", str barY); ("width", str barWidth);
        ("height", str barHeight);
        ("fill", color_at column_colors groupIndex); ("class", "chart-bar")]
       None.

Definition bar_label (categoryX : num) (groupIndex : nat) (value : num) : list elem :=
  let barHeight := barHeight_of value in
  let barX :=
    (categoryX + nn groupIndex * barWidth
     + (categoryWidth - nn (List.length groupArray) * barWidth) / nz 2)%num in
  let barY := (ay a + ah a - barHeight)%num in
  if (barHeight >? nz 20)%num then
    [text_elem (barX + barWidth / nz 2)%num (barY - nz 5)%num
               [("text-anchor", "middle"); ("class", "axis-label")]
               (str value)]
  else [].

(** One turn of the inner [groupArray.forEach]. *)
Definition column_cell (categoryX : num) (categoryData : list (prim * num))
           (ig : nat * prim) : list elem :=
  let value := cell_value categoryData (snd ig) in
  bar_rect categoryX (fst ig) value :: bar_label categoryX (fst ig) value.

Definition category_label (categoryX : num) (category : string) : elem :=
  text_elem (categoryX + categoryWidth / nz 2)%num (ay a + ah a + nz 20)%num
            [("text-anchor", "middle"); ("class", "axis-label")] category.

(** One turn of the outer [categoryArray.forEach]. *)
Definition column_category (gd : list (string * list (prim * num)))
           (ic : nat * string) : list elem :=
  match omap_get String.eqb (snd ic) gd with
  | None => []
  | Some categoryData =>
      let categoryX := (ax a + nn (fst ic) * categoryWidth)%num in
      flat_map (column_cell categoryX categoryData) (indexed groupArray)
      ++ [category_label categoryX (snd ic)]
  end.
End ColumnBars.

Definition column_legend (a : ChartArea) (groupArray : list prim) : list elem :=
  if (1 <? List.length groupArray)%nat then
    flat_map
      (fun ig : nat * prim =>
         let legendY := (ay a - nz 30)%num in
         let legendX := (ax a + nn (fst ig) * nz 120)%num in
         [ Elem "rect" [("x", str legendX); ("y", str legendY); ("width", "12");
                        ("height", "12"); ("fill", color_at column_colors (fst ig))]
                None;
           text_elem (legendX + nz 18)%num (legendY + nz 9)%num
                     [("class", "legend-text")] (ToString H (snd ig)) ])
      (indexed groupArray)
  else [].

Definition column_bars (a : ChartArea) (st : ColumnState) : list elem :=
  let categoryArray := categorySet st in
  let groupArray := groupSet st in
  let maxValue := column_maxValue (groupedData st) in
  let categoryWidth := (aw a / nn (List.length categoryArray))%num in
  let barWidth := (categoryWidth / (nn (List.length groupArray) * Fin (6 # 5)))%num in
  flat_map (column_category a maxValue categoryWidth barWidth groupArray (groupedData st))
           (indexed categoryArray).

Definition generateColumnChart_elems (d : jsdata) (w h : num) (o : Options)
  : result (list elem) :=
  match nonempty_array d with
  | None => Ok no_data
  | Some items =>
      let a := chartArea w h in
      st <- foldM column_collect items column_init ;;
      Ok (column_legend a (groupSet st)
          ++ column_bars a st ++ axes a ++ axis_titles a o)%list
  end.

(* --------------------------------------------------------------- *)
(** *** Line *)

Record Point : Type := {
  label : string;
  value : num
}.

Definition unknown_point (it : item) : Point :=
  {| label := "Unknown"; value := (Number_item H it || nz 0)%num |}.

(** The [data.map] callback of the line and area engines: time is
    preferred to category, anything else becomes Unknown. *)
Definition normalize_point (it : item) : result Point :=
  o <- as_object it ;;
  match o with
  | Some fs =>
      if defined (field "time" fs) && defined (field "value" fs) then
        Ok {| label := ToString H (field "time" fs);
              value := ToNumber H (field "value" fs) |}
      else if defined (field "category" fs) && defined (field "value" fs) then
        Ok {| label := ToString H (field "category" fs);
              value := ToNumber H (field "value" fs) |}
      else Ok (unknown_point it)
  | None => Ok (unknown_point it)
  end.

Section LinePoints.
Variables (a : ChartArea) (n : nat) (minValue range : num).

Definition point_x (index : nat) : num :=
  (ax a + nn index / Math_max [nn n - nz 1; nz 1] * aw a)%num.

Definition point_y (p : Point) : num :=
  (ay a + ah a - (value p - minValue) / range * ah a)%num.

(** The piece of path data the point adds: a move for the first point,
    a line for each later one. *)
Definition path_segment (ip : nat * Point) : string :=
  (match fst ip with O => "M " | _ => " L " end)
  ++ str (point_x (fst ip)) ++ " " ++ str (point_y (snd ip)).

Definition point_marker (ip : nat * Point) : elem :=
  Elem "circle"
       [("cx", str (point_x (fst ip))); ("cy", str (point_y (snd ip)));
        ("r", "4"); ("fill", "#4285f4"); ("class", "chart-point")]
       None.

(** Every [ceil(n/8)]-th point shows its axis label. *)
Definition shows_label (index : nat) : bool :=
  (nn index %% Math_ceil (nn n / nz 8) === nz 0)%num.

Definition point_axis_label (ip : nat * Point) : elem :=
  text_elem (point_x (fst ip)) (ay a + ah a + nz 20)%num
            [("text-anchor", "middle"); ("class", "axis-label")]
            (label (snd ip)).

Definition point_value_label (ip : nat * Point) : elem :=
  text_elem (point_x (fst ip)) (point_y (snd ip) - nz 10)%num
            [("text-anchor", "middle"); ("class", "axis-label"); ("font-size", "10")]
            (str (value (snd ip))).

Definition point_labels (ip : nat * Point) : list elem :=
  (if shows_label (fst ip) then [point_axis_label ip] else [])
  ++ [point_value_label ip].
End LinePoints.

Definition value_range (points : list Point) : num * num :=
  let values := map value points in
  let maxValue := Math_max values in
  let minValue := Math_min values in
  (minValue, (maxValue - minValue || nz 1)%num).

Definition line_path (a : ChartArea) (points : list Point) : string :=
  let '(minValue, range) := value_range points in
  concat_all (map (path_segment a (List.length points) minValue range) (indexed points)).

Definition line_elems (a : ChartArea) (o : Options) (points : list Point) : list elem :=
  let '(minValue, range) := value_range points in
  let n := List.length points in
  (Elem "path" [("d", line_path a points); ("stroke", "#4285f4"); ("class", "chart-line")] None
   :: map (point_marker a n minValue range) (indexed points)
   ++ flat_map (point_labels a n minValue range) (indexed points)
   ++ axes a ++ axis_titles a o)%list.

Definition generateLineChart_elems (d : jsdata) (w h : num) (o : Options)
  : result (list elem) :=
  match nonempty_array d with
  | None => Ok no_data
  | Some items =>
      points <- mapM normalize_point items ;;
      Ok (line_elems (chartArea w h) o points)
  end.

(* --------------------------------------------------------------- *)
(** *** Area *)

Definition area_path (a : ChartArea) (points : list Point) : string :=
  let '(minValue, range) := value_range points in
  let n := List.length points in
  "M " ++ str (ax a) ++ " " ++ str (ay a + ah a)%num
  ++ concat_all
       (map (fun ip : nat * Point =>
               " L " ++ str (point_x a n (fst ip))
               ++ " " ++ str (point_y a minValue range (snd ip)))
            (indexed points))
  ++ " L " ++ str (ax a + aw a)%num ++ " " ++ str (ay a + ah a)%num ++ " Z".

Definition generateAreaChart_elems (d : jsdata) (w h : num) (o : Options)
  : result (list elem) :=
  match nonempty_array d with
  | None => Ok no_data
  | Some items =>
      let a := chartArea w h in
      points <- mapM normalize_point items ;;
      Ok ([ Elem "path" [("d", area_path a points); ("fill", "#4285f4");
                         ("class", "chart-area")] None;
            Elem "path" [("d", line_path a points); ("stroke", "#4285f4");
                         ("class", "chart-line")] None ]
          ++ axes a)%list
  end.

(* --------------------------------------------------------------- *)
(** *** Pie *)

Definition pie_colors : list string :=
  ["#4285f4"; "#ea4335"; "#fbbc04"; "#34a853"; "#9aa0a6"; "#ff6d01";
   "#ab47bc"; "#26c6da"].

(** The [data.map] callback of the pie and funnel engines. *)
Definition normalize_slice (it : item) : result Point :=
  o <- as_object it ;;
  match o with
  | Some fs =>
      if defined (field "category" fs) && defined (field "value" fs) then
        Ok {| label := ToString H (field "category" fs);
              value := ToNumber H (field "value" fs) |}
      else Ok (unknown_point it)
  | None => Ok (unknown_point it)
  end.

(** [slices.reduce((sum, slice) => sum + slice.value, 0)], each addition
    rounded. *)
Definition pie_total (slices : list Point) : num :=
  fold_left (fun sum slice => (sum + value slice)%b64) slices (nz 0).

(** What one drawn slice contributes: where it starts, how far it
    sweeps, and the shapes added to the two accumulators. *)
Record PieStep : Type := {
  ps_start : num;
  ps_angle : num;
  ps_ratio100 : num;
  ps_shapes : list elem;
  ps_legend : list elem
}.

Section PieSlices.
Variables (centerX centerY radius total : num).

Definition sliceAngle_of (v : num) : num := (v / total * nz 2 * Math_PI)%b64.

Definition pie_step (currentAngle : num) (index : nat) (slice : Point) : PieStep :=
  let sliceAngle := sliceAngle_of (value slice) in
  let endAngle := (currentAngle + sliceAngle)%b64 in
  let x1 := (centerX + radius * Math_cos H currentAngle)%b64 in
  let y1 := (centerY + radius * Math_sin H currentAngle)%b64 in
  let x2 := (centerX + radius * Math_cos H endAngle)%b64 in
  let y2 := (centerY + radius * Math_sin H endAngle)%b64 in
  let largeArcFlag := if (sliceAngle >? Math_PI)%b64 then "1" else "0" in
  let color := color_at pie_colors index in
  let labelAngle := (currentAngle + sliceAngle / nz 2)%b64 in
  let labelRadius := (radius * b64 (7 # 10))%b64 in
  let labelX := (centerX + labelRadius * Math_cos H labelAngle)%b64 in
  let labelY := (centerY + labelRadius * Math_sin H labelAngle)%b64 in
  let ratio100 := (value slice / total * nz 100)%b64 in
  let percentage := toFixed H 1 ratio100 in
  let legendY := (centerY - radius + nn index * nz 20)%b64 in
  {| ps_start := currentAngle;
     ps_angle := sliceAngle;
     ps_ratio100 := ratio100;
     ps_shapes :=
       Elem "path"
            [("d", "M " ++ str centerX ++ " " ++ str centerY
                   ++ " L " ++ str x1 ++ " " ++ str y1
                   ++ " A " ++ str radius ++ " " ++ str radius
                   ++ " 0 " ++ largeArcFlag ++ " 1 "
                   ++ str x2 ++ " " ++ str y2 ++ " Z");
             ("fill", color); ("stroke", "#fff"); ("stroke-width", "2")]
            None
       :: (if (sliceAngle >? b64 (1 # 5))%b64 then
             [text_elem labelX labelY
                        [("text-anchor", "middle"); ("class", "axis-label");
                         ("fill", "white"); ("font-weight", "bold")]
                        (percentage ++ "%")]
           else []);
     ps_legend :=
       [ Elem "rect"
              [("x", str (centerX + radius + nz 30)%b64);
               ("y", str (legendY - nz 8)%b64);
               ("width", "12"); ("height", "12"); ("fill", color)]
              None;
         text_elem (centerX + radius + nz 48)%b64 (legendY + nz 3)%b64
                   [("class", "legend-text")]
                   (label slice ++ ": " ++ str (value slice)) ] |}.

(** [slices.forEach]: a slice of value at most 0 is skipped, a drawn
    slice starts where the one before ended. *)
Fixpoint pie_loop (currentAngle : num) (l : list (nat * Point)) : list PieStep :=
  match l with
  | [] => []
  | (index, slice) :: l' =>
      if (value slice <=? nz 0)%num then pie_loop currentAngle l'
      else
        let st := pie_step currentAngle index slice in
        st :: pie_loop (currentAngle + ps_angle st)%b64 l'
  end.
End PieSlices.

Definition pie_steps (w h : num) (slices : list Point) : list PieStep :=
  let centerX := (w / nz 2)%b64 in
  let centerY := (h / nz 2 + nz 20)%b64 in
  let radius := (Math_min [w; h] / nz 4)%b64 in
  pie_loop centerX centerY radius (pie_total slices)
           (- Math_PI / nz 2)%b64 (indexed slices).

Definition generatePieChart_elems (d : jsdata) (w h : num) (o : Options)
  : result (list elem) :=
  match nonempty_array d with
  | None => Ok no_data
  | Some items =>
      slices <- mapM normalize_slice items ;;
      if (pie_total slices <=? nz 0)%num then
        Ok [placeholder "No valid data for pie chart"]
      else
        let steps := pie_steps w h slices in
        Ok (flat_map ps_shapes steps ++ flat_map ps_legend steps)%list
  end.

(* --------------------------------------------------------------- *)
(** *** Scatter *)

(** [data.forEach]: a point with x and y is placed on the assumed 0..100
    domain; any other item is placed by index and by the next value of
    [Math.random()], [k] counting the calls made so far. *)
Fixpoint scatter_loop (a : ChartArea) (n : nat) (k : nat) (l : list (nat * item))
  : result (list elem) :=
  match l with
  | [] => Ok []
  | (index, it) :: l' =>
      o <- as_object it ;;
      let placed :=
        match o with
        | Some fs =>
            if defined (field "x" fs) && defined (field "y" fs) then
              Some ((ax a + ToNumber H (field "x" fs) / nz 100 * aw a)%num,
                    (ay a + ah a - ToNumber H (field "y" fs) / nz 100 * ah a)%num)
            else None
        | None => None
        end in
      let '(x, y, k') :=
        match placed with
        | Some (x, y) => (x, y, k)
        | None =>
            ((ax a + nn index / nn n * aw a)%num,
             (ay a + ah a - Math_random H k * ah a)%num,
             S k)
        end in
      rest <- scatter_loop a n k' l' ;;
      Ok (Elem "circle"
               [("cx", str x); ("cy", str y); ("r", "5"); ("fill", "#4285f4");
                ("class", "chart-point")]
               None
          :: rest)
  end.

Definition generateScatterChart_elems (d : jsdata) (w h : num) (o : Options)
  : result (list elem) :=
  match nonempty_array d with
  | None => Ok no_data
  | Some items =>
      let a := chartArea w h in
      points <- scatter_loop a (List.length items) 0 (indexed items) ;;
      Ok (points ++ axes a)%list
  end.

(* --------------------------------------------------------------- *)
(** *** Radar *)

Definition radar_colors : list string :=
  ["#4285f4"; "#ea4335"; "#fbbc04"; "#34a853"].

Record RadarState : Type := {
  radarData : list (string * list (string * num));
  dimensionSet : list string
}.

Definition radar_collect (st : RadarState) (it : item) : result RadarState :=
  o <- as_object it ;;
  match o with
  | Some fs =>
      if truthy (field "name" fs) && truthy (field "group" fs)
         && defined (field "value" fs) then
        let name := ToString H (field "name" fs) in
        let group := ToString H (field "group" fs) in
        let v := ToNumber H (field "value" fs) in
        let inner :=
          match omap_get String.eqb group (radarData st) with
          | Some m => m
          | None => []
          end in
        Ok {| radarData :=
                omap_set String.eqb group (omap_set String.eqb name v inner)
                         (radarData st);
              dimensionSet := oset_add String.eqb name (dimensionSet st) |}
      else Ok st
  | None => Ok st
  end.

Section RadarShapes.
Variables (centerX centerY radius : num) (dimensionArray : list string).

Definition spoke_angle (index : nat) : num :=
  (nn index / nn (List.length dimensionArray) * nz 2 * Math_PI - Math_PI / nz 2)%num.

Definition radar_grid : list elem :=
  map (fun i : nat =>
         Elem "circle"
              [("cx", str centerX); ("cy", str centerY);
               ("r", str (radius * nn i / nz 5)%num);
               ("fill", "none"); ("stroke", "#ddd"); ("stroke-width", "1")]
              None)
      (seq 1 5).

Definition radar_spoke (idim : nat * string) : list elem :=
  let angle := spoke_angle (fst idim) in
  let x := (centerX + radius * Math_cos H angle)%num in
  let y := (centerY + radius * Math_sin H angle)%num in
  let labelX := (centerX + (radius + nz 20) * Math_cos H angle)%num in
  let labelY := (centerY + (radius + nz 20) * Math_sin H angle)%num in
  [ Elem "line"
         [("x1", str centerX); ("y1", str centerY); ("x2", str x); ("y2", str y);
          ("stroke", "#ddd"); ("stroke-width", "1")]
         None;
    text_elem labelX labelY
              [("text-anchor", "middle"); ("class", "axis-label")] (snd idim) ].

Definition radar_vertex (groupData : list (string * num)) (idim : nat * string)
  : string :=
  let v :=
    match omap_get String.eqb (snd idim) groupData with
    | Some v => (v || nz 0)%num
    | None => nz 0
    end in
  let normalizedValue := (v / nz 100)%num in
  let angle := spoke_angle (fst idim) in
  let x := (centerX + radius * normalizedValue * Math_cos H angle)%num in
  let y := (centerY + radius * normalizedValue * Math_sin H angle)%num in
  (match fst idim with O => "M " | _ => " L " end) ++ str x ++ " " ++ str y.

Definition radar_group (ig : nat * (string * list (string * num))) : list elem :=
  let groupIndex := fst ig in
  let color := color_at radar_colors groupIndex in
  let pathData :=
    concat_all (map (radar_vertex (snd (snd ig))) (indexed dimensionArray)) ++ " Z" in
  let legendY := (nz 100 + nn groupIndex * nz 20)%num in
  [ Elem "path"
         [("d", pathData); ("fill", color); ("fill-opacity", "0.3");
          ("stroke", color); ("stroke-width", "2")]
         None;
    Elem "rect"
         [("x", "20"); ("y", str (legendY - nz 8)%num); ("width", "12");
          ("height", "12"); ("fill", color)]
         None;
    Elem "text"
         [("x", "38"); ("y", str (legendY + nz 3)%num); ("class", "legend-text")]
         (Some (fst (snd ig))) ].
End RadarShapes.

Definition generateRadarChart_elems (d : jsdata) (w h : num) (o : Options)
  : result (list elem) :=
  match nonempty_array d with
  | None => Ok no_data
  | Some items =>
      let centerX := (w / nz 2)%num in
      let centerY := (h / nz 2)%num in
      let radius := (Math_min [w; h] / nz 3)%num in
      st <- foldM radar_collect items {| radarData := []; dimensionSet := [] |} ;;
      let dimensionArray := dimensionSet st in
      match dimensionArray with
      | [] => Ok [placeholder "No valid radar data"]
      | _ =>
          Ok (radar_grid centerX centerY radius
              ++ flat_map (radar_spoke centerX centerY radius dimensionArray)
                          (indexed dimensionArray)
              ++ flat_map (radar_group centerX centerY radius dimensionArray)
                          (indexed (radarData st)))%list
      end
  end.

(* --------------------------------------------------------------- *)
(** *** Dual axes *)

Record DualRow : Type := {
  row_category : string;
  barValue : num;
  lineValue : num
}.

(** The [data.map] callback of the legacy row format. *)
Definition dual_row (it : item) : result DualRow :=
  o <- as_object it ;;
  match o with
  | Some fs =>
      Ok {| row_category :=
              ToString H (por (por (field "category" fs) (field "time" fs))
                              (PStr "Unknown"));
            barValue :=
              ToNumber H (por (por (field "bar" fs) (field "value" fs))
                              (PNum (nz 0)));
            lineValue :=
              ToNumber H (por (por (field "line" fs) (field "value2" fs))
                              (PNum (nz 0))) |}
  | None => Ok {| row_category := "Unknown"; barValue := nz 0; lineValue := nz 0 |}
  end.

Record DualInput : Type := {
  barData : list num;
  lineData : list num;
  dualCategories : list string
}.

Definition series_data (kind : string) (ss : list Series) : list num :=
  match find (fun s => String.eqb (s_type s) kind) ss with
  | Some s => s_data s
  | None => []
  end.

(** The two input shapes: tagged series with shared categories, or
    legacy rows. *)
Definition dual_input (d : jsdata) (o : Options) : result DualInput :=
  match series o, categories o with
  | Some ss, Some cats =>
      Ok {| barData := series_data "column" ss;
            lineData := series_data "line" ss;
            dualCategories := cats |}
  | _, _ =>
      match nonempty_array d with
      | Some items =>
          processedData <- mapM dual_row items ;;
          Ok {| barData := map barValue processedData;
                lineData := map lineValue processedData;
                dualCategories := map row_category processedData |}
      | None => Ok {| barData := []; lineData := []; dualCategories := [] |}
      end
  end.

Section DualShapes.
Variables (a : ChartArea) (inp : DualInput).

Definition maxBarValue : num := Math_max (barData inp ++ [nz 1]).
Definition maxLineValue : num := Math_max (lineData inp ++ [nz 1]).

Definition dataLength : nat :=
  Nat.max (Nat.max (List.length (barData inp)) (List.length (lineData inp)))
          (List.length (dualCategories inp)).

Definition dual_barWidth : num := (aw a / (nn dataLength * Fin (3 # 2)))%num.

Definition slot_x (i : nat) : num :=
  (ax a + (nn i + Fin (1 # 2)) * (aw a / nn dataLength))%num.

(** One turn of the first loop: the bar of slot [i] when there is a
    positive bar value, then the category label when there is one. *)
Definition dual_slot (i : nat) : list elem :=
  let x := slot_x i in
  (match nth_error (barData inp) i with
   | Some v =>
       if (v >? nz 0)%num then
         let barHeight := (v / maxBarValue * ah a)%num in
         let y := (ay a + ah a - barHeight)%num in
         Elem "rect"
              [("x", str (x - dual_barWidth / nz 2)%num); ("y", str y);
               ("width", str dual_barWidth); ("height", str barHeight);
               ("fill", "#4285f4"); ("stroke", "#fff"); ("stroke-width", "1")]
              None
         :: (if (barHeight >? nz 20)%num then
               [text_elem x (y - nz 5)%num
                          [("text-anchor", "middle"); ("class", "axis-label");
                           ("font-size", "10")]
                          (str v)]
             else [])
       else []
   | None => []
   end)
  ++
  (match nth_error (dualCategories inp) i with
   | Some c =>
       [text_elem x (ay a + ah a + nz 20)%num
                  [("text-anchor", "middle"); ("class", "axis-label")] c]
   | None => []
   end).

Definition dual_line_y (v : num) : num :=
  (ay a + ah a - v / maxLineValue * ah a)%num.

Definition dual_line_segment (iv : nat * num) : string :=
  (match fst iv with O => "M " | _ => " L " end)
  ++ str (slot_x (fst iv)) ++ " " ++ str (dual_line_y (snd iv)).

Definition dual_line_point (iv : nat * num) : list elem :=
  let x := slot_x (fst iv) in
  let y := dual_line_y (snd iv) in
  [ Elem "circle"
         [("cx", str x); ("cy", str y); ("r", "4"); ("fill", "#ea4335");
          ("stroke", "#fff"); ("stroke-width", "2")]
         None;
    text_elem x (y - nz 10)%num
              [("text-anchor", "middle"); ("class", "axis-label"); ("font-size", "10")]
              (str (snd iv)) ].

Definition tick_y (i : nat) : num := (ay a + ah a - nn i / nz 5 * ah a)%num.

(** The left axis (bars): tick [i] of 0..5 is labelled
    [Math.round(maxBarValue / 5 * i)]. *)
Definition left_tick_value (i : nat) : num := (maxBarValue / nz 5 * nn i)%num.

Definition left_tick (i : nat) : list elem :=
  let y := tick_y i in
  text_elem (ax a - nz 10)%num (y + nz 4)%num
            [("text-anchor", "end"); ("class", "axis-label")]
            (str (Math_round (left_tick_value i)))
  :: (if (0 <? i)%nat then
        [Elem "line"
              [("x1", str (ax a - nz 5)%num); ("y1", str y); ("x2", str (ax a));
               ("y2", str y); ("stroke", "#ddd"); ("stroke-width", "1")]
              None]
      else []).

(** The right axis (line): tick [i] is labelled
    [(maxLineValue / 5 * i).toFixed(2)]. *)
Definition right_tick_value (i : nat) : num := (maxLineValue / nz 5 * nn i)%num.

Definition right_tick (i : nat) : list elem :=
  let y := tick_y i in
  text_elem (ax a + aw a + nz 10)%num (y + nz 4)%num
            [("text-anchor", "start"); ("class", "axis-label")]
            (toFixed H 2 (right_tick_value i))
  :: (if (0 <? i)%nat then
        [Elem "line"
              [("x1", str (ax a + aw a)%num); ("y1", str y);
               ("x2", str (ax a + aw a + nz 5)%num); ("y2", str y);
               ("stroke", "#ddd"); ("stroke-width", "1")]
              None]
      else []).

Definition dual_axes : list elem :=
  [ Elem "line" [("x1", str (ax a)); ("y1", str (ay a)); ("x2", str (ax a));
                 ("y2", str (ay a + ah a)%num); ("class", "axis")] None;
    Elem "line" [("x1", str (ax a + aw a)%num); ("y1", str (ay a));
                 ("x2", str (ax a + aw a)%num); ("y2", str (ay a + ah a)%num);
                 ("class", "axis")] None;
    Elem "line" [("x1", str (ax a)); ("y1", str (ay a + ah a)%num);
                 ("x2", str (ax a + aw a)%num); ("y2", str (ay a + ah a)%num);
                 ("class", "axis")] None ].

Definition series_title (o : Options) (k : nat) : option string :=
  match series o with
  | Some ss =>
      match nth_error ss k with
      | Some s => opt_str_truthy (s_axisYTitle s)
      | None => None
      end
  | None => None
  end.

Definition dual_titles (o : Options) : list elem :=
  (match series_title o 0 with
   | Some t =>
       let x := (ax a - nz 50)%num in
       let y := (ay a + ah a / nz 2)%num in
       [text_elem x y
                  [("text-anchor", "middle"); ("class", "axis-title");
                   ("transform", "rotate(-90, " ++ str x ++ ", " ++ str y ++ ")")]
                  t]
   | None => []
   end) ++
  (match series_title o 1 with
   | Some t =>
       let x := (ax a + aw a + nz 60)%num in
       let y := (ay a + ah a / nz 2)%num in
       [text_elem x y
                  [("text-anchor", "middle"); ("class", "axis-title");
                   ("transform", "rotate(90, " ++ str x ++ ", " ++ str y ++ ")")]
                  t]
   | None => []
   end) ++
  (match opt_str_truthy (axisXTitle o) with
   | Some t =>
       [text_elem (ax a + aw a / nz 2)%num (ay a + ah a + nz 50)%num
                  [("text-anchor", "middle"); ("class", "axis-title")] t]
   | None => []
   end).

Definition dual_legend : list elem :=
  [ Elem "rect" [("x", str (ax a)); ("y", str (ay a - nz 40)%num); ("width", "12");
                 ("height", "12"); ("fill", "#4285f4")] None;
    text_elem (ax a + nz 18)%num (ay a - nz 31)%num [("class", "legend-text")] "Bars";
    Elem "line" [("x1", str (ax a + nz 80)%num); ("y1", str (ay a - nz 34)%num);
                 ("x2", str (ax a + nz 92)%num); ("y2", str (ay a - nz 34)%num);
                 ("stroke", "#ea4335"); ("stroke-width", "2")] None;
    Elem "circle" [("cx", str (ax a + nz 86)%num); ("cy", str (ay a - nz 34)%num);
                   ("r", "3"); ("fill", "#ea4335")] None;
    text_elem (ax a + nz 98)%num (ay a - nz 31)%num [("class", "legend-text")] "Line" ].

Definition dual_elems (o : Options) : list elem :=
  let drawn := firstn (Nat.min (List.length (lineData inp)) dataLength) (lineData inp) in
  (flat_map dual_slot (seq 0 dataLength)
   ++ flat_map dual_line_point (indexed drawn)
   ++ [Elem "path"
            [("d", concat_all (map dual_line_segment (indexed drawn)));
             ("stroke", "#ea4335"); ("fill", "none"); ("stroke-width", "2")]
            None]
   ++ dual_axes
   ++ flat_map left_tick (seq 0 6)
   ++ flat_map right_tick (seq 0 6)
   ++ dual_titles o
   ++ dual_legend)%list.
End DualShapes.

Definition generateDualAxesChart_elems (d : jsdata) (w h : num) (o : Options)
  : result (list elem) :=
  let a := chartArea w h in
  inp <- dual_input d o ;;
  match barData inp, lineData inp with
  | [], [] => Ok no_data
  | _, _ => Ok (dual_elems a inp o)
  end.

(* --------------------------------------------------------------- *)
(** *** Histogram *)

(** The [data.map] callback: the value field of a record that has one,
    otherwise [Number(item) || 0]. *)
Definition histogram_value (it : item) : result num :=
  o <- as_object it ;;
  match o with
  | Some fs =>
      if defined (field "value" fs) then Ok (ToNumber H (field "value" fs))
      else Ok (Number_item H it || nz 0)%num
  | None => Ok (Number_item H it || nz 0)%num
  end.

(** [f(...l)]: the array is spread into the arguments of the call, which
    throws when they are more than the engine takes. *)
Definition spread {A : Type} (l : list A) : result unit :=
  if (List.length l <=? max_arguments H)%nat then Ok tt else Throw RangeError.

(** [Array(n).fill(0)]: a length that is not an integer in 0..2^32-1
    throws. *)
Definition Array_fill0 (n : num) : result (list nat) :=
  match n with
  | Fin q =>
      let r := Qred q in
      if ((Zpos (Qden r) =? 1) && (0 <=? Qnum r) && (Qnum r <? 2 ^ 32))%Z
      then Ok (repeat 0%nat (Z.to_nat (Qnum r)))
      else Throw RangeError
  | _ => Throw RangeError
  end.

(** The element a number indexes, if it is an index of the array. *)
Definition array_index (idx : num) (len : nat) : option nat :=
  match idx with
  | Fin q =>
      let r := Qred q in
      if ((Zpos (Qden r) =? 1) && (0 <=? Qnum r) && (Qnum r <? Z.of_nat len))%Z
      then Some (Z.to_nat (Qnum r))
      else None
  | _ => None
  end.

Fixpoint incr_nth (i : nat) (l : list nat) : list nat :=
  match l, i with
  | [], _ => []
  | x :: l', O => S x :: l'
  | x :: l', S i' => x :: incr_nth i' l'
  end.

(** [histogram[binIndex]++]: on a key that is not an index of the array
    the statement sets a property and leaves every bin as it was. *)
Definition incr_bin (histogram : list nat) (binIndex : num) : list nat :=
  match array_index binIndex (List.length histogram) with
  | Some i => incr_nth i histogram
  | None => histogram
  end.

Definition binIndex_of (minValue binWidth nbins v : num) : num :=
  Math_min [Math_floor ((v - minValue) / binWidth)%b64; (nbins - nz 1)%b64].

Definition fill_bins (minValue binWidth nbins : num) (values : list num)
           (histogram : list nat) : list nat :=
  fold_left (fun hist v => incr_bin hist (binIndex_of minValue binWidth nbins v))
            values histogram.

Definition histogram_values (items : list item) : result (list num) :=
  vs <- mapM histogram_value items ;;
  Ok (filter (fun v => negb (isNaN v)) vs).

Definition histogram_binWidth (nbins : num) (values : list num) : num :=
  ((Math_max values - Math_min values) / nbins)%b64.

Definition histogram_bins (nbins : num) (values : list num) : result (list nat) :=
  let minValue := Math_min values in
  let binWidth := histogram_binWidth nbins values in
  empty <- Array_fill0 nbins ;;
  Ok (fill_bins minValue binWidth nbins values empty).

Section HistogramBars.
Variables (a : ChartArea) (nbins minValue binWidth barWidth maxFrequency : num).

Definition histogram_bar (ifreq : nat * nat) : list elem :=
  let index := fst ifreq in
  let frequency := nn (snd ifreq) in
  let x := (ax a + nn index * barWidth)%b64 in
  let barHeight := (frequency / Math_max [maxFrequency; nz 1] * ah a)%b64 in
  let y := (ay a + ah a - barHeight)%b64 in
  let binStart := toFixed H 1 (minValue + nn index * binWidth)%b64 in
  (Elem "rect"
        [("x", str x); ("y", str y); ("width", str (barWidth - nz 2)%b64);
         ("height", str barHeight); ("fill", "#4285f4"); ("stroke", "#fff");
         ("stroke-width", "1")]
        None
   :: (if (nn index %% Math_ceil (nbins / nz 6)%b64 === nz 0)%num then
         [text_elem (x + barWidth / nz 2)%b64 (ay a + ah a + nz 20)%b64
                    [("text-anchor", "middle"); ("class", "axis-label")] binStart]
       else [])
   ++ (if (barHeight >? nz 15)%num then
         [text_elem (x + barWidth / nz 2)%b64 (y - nz 5)%b64
                    [("text-anchor", "middle"); ("class", "axis-label")]
                    (str frequency)]
       else []))%list.
End HistogramBars.

(** [{ x: 80, y: 60, width: width - 140, height: height - 140 }]. *)
Definition histogramArea (w h : num) : ChartArea :=
  {| ax := nz 80; ay := nz 60; aw := (w - nz 140)%b64; ah := (h - nz 140)%b64 |}.

Definition histogram_axes (a : ChartArea) : list elem :=
  [ Elem "line" [("x1", str (ax a)); ("y1", str (ay a)); ("x2", str (ax a));
                 ("y2", str (ay a + ah a)%b64); ("class", "axis")] None;
    Elem "line" [("x1", str (ax a)); ("y1", str (ay a + ah a)%b64);
                 ("x2", str (ax a + aw a)%b64); ("y2", str (ay a + ah a)%b64);
                 ("class", "axis")] None ].

Definition histogram_titles (a : ChartArea) : list elem :=
  [ text_elem (ax a + aw a / nz 2)%b64 (ay a + ah a + nz 50)%b64
              [("text-anchor", "middle"); ("class", "axis-title")] "Value Range";
    Elem "text"
         [("x", "30"); ("y", str (ay a + ah a / nz 2)%b64);
          ("text-anchor", "middle"); ("class", "axis-title");
          ("transform", "rotate(-90 30 " ++ str (ay a + ah a / nz 2)%b64 ++ ")")]
         (Some "Frequency") ].

Definition generateHistogramChart_elems (d : jsdata) (w h : num) (o : Options)
  : result (list elem) :=
  match nonempty_array d with
  | None => Ok no_data
  | Some items =>
      let a := histogramArea w h in
      values <- histogram_values items ;;
      match values with
      | [] => Ok [placeholder "No valid numeric data"]
      | _ =>
          let nbins := opt_num_or (bins o) (nz 10) in
          _ <- spread values ;;
          let minValue := Math_min values in
          let binWidth := histogram_binWidth nbins values in
          histogram <- histogram_bins nbins values ;;
          _ <- spread histogram ;;
          let maxFrequency := Math_max (map nn histogram) in
          let barWidth := (aw a / nbins)%b64 in
          Ok (flat_map (histogram_bar a nbins minValue binWidth barWidth maxFrequency)
                       (indexed histogram)
              ++ histogram_axes a ++ histogram_titles a)%list
      end
  end.

(* --------------------------------------------------------------- *)
(** *** Funnel *)

Definition funnel_colors : list string :=
  ["#4285f4"; "#5bb974"; "#fbbc04"; "#ea4335"; "#9aa0a6"; "#ff6d01"].

(** [{ x: 100, y: 80, width: width - 200, height: height - 160 }]. *)
Definition funnelArea (w h : num) : ChartArea :=
  {| ax := nz 100; ay := nz 80; aw := (w - nz 200)%b64; ah := (h - nz 160)%b64 |}.

Definition funnel_maxValue (stages : list Point) : num :=
  Math_max (map value stages).

Section FunnelStages.
Variables (a : ChartArea) (stages : list Point).

Definition stageHeight : num := (ah a / nn (List.length stages))%b64.

Definition widthRatio_of (v : num) : num := (v / funnel_maxValue stages)%b64.

Definition stageWidth_of (v : num) : num := (aw a * widthRatio_of v)%b64.

Definition funnel_shape (index : nat) (stage : Point) : elem :=
  let widthRatio := widthRatio_of (value stage) in
  let stageWidth := stageWidth_of (value stage) in
  let x := (ax a + (aw a - stageWidth) / nz 2)%b64 in
  let y := (ay a + nn index * stageHeight)%b64 in
  let color := color_at funnel_colors index in
  if (S index =? List.length stages)%nat then
    Elem "rect"
         [("x", str x); ("y", str y); ("width", str stageWidth);
          ("height", str (stageHeight - nz 10)%b64); ("fill", color);
          ("stroke", "#fff"); ("stroke-width", "2")]
         None
  else
    let nextWidthRatio :=
      match nth_error stages (S index) with
      | Some nextStage => (value nextStage / funnel_maxValue stages)%b64
      | None => (widthRatio * b64 (4 # 5))%b64
      end in
    let nextStageWidth := (aw a * nextWidthRatio)%b64 in
    let nextX := (ax a + (aw a - nextStageWidth) / nz 2)%b64 in
    Elem "polygon"
         [("points",
           str x ++ "," ++ str y ++ " "
           ++ str (x + stageWidth)%b64 ++ "," ++ str y ++ " "
           ++ str (nextX + nextStageWidth)%b64 ++ ","
           ++ str (y + stageHeight - nz 10)%b64 ++ " "
           ++ str nextX ++ "," ++ str (y + stageHeight - nz 10)%b64);
          ("fill", color); ("stroke", "#fff"); ("stroke-width", "2")]
         None.

Definition funnel_labelY (index : nat) : num :=
  (ay a + nn index * stageHeight + stageHeight / nz 2)%b64.

(** [stages[index - 1].value]; the index is in range wherever the
    source reads it. *)
Definition previous_value (index : nat) : num :=
  match nth_error stages (index - 1) with
  | Some prev => value prev
  | None => NaN
  end.

Definition conversion_rate (index : nat) (stage : Point) : num :=
  (value stage / previous_value index * nz 100)%b64.

Definition conversion_text (index : nat) (stage : Point) : elem :=
  text_elem (ax a + aw a + nz 10)%b64 (funnel_labelY index)
            [("class", "axis-label")]
            (toFixed H 1 (conversion_rate index stage) ++ "%").

(** One turn of [stages.forEach]. *)
Definition funnel_stage (ist : nat * Point) : list elem :=
  let index := fst ist in
  let stage := snd ist in
  let labelX := (ax a + aw a / nz 2)%b64 in
  let labelY := funnel_labelY index in
  [ funnel_shape index stage;
    text_elem labelX (labelY - nz 5)%b64
              [("text-anchor", "middle"); ("class", "axis-label"); ("fill", "white");
               ("font-weight", "bold")]
              (label stage);
    text_elem labelX (labelY + nz 10)%b64
              [("text-anchor", "middle"); ("class", "axis-label"); ("fill", "white")]
              (toLocaleString H (value stage)) ]
  ++ (if (0 <? index)%nat then [conversion_text index stage] else []).
End FunnelStages.

Definition funnel_elems (a : ChartArea) (stages : list Point) : list elem :=
  flat_map (funnel_stage a stages) (indexed stages).

Definition generateFunnelChart_elems (d : jsdata) (w h : num) (o : Options)
  : result (list elem) :=
  match nonempty_array d with
  | None => Ok no_data
  | Some items =>
      stages <- mapM normalize_slice items ;;
      Ok (funnel_elems (funnelArea w h) stages)
  end.

(* --------------------------------------------------------------- *)
(** *** Dispatcher and document *)

(** [options.data || []]. *)
Definition data_or_empty (o : Options) : jsdata :=
  match data o with
  | None => DArray []
  | Some (DArray l) => DArray l
  | Some (DValue (IObj fs)) => DValue (IObj fs)
  | Some (DValue (IPrim p)) => if truthy p then DValue (IPrim p) else DArray []
  end.

Definition default_title (type : string) : string :=
  toUpperCase (charAt0 type) ++ slice1 type ++ " Chart".

Definition title_of (type : string) (o : Options) : string :=
  match opt_str_truthy (title o) with
  | Some t => t
  | None => default_title type
  end.

(** The fragment an engine returns is the concatenation of its shapes. *)
Definition fragment (r : result (list elem)) : result string :=
  l <- r ;; Ok (render_all l).

Definition generateColumnChart d w h o := fragment (generateColumnChart_elems d w h o).
Definition generateLineChart d w h o := fragment (generateLineChart_elems d w h o).
Definition generatePieChart d w h o := fragment (generatePieChart_elems d w h o).
Definition generateAreaChart d w h o := fragment (generateAreaChart_elems d w h o).
Definition generateScatterChart d w h o := fragment (generateScatterChart_elems d w h o).
Definition generateRadarChart d w h o := fragment (generateRadarChart_elems d w h o).
Definition generateFunnelChart d w h o := fragment (generateFunnelChart_elems d w h o).
Definition generateDualAxesChart d w h o := fragment (generateDualAxesChart_elems d w h o).
Definition generateHistogramChart d w h o := fragment (generateHistogramChart_elems d w h o).

(** The [switch] on the lower-cased type tag; any other tag goes to the
    column engine. *)
Definition dispatch (type : string) (d : jsdata) (w h : num) (o : Options)
  : result string :=
  let t := toLowerCase type in
  if String.eqb t "bar" || String.eqb t "column" then generateColumnChart d w h o
  else if String.eqb t "line" then generateLineChart d w h o
  else if String.eqb t "pie" then generatePieChart d w h o
  else if String.eqb t "area" then generateAreaChart d w h o
  else if String.eqb t "scatter" then generateScatterChart d w h o
  else if String.eqb t "radar" then generateRadarChart d w h o
  else if String.eqb t "funnel" then generateFunnelChart d w h o
  else if String.eqb t "dual-axes" then generateDualAxesChart d w h o
  else if String.eqb t "histogram" then generateHistogramChart d w h o
  else generateColumnChart d w h o.

Definition style_block : string :=
  "  <style>" ++ nl ++
  "    .chart-title { font-family: Arial, sans-serif; font-size: 20px; font-weight: bold; text-anchor: middle; fill: #333; }" ++ nl ++
  "    .axis-label { font-family: Arial, sans-serif; font-size: 12px; fill: #666; }" ++ nl ++
  "    .axis-title { font-family: Arial, sans-serif; font-size: 14px; font-weight: bold; fill: #333; }" ++ nl ++
  "    .chart-bar { stroke: #fff; stroke-width: 1; }" ++ nl ++
  "    .chart-line { fill: none; stroke-width: 2; }" ++ nl ++
  "    .chart-point { stroke-width: 2; }" ++ nl ++
  "    .chart-area { fill-opacity: 0.3; }" ++ nl ++
  "    .axis { stroke: #333; stroke-width: 1; }" ++ nl ++
  "    .legend-text { font-family: Arial, sans-serif; font-size: 12px; fill: #333; }" ++ nl ++
  "  </style>" ++ nl.

(** The opening tag of the root element. *)
Definition svg_open (w h : num) : string :=
  "<svg width=" ++ dq ++ str w ++ dq ++ " height=" ++ dq ++ str h ++ dq
  ++ " xmlns=" ++ dq ++ "http://www.w3.org/2000/svg" ++ dq ++ ">".

Definition footer_notice : string := "Generated locally - No remote uploads".

Definition document (w h : num) (title chartElements : string) : string :=
  "<?xml version=" ++ dq ++ "1.0" ++ dq ++ " encoding=" ++ dq ++ "UTF-8" ++ dq ++ "?>" ++ nl
  ++ svg_open w h ++ nl
  ++ style_block
  ++ "  " ++ nl
  ++ "  <!-- Chart Title -->" ++ nl
  ++ "  " ++ render (Elem "text" [("x", str (w / nz 2)%num); ("y", "30");
                                  ("class", "chart-title")] (Some title)) ++ nl
  ++ "  " ++ nl
  ++ "  <!-- Chart Content -->" ++ nl
  ++ "  " ++ chartElements ++ nl
  ++ "  " ++ nl
  ++ "  <!-- Generated locally notice -->" ++ nl
  ++ "  " ++ render (Elem "text" [("x", "10"); ("y", str (h - nz 10)%num);
                                  ("class", "axis-label"); ("fill", "#888")]
                          (Some footer_notice)) ++ nl
  ++ "</svg>".

Definition generateSvgContent (type : string) (o : Options) : result string :=
  let w := opt_num_or (width o) (nz 800) in
  let h := opt_num_or (height o) (nz 600) in
  let t := title_of type o in
  let d := data_or_empty o in
  chartElements <- dispatch type d w h o ;;
  Ok (document w h t chartElements).

End Engines.

(* ================================================================= *)
(** ** The file layer *)

(** [generateChartUrl] and [generateMap] save what they draw under the
    output directory.  What they do to the file system is the list of the
    calls they make, in order; what the calls do is the runtime's part. *)
Inductive fs_call : Type :=
| mkdirSync (path : string)
| writeFileSync (path content : string).

(** What a [catch] block receives: an exception of the drawing code or of
    a file-system call. *)
Inductive caught : Type :=
| EngineError (e : js_error)
| FsError (c : fs_call).

(** What the Node runtime decides: the environment variable, the path
    functions, [JSON.stringify(options, null, 2)], the [message] of an
    exception, the paths that exist, and the file-system calls that
    throw. *)
Record NodeHost : Type := {
  CHART_OUTPUT_DIR : option string;
  path_join : string -> string -> string;
  path_resolve : string -> string;
  JSON_stringify : Options -> string;
  error_message : caught -> string;
  existsSync : string -> bool;
  fs_throws : fs_call -> bool
}.

(** How the promise of an [async] function settles. *)
Inductive settled (A : Type) : Type :=
| Resolved (a : A)
| Rejected_Error (message : string)
| Rejected (c : caught).
Arguments Resolved {A} a.
Arguments Rejected_Error {A} message.
Arguments Rejected {A} c.

(** [process.env.CHART_OUTPUT_DIR || './generated-charts']. *)
Definition outputDir (N : NodeHost) : string :=
  match opt_str_truthy (CHART_OUTPUT_DIR N) with
  | Some d => d
  | None => "./generated-charts"
  end.

(** [if (!existsSync(outputDir)) mkdirSync(outputDir, { recursive: true })]. *)
Definition ensure_dir (N : NodeHost) : list fs_call :=
  if existsSync N (outputDir N) then [] else [mkdirSync (outputDir N)].

Definition ensure_dir_throws (N : NodeHost) : bool :=
  negb (existsSync N (outputDir N)) && fs_throws N (mkdirSync (outputDir N)).

Section FileLayer.
Variables (H : JsHost) (N : NodeHost).

Definition svg_path (name : string) (timestamp : num) : string :=
  path_join N (outputDir N) (name ++ "_" ++ num_to_string H timestamp ++ ".svg").

Definition error_path (name : string) (timestamp : num) : string :=
  path_join N (outputDir N) (name ++ "_" ++ num_to_string H timestamp ++ "_error.txt").

Definition error_report (errorMessage : string) (o : Options) : string :=
  "Error generating chart: " ++ errorMessage ++ nl ++ "Options: " ++ JSON_stringify N o.

(** The [try] block of [generateChartSvgLocally]: the calls it makes and
    the address it returns or the exception it raises. *)
Definition chart_try (type : string) (timestamp : num) (o : Options)
  : list fs_call * (string + caught) :=
  match generateSvgContent H type o with
  | Throw e => ([], inr (EngineError e))
  | Ok svgContent =>
      let w := writeFileSync (svg_path type timestamp) svgContent in
      ([w], if fs_throws N w then inr (FsError w)
            else inl ("file://" ++ path_resolve N (svg_path type timestamp)))
  end.

(** [timestamp] is the reading of [Date.now()]. *)
Definition generateChartSvgLocally (timestamp : num) (type : string) (o : Options)
  : list fs_call * settled string :=
  if ensure_dir_throws N then
    (ensure_dir N, Rejected (FsError (mkdirSync (outputDir N))))
  else
    let tried := chart_try type timestamp o in
    match snd tried with
    | inl url => (ensure_dir N ++ fst tried, Resolved url)%list
    | inr error =>
        let errorMessage := error_message N error in
        let w := writeFileSync (error_path type timestamp)
                               (error_report errorMessage o) in
        ((ensure_dir N ++ fst tried ++ [w])%list,
         if fs_throws N w then Rejected (FsError w)
         else Rejected_Error ("Failed to generate chart SVG: " ++ errorMessage))
    end.

Definition generateChartUrl (timestamp : num) (type : string) (o : Options)
  : list fs_call * settled string :=
  generateChartSvgLocally timestamp type o.

(** *** The map *)

Definition map_style : string :=
  "  <style>" ++ nl ++
  "    .map-title { font-family: Arial, sans-serif; font-size: 20px; font-weight: bold; text-anchor: middle; }" ++ nl ++
  "    .map-area { fill: #e1f5fe; stroke: #01579b; stroke-width: 2; }" ++ nl ++
  "    .map-point { fill: #f44336; stroke: #fff; stroke-width: 2; }" ++ nl ++
  "    .map-label { font-family: Arial, sans-serif; font-size: 12px; }" ++ nl ++
  "  </style>" ++ nl.

(** The template of the map; [json] is [JSON.stringify(input)], of which
    the first 50 characters are shown. *)
Definition map_document (tool json : string) : string :=
  let w := nz 800 in
  let h := nz 600 in
  "<?xml version=" ++ dq ++ "1.0" ++ dq ++ " encoding=" ++ dq ++ "UTF-8" ++ dq ++ "?>" ++ nl
  ++ "<svg width=" ++ dq ++ num_to_string H w ++ dq ++ " height=" ++ dq
  ++ num_to_string H h ++ dq ++ " xmlns=" ++ dq ++ "http://www.w3.org/2000/svg" ++ dq
  ++ ">" ++ nl
  ++ map_style
  ++ "  " ++ nl
  ++ "  <!-- Map Title -->" ++ nl
  ++ "  " ++ render (Elem "text" [("x", num_to_string H (w / nz 2)%num); ("y", "30");
                                  ("class", "map-title")]
                          (Some (tool ++ " - Map Visualization"))) ++ nl
  ++ "  " ++ nl
  ++ "  <!-- Simple map outline -->" ++ nl
  ++ "  " ++ render (Elem "rect" [("x", "100"); ("y", "80"); ("width", "600");
                                  ("height", "400"); ("class", "map-area")] None) ++ nl
  ++ "  " ++ nl
  ++ "  <!-- Sample map points -->" ++ nl
  ++ "  " ++ render (Elem "circle" [("cx", "300"); ("cy", "200"); ("r", "8");
                                    ("class", "map-point")] None) ++ nl
  ++ "  " ++ render (Elem "text" [("x", "315"); ("y", "205"); ("class", "map-label")]
                          (Some "Location 1")) ++ nl
  ++ "  " ++ nl
  ++ "  " ++ render (Elem "circle" [("cx", "500"); ("cy", "300"); ("r", "8");
                                    ("class", "map-point")] None) ++ nl
  ++ "  " ++ render (Elem "text" [("x", "515"); ("y", "305"); ("class", "map-label")]
                          (Some "Location 2")) ++ nl
  ++ "  " ++ nl
  ++ "  <!-- Generated locally notice -->" ++ nl
  ++ "  " ++ render (Elem "text" [("x", "10"); ("y", num_to_string H (h - nz 10)%num);
                                  ("class", "map-label"); ("fill", "#888")]
                          (Some footer_notice)) ++ nl
  ++ "  " ++ nl
  ++ "  <!-- Input data as text -->" ++ nl
  ++ "  " ++ render (Elem "text" [("x", "10"); ("y", num_to_string H (h - nz 30)%num);
                                  ("class", "map-label"); ("fill", "#666")]
                          (Some ("Input: " ++ String.substring 0 50 json ++ "..."))) ++ nl
  ++ "</svg>".

Section MapInput.
(** The input is any value; [stringify] is [JSON.stringify] on it, which
    gives [undefined] for some values. *)
Variables (Input : Type) (stringify : Input -> option string).

Record ResponseResult : Type := {
  metadata_tool : string;
  metadata_input : Input;
  metadata_localPath : option string;
  metadata_error : option string;
  content_text : string;
  isError : bool
}.

(** The [try] block of [generateMapSvgLocally]: taking [slice] of
    [undefined] raises a TypeError before any file is written. *)
Definition map_try (tool : string) (timestamp : num) (input : Input)
  : list fs_call * (string + caught) :=
  match stringify input with
  | None => ([], inr (EngineError TypeError))
  | Some json =>
      let w := writeFileSync (svg_path tool timestamp) (map_document tool json) in
      ([w], if fs_throws N w then inr (FsError w)
            else inl ("file://" ++ path_resolve N (svg_path tool timestamp)))
  end.

Definition generateMapSvgLocally (timestamp : num) (tool : string) (input : Input)
  : list fs_call * settled ResponseResult :=
  if ensure_dir_throws N then
    (ensure_dir N, Rejected (FsError (mkdirSync (outputDir N))))
  else
    let tried := map_try tool timestamp input in
    ((ensure_dir N ++ fst tried)%list,
     match snd tried with
     | inl localPath =>
         Resolved {| metadata_tool := tool; metadata_input := input;
                     metadata_localPath := Some localPath; metadata_error := None;
                     content_text := "Map SVG saved locally: " ++ localPath;
                     isError := false |}
     | inr error =>
         let errorMessage := error_message N error in
         Resolved {| metadata_tool := tool; metadata_input := input;
                     metadata_localPath := None; metadata_error := Some errorMessage;
                     content_text := "Error generating map SVG: " ++ errorMessage;
                     isError := true |}
     end).

Definition generateMap (timestamp : num) (tool : string) (input : Input)
  : list fs_call * settled ResponseResult :=
  generateMapSvgLocally timestamp tool input.
End MapInput.
End FileLayer.

(* ================================================================= *)
(** ** The render call of src/utils/generate.ts *)

(** The other copy of the file has the same engines but for the dual-axes
    and the histogram ones, which it lacks; its [switch] has no case for
    them, and its style sheet fills the point markers white. *)
Module generate_ts.
Section Render.
Variable H : JsHost.

Definition dispatch (type : string) (d : jsdata) (w h : num) (o : Options)
  : result string :=
  let t := toLowerCase type in
  if String.eqb t "bar" || String.eqb t "column" then generateColumnChart H d w h o
  else if String.eqb t "line" then generateLineChart H d w h o
  else if String.eqb t "pie" then generatePieChart H d w h o
  else if String.eqb t "area" then generateAreaChart H d w h o
  else if String.eqb t "scatter" then generateScatterChart H d w h o
  else if String.eqb t "radar" then generateRadarChart H d w h o
  else if String.eqb t "funnel" then generateFunnelChart H d w h o
  else generateColumnChart H d w h o.

Definition style_block : string :=
  "  <style>" ++ nl ++
  "    .chart-title { font-family: Arial, sans-serif; font-size: 20px; font-weight: bold; text-anchor: middle; fill: #333; }" ++ nl ++
  "    .axis-label { font-family: Arial, sans-serif; font-size: 12px; fill: #666; }" ++ nl ++
  "    .axis-title { font-family: Arial, sans-serif; font-size: 14px; font-weight: bold; fill: #333; }" ++ nl ++
  "    .chart-bar { stroke: #fff; stroke-width: 1; }" ++ nl ++
  "    .chart-line { fill: none; stroke-width: 2; }" ++ nl ++
  "    .chart-point { fill: #fff; stroke-width: 2; }" ++ nl ++
  "    .chart-area { fill-opacity: 0.3; }" ++ nl ++
  "    .axis { stroke: #333; stroke-width: 1; }" ++ nl ++
  "    .legend-text { font-family: Arial, sans-serif; font-size: 12px; fill: #333; }" ++ nl ++
  "  </style>" ++ nl.

Definition document (w h : num) (title chartElements : string) : string :=
  "<?xml version=" ++ dq ++ "1.0" ++ dq ++ " encoding=" ++ dq ++ "UTF-8" ++ dq ++ "?>" ++ nl
  ++ svg_open H w h ++ nl
  ++ style_block
  ++ "  " ++ nl
  ++ "  <!-- Chart Title -->" ++ nl
  ++ "  " ++ render (Elem "text" [("x", num_to_string H (w / nz 2)%num); ("y", "30");
                                  ("class", "chart-title")] (Some title)) ++ nl
  ++ "  " ++ nl
  ++ "  <!-- Chart Content -->" ++ nl
  ++ "  " ++ chartElements ++ nl
  ++ "  " ++ nl
  ++ "  <!-- Generated locally notice -->" ++ nl
  ++ "  " ++ render (Elem "text" [("x", "10"); ("y", num_to_string H (h - nz 10)%num);
                                  ("class", "axis-label"); ("fill", "#888")]
                          (Some footer_notice)) ++ nl
  ++ "</svg>".

Definition generateSvgContent (type : string) (o : Options) : result string :=
  let w := opt_num_or (width o) (nz 800) in
  let h := opt_num_or (height o) (nz 600) in
  let t := title_of type o in
  let d := data_or_empty o in
  chartElements <- dispatch type d w h o ;;
  Ok (document w h t chartElements).
End Render.
End generate_ts.

(* ================================================================= *)
(** ** The converter script *)

(** [s.replace(pat, rep)] with a string pattern: the first occurrence is
    replaced. *)
Fixpoint replace_first (pat rep s : string) : string :=
  if String.prefix pat s then rep ++ String.substring (String.length pat) (String.length s) s
  else
    match s with
    | EmptyString => EmptyString
    | String c s' => String c (replace_first pat rep s')
    end.

Module converter.

(** What the script does to the outside, in order: the commands it runs
    and the files it reads and writes. *)
Inductive call : Type :=
| execAsync (command : string)
| readFileSync (path : string)
| writeFileSync (path content : string).

(** What stops a conversion. *)
Inductive failure : Type :=
| ReadFailed (path : string)
| WriteFailed (path : string)
| NewError (message : string).

(** What the runtime decides: the commands that fail, the content of the
    files, the writes that throw, the directories, and the path
    functions. *)
Record ScriptHost : Type := {
  exec_rejects : string -> bool;
  file_content : string -> option string;
  write_throws : string -> string -> bool;
  existsSync : string -> bool;
  readdirSync : string -> option (list string);
  join : string -> string -> string;
  extname : string -> string;
  basename : string -> string;
  basename_without : string -> string -> string
}.

Section Script.
Variable S : ScriptHost.

Definition quoted (s : string) : string := dq ++ s ++ dq.

(** The three converters, in the order they are tried. *)
Definition converters (svgPath pngPath : string) : list string :=
  [ "rsvg-convert -o " ++ quoted pngPath ++ " " ++ quoted svgPath;
    "convert " ++ quoted svgPath ++ " " ++ quoted pngPath;
    "inkscape --export-filename=" ++ quoted pngPath ++ " " ++ quoted svgPath ].

(** The loop over the converters: it returns at the first one that does
    not fail. *)
Fixpoint try_converters (commands : list string) : list call * bool :=
  match commands with
  | [] => ([], false)
  | c :: rest =>
      if exec_rejects S c then
        let '(calls, done) := try_converters rest in (execAsync c :: calls, done)
      else ([execAsync c], true)
  end.

Definition html_page (svgPath pngPath svgContent : string) : string :=
  "<!DOCTYPE html>" ++ nl
  ++ "<html>" ++ nl
  ++ "<head>" ++ nl
  ++ "    <title>SVG to PNG</title>" ++ nl
  ++ "    <style>" ++ nl
  ++ "        body { margin: 0; padding: 20px; background: white; font-family: Arial, sans-serif; }" ++ nl
  ++ "        .notice { margin-bottom: 20px; padding: 10px; border: 1px solid #ddd; background: #f9f9f9; }" ++ nl
  ++ "        svg { border: 1px solid #ccc; }" ++ nl
  ++ "    </style>" ++ nl
  ++ "</head>" ++ nl
  ++ "<body>" ++ nl
  ++ "    <div class=" ++ dq ++ "notice" ++ dq ++ ">" ++ nl
  ++ "        <strong>Manual Conversion Required</strong><br>" ++ nl
  ++ "        Original: " ++ basename S svgPath ++ "<br>" ++ nl
  ++ "        Target: " ++ basename S pngPath ++ "<br>" ++ nl
  ++ "        Right-click the SVG below and save as PNG, or take a screenshot." ++ nl
  ++ "    </div>" ++ nl
  ++ "    " ++ svgContent ++ nl
  ++ "</body>" ++ nl
  ++ "</html>".

(** [createHtmlFallback] has no way to return: it ends in a [throw]. *)
Definition createHtmlFallback (svgPath pngPath : string) : list call * failure :=
  match file_content S svgPath with
  | None => ([readFileSync svgPath], ReadFailed svgPath)
  | Some svgContent =>
      let htmlContent := html_page svgPath pngPath svgContent in
      let htmlPath := replace_first ".png" ".html" pngPath in
      ([readFileSync svgPath; writeFileSync htmlPath htmlContent],
       if write_throws S htmlPath htmlContent then WriteFailed htmlPath
       else NewError ("No converter available. Created " ++ htmlPath
                      ++ " for manual conversion."))
  end.

(** [None] is the promise resolved. *)
Definition convertSvgToPng (svgPath pngPath : string) : list call * option failure :=
  let '(calls, done) := try_converters (converters svgPath pngPath) in
  if done then (calls, None)
  else
    let '(more, e) := createHtmlFallback svgPath pngPath in
    ((calls ++ more)%list, Some e).

Record Results : Type := {
  success : list string;
  failed : list string
}.

Inductive ending : Type :=
| Exit1
| NoSvgFiles
| Complete (results : Results).

(** [a || b] on an argument that may be missing. *)
Definition arg_or (a : option string) (b : string) : string :=
  match opt_str_truthy a with
  | Some s => s
  | None => b
  end.

Definition svg_files (files : list string) : list string :=
  filter (fun file => String.eqb (toLowerCase (extname S file)) ".svg") files.

(** The [for] loop of [main]. *)
Fixpoint convert_all (inputDir outputDir : string) (files : list string)
         (results : Results) : list call * Results :=
  match files with
  | [] => ([], results)
  | file :: rest =>
      let svgPath := join S inputDir file in
      let pngFile := basename_without S file ".svg" ++ ".png" in
      let pngPath := join S outputDir pngFile in
      let '(calls, outcome) := convertSvgToPng svgPath pngPath in
      let results' :=
        match outcome with
        | None => {| success := success results ++ [file]; failed := failed results |}
        | Some _ => {| success := success results; failed := failed results ++ [file] |}
        end in
      let '(more, final) := convert_all inputDir outputDir rest results' in
      ((calls ++ more)%list, final)
  end.

(** [main] with its [catch]: [args] is [process.argv.slice(2)]. *)
Definition main (args : list string) : list call * ending :=
  let inputDir := arg_or (nth_error args 0) "./generated-charts" in
  let outputDir := arg_or (nth_error args 1) inputDir in
  if negb (existsSync S inputDir) then ([], Exit1)
  else
    match readdirSync S inputDir with
    | None => ([], Exit1)
    | Some files =>
        match svg_files files with
        | [] => ([], NoSvgFiles)
        | svgFiles =>
            let '(calls, results) :=
              convert_all inputDir outputDir svgFiles {| success := []; failed := [] |} in
            (calls, Complete results)
        end
    end.
End Script.
End converter.

(* ================================================================= *)
(** ** Vocabulary of the statements *)

(** A host to run the model on concrete inputs.  Numbers the model does
    not print itself come out as numerator/denominator. *)
Definition plain_host : JsHost := {|
  StringToNumber := fun _ => NaN;
  NumberToString := fun q => Z_to_string (Qnum q) ++ "/" ++ Z_to_string (Zpos (Qden q));
  Math_cos := fun _ => nz 1;
  Math_sin := fun _ => nz 0;
  Math_random := fun _ => Fin (1 # 2);
  toLocaleString := fun _ => "#";
  max_arguments := Z.to_nat 65535
|}.

Definition no_options : Options := {|
  width := None; height := None; title := None; data := None;
  axisXTitle := None; axisYTitle := None; bins := None;
  series := None; categories := None
|}.

Definition with_data (items : list item) : Options := {|
  width := None; height := None; title := None; data := Some (DArray items);
  axisXTitle := None; axisYTitle := None; bins := None;
  series := None; categories := None
|}.

Definition jnum (z : Z) : item := IPrim (PNum (nz z)).

Definition not_null (it : item) : Prop := it <> IPrim PNull.

Definition count_if (p : elem -> bool) (l : list elem) : nat :=
  List.length (filter p l).

(** The value label of a line point is the text drawn at font size 10. *)
Definition is_value_label (e : elem) : bool :=
  is_tag "text" e && has_attr "font-size" "10" e.

(** An item the line engine takes a label and a value from: a record with
    a value and a time or a category. *)
Definition carries_point (it : item) : bool :=
  match it with
  | IObj fs =>
      (defined (field "time" fs) || defined (field "category" fs))
      && defined (field "value" fs)
  | IPrim _ => false
  end.

(** A piece of path data holding one coordinate pair. *)
Definition coordinate_pair (H : JsHost) (s : string) : Prop :=
  exists c x y, (c = "M " \/ c = " L ") /\ s = c ++ str H x ++ " " ++ str H y.

(** A bar is a rect of class chart-bar; the legend swatches carry no
    class. *)
Definition is_bar (e : elem) : bool :=
  is_tag "rect" e && has_attr "class" "chart-bar" e.

(** No item of the input that the column engine accepts has category [c]
    and group [g]. *)
Definition absent_pair (H : JsHost) (items : list item) (c : string) (g : prim) : Prop :=
  forall fs,
    In (IObj fs) items ->
    truthy (field "category" fs) && defined (field "value" fs) = true ->
    ToString H (field "category" fs) = c ->
    same_value_zero g (por (field "group" fs) (PStr "Series 1")) = false.

(** What one accepted item does to the grouping state. *)
Definition column_put (H : JsHost) (st : ColumnState) (fs : fields) : ColumnState :=
  let category := ToString H (field "category" fs) in
  let group := por (field "group" fs) (PStr "Series 1") in
  let inner :=
    match omap_get String.eqb category (groupedData st) with
    | Some m => m
    | None => []
    end in
  {| groupedData :=
       omap_set String.eqb category
                (omap_set same_value_zero group (ToNumber H (field "value" fs)) inner)
                (groupedData st);
     categorySet := oset_add String.eqb category (categorySet st);
     groupSet := oset_add same_value_zero group (groupSet st) |}.

(** Every collected category has its map of cells. *)
Definition categories_mapped (st : ColumnState) : Prop :=
  forall c, In c (categorySet st) ->
            exists cd, omap_get String.eqb c (groupedData st) = Some cd.

(** Two categories and two groups of which only the diagonal is given. *)
Definition grid_gap : list item :=
  [ IObj [("category", PStr "Q1"); ("group", PStr "A"); ("value", PNum (nz 10))];
    IObj [("category", PStr "Q2"); ("group", PStr "B"); ("value", PNum (nz 20))] ].

(** A number [Array(n)] accepts as a length. *)
Definition valid_array_length (n : num) : Prop :=
  exists (q : Q) (k : Z), n = Fin q /\ q == inject_Z k /\ (0 <= k < 2 ^ 32)%Z.

(** A bin count the histogram engine can work with: a length an array
    can have that is no more than the arguments a call takes, since the
    array of the bins is spread into [Math.max]. *)
Definition bin_count_fits (H : JsHost) (n : num) : Prop :=
  exists (q : Q) (k : Z),
    n = Fin q /\ q == inject_Z k /\ (0 <= k < 2 ^ 32)%Z
    /\ (k <= Z.of_nat (max_arguments H))%Z.

(** The request as the interface describes it, within what the engine
    takes: the data, when an array, holds records and numbers (any value
    but null will do) and is no longer than the arguments a call takes,
    and the bin count the call works with, [options.bins || 10], fits. *)
Definition well_formed (H : JsHost) (o : Options) : Prop :=
  (forall items, data o = Some (DArray items) ->
                 Forall not_null items /\ (List.length items <= max_arguments H)%nat) /\
  bin_count_fits H (opt_num_or (bins o) (nz 10)).

Definition data_safe (d : jsdata) : Prop :=
  forall items, nonempty_array d = Some items -> Forall not_null items.

Definition histogram_request (b : num) : Options := {|
  width := Some (nz 640); height := None; title := None;
  data := Some (DArray [jnum 1; jnum 2; jnum 3]);
  axisXTitle := None; axisYTitle := None; bins := Some b;
  series := None; categories := None
|}.

(** In the series format the dual-axes engine has nothing to draw. *)
Definition no_series_data (o : Options) : Prop :=
  match series o, categories o with
  | Some ss, Some _ => series_data "column" ss = [] /\ series_data "line" ss = []
  | _, _ => True
  end.

(** The slice of the pie, or the stage of the funnel, the spec reads
    from an item: category and value of a record that carries both;
    otherwise Unknown with the item as a number, 0 when that is NaN. *)
Definition slice_of (H : JsHost) (it : item) : Point :=
  match it with
  | IObj fs =>
      if defined (field "category" fs) && defined (field "value" fs) then
        {| label := ToString H (field "category" fs);
           value := ToNumber H (field "value" fs) |}
      else {| label := "Unknown"; value := nz 0 |}
  | IPrim p => {| label := "Unknown"; value := (ToNumber H p || nz 0)%num |}
  end.

(** The value the histogram reads from an item: the value of a record
    that has one, as a number; otherwise the item as a number, and 0 when
    that is NaN or 0.  The valid values are those that are not NaN. *)
Definition extracted_value (H : JsHost) (it : item) : num :=
  match it with
  | IObj fs =>
      if defined (field "value" fs) then ToNumber H (field "value" fs) else nz 0
  | IPrim p => (ToNumber H p || nz 0)%num
  end.

Definition extracted_values (H : JsHost) (items : list item) : list num :=
  filter (fun v => negb (isNaN v)) (map (extracted_value H) items).

(** The degenerate requests and the message each one is answered with. *)
Inductive degenerate (H : JsHost) (type : string) (o : Options) : string -> Prop :=
| no_items :
    nonempty_array (data_or_empty o) = None ->
    (toLowerCase type = "dual-axes" -> no_series_data o) ->
    degenerate H type o "No data available"
| pie_without_total (items : list item) :
    toLowerCase type = "pie" ->
    nonempty_array (data_or_empty o) = Some items ->
    Forall not_null items ->
    (pie_total (map (slice_of H) items) <=? nz 0)%num = true ->
    degenerate H type o "No valid data for pie chart"
| histogram_without_values (items : list item) :
    toLowerCase type = "histogram" ->
    nonempty_array (data_or_empty o) = Some items ->
    Forall not_null items ->
    extracted_values H items = [] ->
    degenerate H type o "No valid numeric data".

Definition series_request : Options := {|
  width := None; height := None; title := None; data := Some (DArray []);
  axisXTitle := None; axisYTitle := None; bins := None;
  series := Some [ {| s_type := "column"; s_data := [nz 3]; s_axisYTitle := None |};
                   {| s_type := "line"; s_data := [nz 7]; s_axisYTitle := None |} ];
  categories := Some ["Q1"]
|}.

(** The records the column engine accepts, in input order: those with a
    truthy category and a value. *)
Definition accepted_rows (items : list item) : list fields :=
  flat_map (fun it =>
              match it with
              | IObj fs =>
                  if truthy (field "category" fs) && defined (field "value" fs)
                  then [fs] else []
              | IPrim _ => []
              end)
           items.

(** The category and the group of a record: [String(item.category)] and
    [item.group || 'Series 1']. *)
Definition category_of (H : JsHost) (fs : fields) : string :=
  ToString H (field "category" fs).

Definition group_of (fs : fields) : prim :=
  por (field "group" fs) (PStr "Series 1").

(** The distinct elements of a list in first-seen order: each element
    once, at the place of its first occurrence. *)
Fixpoint distinct {A : Type} (eqb : A -> A -> bool) (l : list A) : list A :=
  match l with
  | [] => []
  | x :: l' => x :: filter (fun y => negb (eqb y x)) (distinct eqb l')
  end.

(** The label the spec gives an item of the line chart: its time, else
    its category, when it also carries a value; Unknown otherwise. *)
Definition point_label (H : JsHost) (it : item) : string :=
  match it with
  | IObj fs =>
      if defined (field "value" fs) then
        if defined (field "time" fs) then ToString H (field "time" fs)
        else if defined (field "category" fs) then ToString H (field "category" fs)
             else "Unknown"
      else "Unknown"
  | IPrim _ => "Unknown"
  end.

(** The category of a legacy row of the dual-axes chart:
    [String(item.category || item.time || 'Unknown')]. *)
Definition dual_category (H : JsHost) (it : item) : string :=
  match it with
  | IObj fs =>
      ToString H (por (por (field "category" fs) (field "time" fs)) (PStr "Unknown"))
  | IPrim _ => "Unknown"
  end.

(** The type tag is empty or starts with an ASCII character, on which
    [charAt(0).toUpperCase()] is the upper-casing of one byte. *)
Definition ascii_initial (type : string) : Prop :=
  match type with
  | EmptyString => True
  | String c _ => (nat_of_ascii c < 128)%nat
  end.

(** The label strings an engine draws for a request, told from the
    request alone.  The column engine draws the category of every item it
    accepts and, when there is more than one group, the group names; the
    line engine the label of every point it samples; the pie engine the
    label of every slice of positive value; the funnel engine every stage
    label; the radar engine the dimension and group names of the records
    it accepts; the dual-axes engine the shared categories, or those of
    the legacy rows.  The area, scatter and histogram engines draw no
    label of the data. *)
Inductive drawn_label (H : JsHost) (type : string) (o : Options) : string -> Prop :=
| draws_category (items : list item) (fs : fields) :
    toLowerCase type = "column" \/ toLowerCase type = "bar" ->
    nonempty_array (data_or_empty o) = Some items ->
    In (IObj fs) items ->
    truthy (field "category" fs) && defined (field "value" fs) = true ->
    drawn_label H type o (ToString H (field "category" fs))
| draws_group (items : list item) (g : prim) :
    toLowerCase type = "column" \/ toLowerCase type = "bar" ->
    nonempty_array (data_or_empty o) = Some items ->
    let G := distinct same_value_zero (map group_of (accepted_rows items)) in
    (1 < List.length G)%nat ->
    In g G ->
    drawn_label H type o (ToString H g)
| draws_point_label (items : list item) (i : nat) (it : item) :
    toLowerCase type = "line" ->
    nonempty_array (data_or_empty o) = Some items ->
    nth_error items i = Some it ->
    (i mod ((List.length items + 7) / 8) = 0)%nat ->
    drawn_label H type o (point_label H it)
| draws_slice_label (items : list item) (it : item) :
    toLowerCase type = "pie" ->
    nonempty_array (data_or_empty o) = Some items ->
    (pie_total (map (slice_of H) items) <=? nz 0)%num = false ->
    In it items ->
    (value (slice_of H it) <=? nz 0)%num = false ->
    drawn_label H type o (label (slice_of H it))
| draws_stage_label (items : list item) (it : item) :
    toLowerCase type = "funnel" ->
    nonempty_array (data_or_empty o) = Some items ->
    In it items ->
    drawn_label H type o (label (slice_of H it))
| draws_dimension (items : list item) (fs : fields) :
    toLowerCase type = "radar" ->
    nonempty_array (data_or_empty o) = Some items ->
    In (IObj fs) items ->
    truthy (field "name" fs) && truthy (field "group" fs) && defined (field "value" fs)
    = true ->
    drawn_label H type o (ToString H (field "name" fs))
| draws_radar_group (items : list item) (fs : fields) :
    toLowerCase type = "radar" ->
    nonempty_array (data_or_empty o) = Some items ->
    In (IObj fs) items ->
    truthy (field "name" fs) && truthy (field "group" fs) && defined (field "value" fs)
    = true ->
    drawn_label H type o (ToString H (field "group" fs))
| draws_shared_category (ss : list Series) (cats : list string) (c : string) :
    toLowerCase type = "dual-axes" ->
    series o = Some ss ->
    categories o = Some cats ->
    series_data "column" ss <> [] \/ series_data "line" ss <> [] ->
    In c cats ->
    drawn_label H type o c
| draws_row_category (items : list item) (it : item) :
    toLowerCase type = "dual-axes" ->
    series o = None \/ categories o = None ->
    nonempty_array (data_or_empty o) = Some items ->
    In it items ->
    drawn_label H type o (dual_category H it).

(** A request whose title and category hold markup characters. *)
Definition markup_request : Options := {|
  width := None; height := None; title := Some "<b>Q&A</b>";
  data := Some (DArray [IObj [("category", PStr "<Q1>"); ("value", PNum (nz 10))]]);
  axisXTitle := None; axisYTitle := None; bins := None;
  series := None; categories := None
|}.

Definition markup_document : string :=
  Eval vm_compute in
    match generateSvgContent plain_host "column" markup_request with
    | Ok doc => doc
    | Throw _ => EmptyString
    end.

(** The example of the column engine: two categories of one group. *)
Definition single_group : list item :=
  [ IObj [("category", PStr "Q1"); ("group", PStr "Rev"); ("value", PNum (nz 10))];
    IObj [("category", PStr "Q2"); ("group", PStr "Rev"); ("value", PNum (nz 20))] ].

(** The texts of the shapes of a fragment that satisfy [p], in order. *)
Definition texts_where (p : elem -> bool) (l : list elem) : list string :=
  flat_map (fun e => match body e with Some b => [b] | None => [] end) (filter p l).

(** The tick labels of the left axis are the texts anchored at their end,
    those of the right axis the texts anchored at their start. *)
Definition left_tick_labels : list elem -> list string :=
  texts_where (has_attr "text-anchor" "end").

Definition right_tick_labels : list elem -> list string :=
  texts_where (has_attr "text-anchor" "start").

(** Legacy rows that differ in their line value by four orders of
    magnitude. *)
Definition small_line : list item :=
  [ IObj [("category", PStr "Q1"); ("bar", PNum (nz 100)); ("line", PNum (nz 5))];
    IObj [("category", PStr "Q2"); ("bar", PNum (nz 250)); ("line", PNum (nz 7))] ].

Definition large_line : list item :=
  [ IObj [("category", PStr "Q1"); ("bar", PNum (nz 100)); ("line", PNum (nz 50000))];
    IObj [("category", PStr "Q2"); ("bar", PNum (nz 250)); ("line", PNum (nz 70000))] ].

(** Equality of numbers as values: two fractions of the same value are
    the same number. *)
Definition num_eq (a b : num) : Prop :=
  match a, b with
  | Fin x, Fin y => x == y
  | PInf, PInf | NInf, NInf => True
  | _, _ => False
  end.

Definition positive_value (s : Point) : Prop :=
  exists q, value s = Fin q /\ 0 < q.

Definition Qsum (qs : list Q) : Q := fold_right Qplus 0 qs.

Definition devices : list item :=
  [ IObj [("category", PStr "Mobile"); ("value", PNum (nz 45))];
    IObj [("category", PStr "Desktop"); ("value", PNum (nz 30))];
    IObj [("category", PStr "Tablet"); ("value", PNum (nz 15))] ].

Definition device_slices : list Point :=
  [ {| label := "Mobile"; value := nz 45 |};
    {| label := "Desktop"; value := nz 30 |};
    {| label := "Tablet"; value := nz 15 |} ].

(** The angle the spec gives a slice: (value / total) * 2 * PI, every
    operation rounded. *)
Definition slice_angle (total v : num) : num := (v / total * nz 2 * Math_PI)%b64.

(** The ratio behind its percentage label: (value / total) * 100. *)
Definition slice_ratio (total v : num) : num := (v / total * nz 100)%b64.

(** Where the slices start when they are swept from [start] in input
    order, each one starting where the one before ended. *)
Fixpoint sweep (total start : num) (slices : list Point) : list num :=
  match slices with
  | [] => []
  | s :: rest =>
      start :: sweep total (start + slice_angle total (value s))%b64 rest
  end.

(** The sector between the angles [a0] and [a1] of the circle of radius
    [r] around ([cX], [cY]): from the centre to the point at [a0], along
    the arc to the point at [a1] with the sweep flag 1, which is the
    clockwise direction of the y-down plane, and back. *)
Definition sector (H : JsHost) (cX cY r a0 a1 : num) (large : bool) (color : string)
  : elem :=
  Elem "path"
       [("d", "M " ++ str H cX ++ " " ++ str H cY
              ++ " L " ++ str H (cX + r * Math_cos H a0)%b64
              ++ " " ++ str H (cY + r * Math_sin H a0)%b64
              ++ " A " ++ str H r ++ " " ++ str H r
              ++ " 0 " ++ (if large then "1" else "0") ++ " 1 "
              ++ str H (cX + r * Math_cos H a1)%b64
              ++ " " ++ str H (cY + r * Math_sin H a1)%b64 ++ " Z");
        ("fill", color); ("stroke", "#fff"); ("stroke-width", "2")]
       None.

(** The sectors of the spec for a list of slices: in input order, each
    from its start angle over its own angle. *)
Definition sectors (H : JsHost) (w h total : num) (slices : list Point) : list elem :=
  let cX := (w / nz 2)%b64 in
  let cY := (h / nz 2 + nz 20)%b64 in
  let r := (Math_min [w; h] / nz 4)%b64 in
  map (fun isa : nat * (Point * num) =>
         let '(i, (s, a0)) := isa in
         let a := slice_angle total (value s) in
         sector H cX cY r a0 (a0 + a)%b64 (a >? Math_PI)%b64 (color_at pie_colors i))
      (indexed (combine slices (sweep total (- Math_PI / nz 2)%b64 slices))).

(** The percentage label of a slice is drawn when its angle is above
    0.2. *)
Definition percentage_labels (H : JsHost) (total : num) (slices : list Point)
  : list (option string) :=
  map (fun s => Some (toFixed H 1 (slice_ratio total (value s)) ++ "%"))
      (filter (fun s => (slice_angle total (value s) >? b64 (1 # 5))%b64) slices).

Definition is_percentage (e : elem) : bool :=
  is_tag "text" e && has_attr "fill" "white" e.

(** The text of a legend entry. *)
Definition is_legend (e : elem) : bool := has_attr "class" "legend-text" e.

(** No value and no ratio value / total is below the least normal number
    of binary64, so that no quotient loses digits to underflow. *)
Definition no_underflow (T : Q) (s : Point) : Prop :=
  exists q, value s = Fin q /\ Qpow2 (-1022) <= q /\ Qpow2 (-1022) <= q / T.

Definition PI_Q : Q := 884279719003555 # 281474976710656.

(** The relative error the sums of [n] rounded slices stay within:
    (n + 3) * 2^-52. *)
Definition pie_epsilon (n : nat) : Q := inject_Z (Z.of_nat n + 3) * Qpow2 (-52).

Fixpoint upow (b : Q) (n : nat) : Q :=
  match n with
  | O => 1
  | S n' => b * upow b n'
  end.

(** Two slices of value 2^1023, the largest power of two of binary64:
    their sum overflows. *)
Definition overflowing : list item :=
  [ IObj [("category", PStr "a"); ("value", PNum (nz (2 ^ 1023)))];
    IObj [("category", PStr "b"); ("value", PNum (nz (2 ^ 1023)))] ].

Definition overflowing_slices : list Point :=
  [ {| label := "a"; value := nz (2 ^ 1023) |};
    {| label := "b"; value := nz (2 ^ 1023) |} ].

(** The conversion-rate text is the only text of a stage that carries no
    text-anchor. *)
Definition is_conversion (e : elem) : bool :=
  is_tag "text" e &&
  match attr "text-anchor" e with
  | None => true
  | Some _ => false
  end.

Definition funnel_items : list item :=
  [ IObj [("category", PStr "Visitors"); ("value", PNum (nz 10))];
    IObj [("category", PStr "Buyers"); ("value", PNum (nz 5))] ].

Definition funnel_points : list Point :=
  [ {| label := "Visitors"; value := nz 10 |};
    {| label := "Buyers"; value := nz 5 |} ].

(** The width the spec gives a stage: canvasWidth * (value / maxValue). *)
Definition stage_width (a : ChartArea) (maxValue v : num) : num :=
  (aw a * (v / maxValue))%b64.

(** Where stage [i] of [n] starts, and how high a stage is. *)
Definition stage_height (a : ChartArea) (n : nat) : num := (ah a / nn n)%b64.

Definition stage_top (a : ChartArea) (n i : nat) : num :=
  (ay a + nn i * stage_height a n)%b64.

(** The conversion-rate text of stage [i] > 0: right of the canvas, at
    mid-height of the stage, (value / previous value) * 100 with one
    decimal and a percent sign. *)
Definition conversion_label (H : JsHost) (a : ChartArea) (n i : nat) (prev cur : num)
  : elem :=
  Elem "text"
       [("x", str H (ax a + aw a + nz 10)%b64);
        ("y", str H (stage_top a n i + stage_height a n / nz 2)%b64);
        ("class", "axis-label")]
       (Some (toFixed H 1 (cur / prev * nz 100)%b64 ++ "%")).

(** One conversion-rate text for every stage after the first, each from
    the stage and the one before it. *)
Definition conversion_labels (H : JsHost) (a : ChartArea) (stages : list Point)
  : list elem :=
  map (fun ips : nat * (Point * Point) =>
         let '(i, (pv, st)) := ips in
         conversion_label H a (List.length stages) i (value pv) (value st))
      (combine (seq 1 (List.length stages - 1)) (combine stages (tl stages))).

(** A stage that is not the last: a trapezoid whose top edge has the
    width of the stage, centred on the canvas, and whose bottom edge has
    the width of the next stage. *)
Definition trapezoid (H : JsHost) (a : ChartArea) (n i : nat) (maxValue v next : num)
  : elem :=
  let W := stage_width a maxValue v in
  let W' := stage_width a maxValue next in
  let x := (ax a + (aw a - W) / nz 2)%b64 in
  let x' := (ax a + (aw a - W') / nz 2)%b64 in
  let y := stage_top a n i in
  let bottom := (y + stage_height a n - nz 10)%b64 in
  Elem "polygon"
       [("points",
         str H x ++ "," ++ str H y ++ " "
         ++ str H (x + W)%b64 ++ "," ++ str H y ++ " "
         ++ str H (x' + W')%b64 ++ "," ++ str H bottom ++ " "
         ++ str H x' ++ "," ++ str H bottom);
        ("fill", color_at funnel_colors i); ("stroke", "#fff"); ("stroke-width", "2")]
       None.

Definition trapezoids (H : JsHost) (a : ChartArea) (stages : list Point) : list elem :=
  map (fun isn : nat * (Point * Point) =>
         let '(i, (st, next)) := isn in
         trapezoid H a (List.length stages) i (Math_max (map value stages))
                   (value st) (value next))
      (indexed (combine stages (tl stages))).

(** The last stage: a rect of the width of the stage, centred on the
    canvas. *)
Definition last_bar (H : JsHost) (a : ChartArea) (n : nat) (maxValue v : num) : elem :=
  let W := stage_width a maxValue v in
  Elem "rect"
       [("x", str H (ax a + (aw a - W) / nz 2)%b64);
        ("y", str H (stage_top a n (n - 1)));
        ("width", str H W);
        ("height", str H (stage_height a n - nz 10)%b64);
        ("fill", color_at funnel_colors (n - 1));
        ("stroke", "#fff"); ("stroke-width", "2")]
       None.

(** Two stages of 80 and 23. *)
Definition two_stages : list item :=
  [ IObj [("category", PStr "Visits"); ("value", PNum (nz 80))];
    IObj [("category", PStr "Orders"); ("value", PNum (nz 23))] ].

Definition zero_stages : list Point :=
  [ {| label := "Visitors"; value := nz 0 |}; {| label := "Buyers"; value := nz 0 |} ].

(** The bin the spec gives a value: floor((value - min) / binWidth),
    each operation rounded, clamped to [0, bins - 1]. *)
Definition clamped_bin (minValue binWidth nbins v : num) : num :=
  let f := Math_floor ((v - minValue) / binWidth)%b64 in
  if (f <? nz 0)%num then nz 0
  else if (f >? (nbins - nz 1)%b64)%num then (nbins - nz 1)%b64
       else f.

(** How many of the values the spec puts in bin [j]. *)
Definition bin_count (minValue binWidth nbins : num) (values : list num) (j : nat)
  : nat :=
  List.length (filter (fun v => (clamped_bin minValue binWidth nbins v === nn j)%num)
                      values).

(** An item that coerces to a number other than NaN: a record through
    its value field when it has one, anything else through Number(item). *)
Definition coerces_to_number (H : JsHost) (it : item) : bool :=
  match it with
  | IObj fs =>
      if defined (field "value" fs) then negb (isNaN (ToNumber H (field "value" fs)))
      else negb (isNaN (Number_item H it))
  | IPrim p => negb (isNaN (ToNumber H p))
  end.

(** The type tags with an engine of their own; bar and column, and every
    other tag, are drawn by the column engine. *)
Definition engine_tags : list string :=
  ["line"; "pie"; "area"; "scatter"; "radar"; "funnel"; "dual-axes"; "histogram"].

(** The dual-axes engine reads the rows of the data array, not tagged
    series. *)
Definition reads_rows (type : string) (o : Options) : Prop :=
  toLowerCase type = "dual-axes" -> series o = None \/ categories o = None.

(** The host with another source of random numbers. *)
Definition with_random (H : JsHost) (r : nat -> num) : JsHost := {|
  StringToNumber := StringToNumber H;
  NumberToString := NumberToString H;
  Math_cos := Math_cos H;
  Math_sin := Math_sin H;
  Math_random := r;
  toLocaleString := toLocaleString H;
  max_arguments := max_arguments H
|}.

(** A scatter item that carries its own coordinates. *)
Definition has_xy (it : item) : bool :=
  match it with
  | IObj fs => defined (field "x" fs) && defined (field "y" fs)
  | IPrim _ => false
  end.

(** An item the radar engine accepts: a record with a name, a group and a
    value. *)
Definition radar_accepts (it : item) : bool :=
  match it with
  | IObj fs =>
      truthy (field "name" fs) && truthy (field "group" fs) && defined (field "value" fs)
  | IPrim _ => false
  end.

(** The dimension and the group an accepted radar item names. *)
Definition radar_name (H : JsHost) (it : item) : string :=
  match it with
  | IObj fs => ToString H (field "name" fs)
  | IPrim _ => EmptyString
  end.

Definition radar_group_name (H : JsHost) (it : item) : string :=
  match it with
  | IObj fs => ToString H (field "group" fs)
  | IPrim _ => EmptyString
  end.

(** A category label under the x axis of the line engine: a text of class
    axis-label that is not a value label. *)
Definition is_axis_label (e : elem) : bool :=
  is_tag "text" e && has_attr "class" "axis-label" e
  && negb (has_attr "font-size" "10" e).

(** A runtime for the examples: no environment variable, an empty disk on
    which every call succeeds. *)
Definition plain_node : NodeHost := {|
  CHART_OUTPUT_DIR := None;
  path_join := fun d f => d ++ "/" ++ f;
  path_resolve := fun p => "/work/" ++ p;
  JSON_stringify := fun _ => "{}";
  error_message := fun c =>
    match c with
    | EngineError TypeError => "TypeError"
    | EngineError RangeError => "RangeError"
    | FsError _ => "EIO"
    end;
  existsSync := fun _ => false;
  fs_throws := fun _ => false
|}.

(** A call that stays in the output directory: making it, or writing the
    chart file or the error report of this request. *)
Definition in_output_dir (H : JsHost) (N : NodeHost) (name : string) (timestamp : num)
           (c : fs_call) : Prop :=
  c = mkdirSync (outputDir N) \/
  exists content,
    c = writeFileSync (svg_path H N name timestamp) content \/
    c = writeFileSync (error_path H N name timestamp) content.

(** An item the column engine accepts: a record with a category and a
    value. *)
Definition column_accepts (it : item) : bool :=
  match it with
  | IObj fs => truthy (field "category" fs) && defined (field "value" fs)
  | IPrim _ => false
  end.

(** The bar values the dual-axes engine draws a bar for. *)
Definition positive_bars (inp : DualInput) : list num :=
  filter (fun v => (v >? nz 0)%num) (barData inp).

(** One of the three converters takes the file. *)
Definition converts (S : converter.ScriptHost) (svgPath pngPath : string) : bool :=
  existsb (fun c => negb (converter.exec_rejects S c))
          (converter.converters svgPath pngPath).

(** The same for a file of the input directory, with the paths [main]
    builds for it. *)
Definition converts_file (S : converter.ScriptHost) (inputDir outputDir file : string)
  : bool :=
  converts S (converter.join S inputDir file)
           (converter.join S outputDir
              (converter.basename_without S file ".svg" ++ ".png")).

(** A runtime for the examples: only ImageMagick is installed, and the
    directory holds two charts and a text file. *)
Definition magick_only : converter.ScriptHost := {|
  converter.exec_rejects := fun c => negb (String.prefix "convert " c);
  converter.file_content := fun _ => Some "<svg/>";
  converter.write_throws := fun _ _ => false;
  converter.existsSync := fun _ => true;
  converter.readdirSync := fun _ => Some ["a.svg"; "notes.txt"; "b.SVG"];
  converter.join := fun d f => d ++ "/" ++ f;
  converter.extname := fun f =>
    match index 0 "." f with
    | Some i => String.substring i (String.length f) f
    | None => EmptyString
    end;
  converter.basename := fun p => p;
  converter.basename_without := fun f ext =>
    if String.eqb (String.substring (String.length f - String.length ext)
                                    (String.length ext) f) ext
    then String.substring 0 (String.length f - String.length ext) f
    else f
|}.

(* ================================================================= *)
(** ** Lemmas on strings, the error monad and counting *)

Lemma append_nil_r (s : string) : s ++ EmptyString = s.
Proof. induction s as [|c s IH]; simpl; [reflexivity | now rewrite IH]. Qed.

Lemma append_assoc (a b c : string) : (a ++ b) ++ c = a ++ (b ++ c).
Proof. induction a as [|x a IH]; simpl; [reflexivity | now rewrite IH]. Qed.

Lemma Substring_refl (s : string) : Substring s s.
Proof. exists EmptyString, EmptyString. simpl. now rewrite append_nil_r. Qed.

Lemma Substring_app_r (t a b : string) : Substring t b -> Substring t (a ++ b).
Proof.
  intros (pre & post & ->). exists (a ++ pre), post. now rewrite append_assoc.
Qed.

Lemma Substring_app_l (t a b : string) : Substring t a -> Substring t (a ++ b).
Proof.
  intros (pre & post & ->). exists pre, (post ++ b).
  now rewrite !append_assoc.
Qed.

Lemma Substring_trans (a b c : string) :
  Substring a b -> Substring b c -> Substring a c.
Proof.
  intros (p1 & q1 & ->) (p2 & q2 & ->).
  exists (p2 ++ p1), (q1 ++ q2). now rewrite !append_assoc.
Qed.

Lemma concat_all_app (l1 l2 : list string) :
  concat_all (l1 ++ l2) = concat_all l1 ++ concat_all l2.
Proof.
  unfold concat_all. induction l1 as [|a l1 IH]; [reflexivity|].
  destruct l1 as [|b l1].
  - simpl. destruct l2; simpl; [now rewrite append_nil_r | reflexivity].
  - change (String.concat EmptyString ((a :: b :: l1) ++ l2))
      with (a ++ EmptyString ++ String.concat EmptyString ((b :: l1) ++ l2)).
    rewrite IH. simpl. now rewrite append_assoc.
Qed.

Lemma concat_all_cons (a : string) (l : list string) :
  concat_all (a :: l) = a ++ concat_all l.
Proof. apply (concat_all_app [a] l). Qed.

Lemma Substring_concat_all (s : string) (l : list string) :
  In s l -> Substring s (concat_all l).
Proof.
  induction l as [|a l IH]; [contradiction|].
  intros [-> | Hin]; rewrite concat_all_cons.
  - apply Substring_app_l, Substring_refl.
  - now apply Substring_app_r, IH.
Qed.

(** The text of a shape occurs in what the shape prints to. *)
Lemma body_in_render (e : elem) (b : string) :
  body e = Some b -> Substring b (render e).
Proof.
  intros Hb. unfold render. rewrite Hb.
  do 4 apply Substring_app_r. apply Substring_app_l, Substring_refl.
Qed.

Lemma body_in_render_all (e : elem) (b : string) (l : list elem) :
  In e l -> body e = Some b -> Substring b (render_all l).
Proof.
  intros Hin Hb. apply Substring_trans with (render e).
  - now apply body_in_render.
  - apply Substring_concat_all. now apply in_map.
Qed.

Lemma mapM_total {A B : Type} (f : A -> result B) (l : list A) :
  Forall (fun a => exists b, f a = Ok b) l ->
  exists bs, mapM f l = Ok bs /\ Forall2 (fun a b => f a = Ok b) l bs.
Proof.
  induction 1 as [|a l (b & Hb) _ (bs & Hbs & Hall)].
  - exists []. split; constructor.
  - exists (b :: bs). split.
    + simpl. rewrite Hb. simpl. rewrite Hbs. reflexivity.
    + now constructor.
Qed.

Lemma foldM_total {A S : Type} (f : S -> A -> result S) (l : list A) :
  Forall (fun a => forall s, exists s', f s a = Ok s') l ->
  forall s, exists s', foldM f l s = Ok s'.
Proof.
  induction 1 as [|a l Ha _ IH]; intros s.
  - now exists s.
  - destruct (Ha s) as (s1 & H1). simpl. rewrite H1. simpl. apply IH.
Qed.

Lemma as_object_total (it : item) :
  not_null it -> exists o, as_object it = Ok o.
Proof.
  destruct it as [[| | | |]|fs]; intros Hn; simpl; eauto.
  now contradiction Hn.
Qed.

Lemma map_snd_indexed {A : Type} (l : list A) : map snd (indexed l) = l.
Proof.
  unfold indexed. generalize 0%nat.
  induction l as [|a l IH]; intros s; simpl; [reflexivity | now rewrite IH].
Qed.

Lemma length_indexed {A : Type} (l : list A) :
  List.length (indexed l) = List.length l.
Proof.
  unfold indexed. rewrite length_combine, length_seq. apply Nat.min_id.
Qed.

Lemma count_if_app (p : elem -> bool) (l1 l2 : list elem) :
  count_if p (l1 ++ l2) = (count_if p l1 + count_if p l2)%nat.
Proof. unfold count_if. now rewrite filter_app, length_app. Qed.

Lemma count_if_map_all {A : Type} (p : elem -> bool) (f : A -> elem) (l : list A) :
  (forall a, p (f a) = true) -> count_if p (map f l) = List.length l.
Proof.
  intros Hp. unfold count_if. induction l as [|a l IH]; simpl; [reflexivity|].
  rewrite Hp. simpl. now rewrite IH.
Qed.

Lemma count_if_map_none {A : Type} (p : elem -> bool) (f : A -> elem) (l : list A) :
  (forall a, p (f a) = false) -> count_if p (map f l) = 0%nat.
Proof.
  intros Hp. unfold count_if. induction l as [|a l IH]; simpl; [reflexivity|].
  now rewrite Hp.
Qed.

Lemma count_if_flat_map {A : Type} (p : elem -> bool) (f : A -> list elem)
      (k : nat) (l : list A) :
  (forall a, count_if p (f a) = k) ->
  count_if p (flat_map f l) = (k * List.length l)%nat.
Proof.
  intros Hk. induction l as [|a l IH]; simpl.
  - unfold count_if. simpl. lia.
  - rewrite count_if_app, Hk, IH. lia.
Qed.

Lemma count_if_cons (p : elem -> bool) (e : elem) (l : list elem) :
  count_if p (e :: l) = ((if p e then 1 else 0) + count_if p l)%nat.
Proof. unfold count_if. simpl. now destruct (p e). Qed.

Lemma count_if_none (p : elem -> bool) (l : list elem) :
  Forall (fun e => p e = false) l -> count_if p l = 0%nat.
Proof.
  unfold count_if. induction 1 as [|e l He _ IH]; simpl; [reflexivity|].
  now rewrite He.
Qed.

(* ================================================================= *)
Lemma mapM_length {A B : Type} (f : A -> result B) (l : list A) (bs : list B) :
  mapM f l = Ok bs -> List.length bs = List.length l.
Proof.
  revert bs. induction l as [|a l IH]; intros bs; simpl.
  - now intros [= <-].
  - destruct (f a) as [b|]; simpl; [|discriminate].
    destruct (mapM f l) as [bs'|]; simpl; [|discriminate].
    intros [= <-]. simpl. now rewrite (IH bs').
Qed.

Lemma Ok_inj {A : Type} (a b : A) : Ok a = Ok b -> a = b.
Proof. now intros [= ->]. Qed.

Lemma mapM_nth {A B : Type} (f : A -> result B) (l : list A) (bs : list B) :
  mapM f l = Ok bs ->
  forall i a, nth_error l i = Some a ->
              exists b, nth_error bs i = Some b /\ f a = Ok b.
Proof.
  revert bs. induction l as [|x l IH]; intros bs Hm i a Hi.
  - destruct i; discriminate.
  - cbn [mapM] in Hm. destruct (f x) as [y|] eqn:E; [|discriminate].
    cbv beta iota delta [bind] in Hm.
    destruct (mapM f l) as [ys|]; [|discriminate].
    apply Ok_inj in Hm. subst bs. destruct i as [|i].
    + injection Hi as <-. exists y. split; [reflexivity | exact E].
    + apply (IH ys eq_refl i a Hi).
Qed.

Lemma mapM_map {A B : Type} (f : A -> result B) (g : A -> B) (l : list A) (bs : list B) :
  (forall a b, f a = Ok b -> b = g a) ->
  mapM f l = Ok bs -> bs = map g l.
Proof.
  intros Hfg. revert bs. induction l as [|x l IH]; intros bs Hm.
  - now apply Ok_inj in Hm.
  - cbn [mapM] in Hm. destruct (f x) as [y|] eqn:E; [|discriminate].
    cbv beta iota delta [bind] in Hm.
    destruct (mapM f l) as [ys|]; [|discriminate].
    apply Ok_inj in Hm. subst bs. cbn [map].
    now rewrite (Hfg x y E), (IH ys eq_refl).
Qed.

(** ** Rounding to binary64 *)

Lemma Qpow2_pos (e : Z) : 0 < Qpow2 e.
Proof. apply Qpower_0_lt. reflexivity. Qed.

Lemma Qpow2_add (a b : Z) : Qpow2 (a + b) == Qpow2 a * Qpow2 b.
Proof. apply Qpower_plus. discriminate. Qed.

Lemma Qpow2_succ (e : Z) : Qpow2 (e + 1) == 2 * Qpow2 e.
Proof. rewrite Qpow2_add. change (Qpow2 1) with 2. ring. Qed.

Lemma Qpow2_pred (e : Z) : 2 * Qpow2 (e - 1) == Qpow2 e.
Proof. rewrite <- Qpow2_succ. now replace (e - 1 + 1)%Z with e by lia. Qed.

Lemma Qpow2_le (a b : Z) : (a <= b)%Z -> Qpow2 a <= Qpow2 b.
Proof. intros Hab. apply Qpower_le_compat_l; [exact Hab | discriminate]. Qed.

Lemma Qpow2_lt (a b : Z) : (a < b)%Z -> Qpow2 a < Qpow2 b.
Proof. intros Hab. apply Qpower_lt_compat_l; [exact Hab | reflexivity]. Qed.

Lemma Qpow2_lt_inv (a b : Z) : Qpow2 a < Qpow2 b -> (a < b)%Z.
Proof.
  intros Hlt. destruct (Z_lt_le_dec a b) as [?|Hle]; [assumption|].
  apply Qpow2_le in Hle. lra.
Qed.

Lemma Qpow2_Z (n : Z) : (0 <= n)%Z -> Qpow2 n == inject_Z (2 ^ n).
Proof. intros Hn. unfold Qpow2. now rewrite Zpower_Qpower. Qed.

Lemma binade_spec (a : Q) :
  0 < a -> Qpow2 (binade a) <= a /\ a < Qpow2 (binade a + 1).
Proof.
  intros Ha. destruct a as [n d].
  assert (Hn : (0 < n)%Z) by (unfold Qlt in Ha; simpl in Ha; lia).
  unfold binade. cbn [Qnum Qden].
  set (ln := Z.log2 n). set (ld := Z.log2 (Z.pos d)).
  destruct (Z.log2_spec n Hn) as (Hn1 & Hn2). fold ln in Hn1, Hn2.
  destruct (Z.log2_spec (Z.pos d) eq_refl) as (Hd1 & Hd2). fold ld in Hd1, Hd2.
  assert (Hln : (0 <= ln)%Z) by apply Z.log2_nonneg.
  assert (Hld : (0 <= ld)%Z) by apply Z.log2_nonneg.
  assert (HA : Qpow2 ln <= inject_Z n /\ inject_Z n < 2 * Qpow2 ln).
  { rewrite <- Qpow2_succ, !Qpow2_Z by lia. rewrite <- Zle_Qle, <- Zlt_Qlt.
    split; [assumption | now rewrite Z.add_1_r]. }
  assert (HB : Qpow2 ld <= inject_Z (Z.pos d) /\ inject_Z (Z.pos d) < 2 * Qpow2 ld).
  { rewrite <- Qpow2_succ, !Qpow2_Z by lia. rewrite <- Zle_Qle, <- Zlt_Qlt.
    split; [assumption | now rewrite Z.add_1_r]. }
  assert (HX : Qpow2 (ln - ld) * Qpow2 ld == Qpow2 ln).
  { rewrite <- Qpow2_add. now replace (ln - ld + ld)%Z with ln by lia. }
  assert (Ha' : (n # d) * inject_Z (Z.pos d) == inject_Z n).
  { unfold Qeq, Qmult, inject_Z. simpl. lia. }
  pose proof (Qpow2_pos ln) as PA. pose proof (Qpow2_pos ld) as PB.
  pose proof (Qpow2_pos (ln - ld)) as PX.
  destruct HA as (HA1 & HA2). destruct HB as (HB1 & HB2).
  set (a := n # d) in *. set (X := Qpow2 (ln - ld)) in *.
  set (A := Qpow2 ln) in *. set (B := Qpow2 ld) in *.
  set (n' := inject_Z n) in *. set (d' := inject_Z (Z.pos d)) in *.
  assert (Hup : a < 2 * X) by nra.
  assert (Hlo : X < 2 * a) by nra.
  destruct (Qle_bool X a) eqn:E.
  - apply Qle_bool_iff in E. split; [exact E|]. rewrite Qpow2_succ. exact Hup.
  - assert (Hlt : a < X).
    { apply Qnot_le_lt. intros Hle. apply Qle_bool_iff in Hle. congruence. }
    replace (ln - ld - 1 + 1)%Z with (ln - ld)%Z by lia. split; [|exact Hlt].
    pose proof (Qpow2_pred (ln - ld)) as Hp. fold X in Hp. lra.
Qed.

Lemma binade_le (a b : Q) : 0 < a -> a <= b -> (binade a <= binade b)%Z.
Proof.
  intros Ha Hab. assert (Hb : 0 < b) by lra.
  destruct (binade_spec a Ha) as (Ha1 & _). destruct (binade_spec b Hb) as (_ & Hb2).
  assert (Hlt : Qpow2 (binade a) < Qpow2 (binade b + 1)) by lra.
  apply Qpow2_lt_inv in Hlt. lia.
Qed.

Ltac Qcompare_prop H :=
  match type of H with
  | Qcompare _ _ = Eq => apply (proj2 (Qeq_alt _ _)) in H
  | Qcompare _ _ = Lt => apply (proj2 (Qlt_alt _ _)) in H
  | Qcompare _ _ = Gt => apply (proj2 (Qgt_alt _ _)) in H
  end.

Lemma round_half_even_floor (y : Q) :
  (Qfloor y <= round_half_even y <= Qfloor y + 1)%Z.
Proof.
  unfold round_half_even.
  destruct (Qcompare _ _); [destruct (Z.even _)| |]; lia.
Qed.

Lemma round_half_even_near (y : Q) :
  Qabs (inject_Z (round_half_even y) - y) <= 1 # 2.
Proof.
  pose proof (Qfloor_le y) as Hf. pose proof (Qlt_floor y) as Hf'.
  rewrite inject_Z_plus in Hf'. change (inject_Z 1) with 1 in Hf'.
  unfold round_half_even.
  destruct (Qcompare (y - inject_Z (Qfloor y)) (1 # 2)) eqn:E.
  - Qcompare_prop E. destruct (Z.even (Qfloor y)).
    + apply Qabs_case; intros; lra.
    + rewrite inject_Z_plus. change (inject_Z 1) with 1. apply Qabs_case; intros; lra.
  - Qcompare_prop E. apply Qabs_case; intros; lra.
  - Qcompare_prop E. rewrite inject_Z_plus. change (inject_Z 1) with 1.
    apply Qabs_case; intros; lra.
Qed.

Lemma round_half_even_ge (y : Q) (n : Z) :
  inject_Z n <= y -> (n <= round_half_even y)%Z.
Proof.
  intros Hn. apply Qfloor_resp_le in Hn. rewrite Qfloor_Z in Hn.
  pose proof (round_half_even_floor y). lia.
Qed.

Lemma round_half_even_le (y : Q) (n : Z) :
  y <= inject_Z n -> (round_half_even y <= n)%Z.
Proof.
  intros Hn. pose proof (round_half_even_floor y) as Hr.
  pose proof (Qfloor_le y) as Hf.
  assert (Hfn : (Qfloor y <= n)%Z) by (rewrite Zle_Qle; lra).
  destruct (Z.eq_dec (Qfloor y) n) as [E|Hne]; [|lia].
  unfold round_half_even.
  replace (Qcompare (y - inject_Z (Qfloor y)) (1 # 2)) with Lt; [cbv iota; lia|].
  symmetry. apply (proj1 (Qlt_alt _ _)). rewrite E in *. lra.
Qed.

Lemma round_half_even_Z (y : Q) (n : Z) : y == inject_Z n -> round_half_even y = n.
Proof.
  intros Hy. apply Z.le_antisymm.
  - apply round_half_even_le. lra.
  - apply round_half_even_ge. lra.
Qed.

Lemma round_half_even_mono (x y : Q) :
  x <= y -> (round_half_even x <= round_half_even y)%Z.
Proof.
  intros Hxy. pose proof (Qfloor_resp_le x y Hxy) as Hf.
  pose proof (round_half_even_floor x) as Hx. pose proof (round_half_even_floor y) as Hy.
  destruct (Z.eq_dec (Qfloor x) (Qfloor y)) as [E|Hne]; [|lia].
  unfold round_half_even in *. rewrite E in *.
  destruct (Qcompare (x - inject_Z (Qfloor y)) (1 # 2)) eqn:Ex;
    destruct (Qcompare (y - inject_Z (Qfloor y)) (1 # 2)) eqn:Ey;
    Qcompare_prop Ex; Qcompare_prop Ey;
    destruct (Z.even (Qfloor y)); cbv iota; try lia; exfalso; lra.
Qed.

Lemma b64_pos_eq (a : Q) :
  b64_pos a
  = inject_Z (round_half_even (a / Qpow2 (exponent a - 52))) * Qpow2 (exponent a - 52).
Proof. reflexivity. Qed.

Lemma b64_pos_bounds (a : Q) :
  0 < a ->
  0 <= b64_pos a /\
  b64_pos a <= Qpow2 (exponent a + 1) /\
  (Qpow2 (exponent a) <= a -> Qpow2 (exponent a) <= b64_pos a) /\
  Qabs (b64_pos a - a) <= Qpow2 (exponent a - 53).
Proof.
  intros Ha. rewrite b64_pos_eq. set (e := exponent a).
  pose proof (Qpow2_pos (e - 52)) as Hu. set (u := Qpow2 (e - 52)) in *.
  destruct (binade_spec a Ha) as (_ & Hup).
  assert (Hup' : a < Qpow2 (e + 1)).
  { apply Qlt_le_trans with (1 := Hup). apply Qpow2_le. unfold e, exponent. lia. }
  assert (Hy : a / u * u == a) by (field; lra).
  set (y := a / u) in *.
  assert (Hy0 : 0 <= y) by (apply Qle_shift_div_l; lra).
  assert (H53 : Qpow2 (e + 1) == inject_Z (2 ^ 53) * u).
  { rewrite <- Qpow2_Z by lia. unfold u. rewrite <- Qpow2_add.
    now replace (53 + (e - 52))%Z with (e + 1)%Z by lia. }
  assert (H52 : Qpow2 e == inject_Z (2 ^ 52) * u).
  { rewrite <- Qpow2_Z by lia. unfold u. rewrite <- Qpow2_add.
    now replace (52 + (e - 52))%Z with e by lia. }
  assert (Hh : Qpow2 (e - 53) == (1 # 2) * u).
  { pose proof (Qpow2_pred (e - 52)) as Hp.
    replace (e - 52 - 1)%Z with (e - 53)%Z in Hp by lia. fold u in Hp. lra. }
  set (m := round_half_even y).
  split; [|split; [|split]].
  - assert (0 <= m)%Z by (apply round_half_even_ge; exact Hy0).
    apply Qmult_le_0_compat; [|lra]. now rewrite <- (Zle_Qle 0).
  - rewrite H53. apply Qmult_le_compat_r; [|lra]. rewrite <- Zle_Qle.
    apply round_half_even_le. apply Qle_shift_div_r; [lra|]. rewrite <- H53. lra.
  - intros Hlo. rewrite H52. apply Qmult_le_compat_r; [|lra]. rewrite <- Zle_Qle.
    apply round_half_even_ge. apply Qle_shift_div_l; [lra|]. rewrite <- H52. exact Hlo.
  - rewrite Hh. pose proof (round_half_even_near y) as Hn. fold m in Hn.
    assert (E : inject_Z m * u - a == (inject_Z m - y) * u) by (rewrite <- Hy at 1; ring).
    rewrite E, Qabs_Qmult, (Qabs_pos u) by lra.
    apply Qmult_le_compat_r; lra.
Qed.

Lemma Qle_bool_true (x y : Q) : x <= y -> Qle_bool x y = true.
Proof. apply Qle_bool_iff. Qed.

Lemma Qle_bool_false (x y : Q) : y < x -> Qle_bool x y = false.
Proof.
  intros Hlt. destruct (Qle_bool x y) eqn:E; [|reflexivity].
  apply Qle_bool_iff in E. exfalso. exact (Qlt_not_le _ _ Hlt E).
Qed.

Lemma Qle_bool_false_lt (x y : Q) : Qle_bool x y = false -> y < x.
Proof.
  intros E. apply Qnot_le_lt. intros Hle. apply Qle_bool_iff in Hle. congruence.
Qed.

Lemma b64_proper (x y : Q) : x == y -> b64 x = b64 y.
Proof. intros E. unfold b64. now rewrite (Qred_complete x y E). Qed.

Lemma Qnum_sign (x : Q) :
  match Qnum x with
  | Z0 => x == 0
  | Zpos _ => 0 < x
  | Zneg _ => x < 0
  end.
Proof. destruct x as [[|p|p] d]; unfold Qeq, Qlt; simpl; lia. Qed.

(** The three cases of [b64]. *)
Lemma b64_cases (q : Q) :
  (q == 0 /\ b64 q = Fin 0) \/
  (0 < q /\ exists r, r == b64_pos (Qred q) /\
                      b64 q = (if Qle_bool (Qpow2 1024) r then PInf else Fin (Qred r))) \/
  (q < 0 /\ exists r, r == b64_pos (- Qred q) /\
                      b64 q = (if Qle_bool (Qpow2 1024) r then NInf else Fin (Qred (- r)))).
Proof.
  unfold b64. pose proof (Qnum_sign (Qred q)) as Hs. pose proof (Qred_correct q) as Hq.
  destruct (Qnum (Qred q)).
  - left. split; [lra | reflexivity].
  - right. left. split; [lra|]. eexists. split; reflexivity.
  - right. right. split; [lra|]. eexists. split; reflexivity.
Qed.

Lemma b64_nonneg (q : Q) :
  0 <= q -> b64 q = PInf \/ exists y, b64 q = Fin y /\ 0 <= y.
Proof.
  intros Hq. destruct (b64_cases q) as [(_ & ->)|[(Hpos & r & Hr & ->)|(Hneg & _)]].
  - right. exists 0. split; [reflexivity | lra].
  - destruct (Qle_bool (Qpow2 1024) r); [now left|]. right.
    exists (Qred r). split; [reflexivity|]. rewrite Qred_correct, Hr.
    apply b64_pos_bounds. now rewrite Qred_correct.
  - lra.
Qed.

Lemma exponent_cases (a : Q) :
  0 < a ->
  (exponent a = binade a /\ Qpow2 (exponent a) <= a) \/
  (exponent a = (-1022)%Z /\ a < Qpow2 (-1022)).
Proof.
  intros Ha. destruct (binade_spec a Ha) as (Hlo & Hup). unfold exponent.
  destruct (Z_le_gt_dec (-1022) (binade a)) as [Hle|Hgt].
  - left. rewrite Z.max_l by lia. now split.
  - right. rewrite Z.max_r by lia. split; [reflexivity|].
    apply Qlt_le_trans with (1 := Hup). apply Qpow2_le. lia.
Qed.

Lemma exponent_le (a b : Q) : 0 < a -> a <= b -> (exponent a <= exponent b)%Z.
Proof. intros Ha Hab. pose proof (binade_le a b Ha Hab). unfold exponent. lia. Qed.

Lemma b64_pos_mono (a b : Q) : 0 < a -> a <= b -> b64_pos a <= b64_pos b.
Proof.
  intros Ha Hab. assert (Hb : 0 < b) by lra.
  pose proof (exponent_le a b Ha Hab) as He.
  destruct (Z.eq_dec (exponent a) (exponent b)) as [E|Hne].
  - rewrite !b64_pos_eq, E. pose proof (Qpow2_pos (exponent b - 52)) as Hu.
    apply Qmult_le_compat_r; [|lra]. rewrite <- Zle_Qle.
    apply round_half_even_mono. apply Qle_shift_div_l; [lra|].
    assert (Hy : a / Qpow2 (exponent b - 52) * Qpow2 (exponent b - 52) == a) by (field; lra).
    lra.
  - destruct (b64_pos_bounds a Ha) as (_ & Hup & _).
    destruct (b64_pos_bounds b Hb) as (_ & _ & Hlo & _).
    destruct (exponent_cases b Hb) as [(_ & Hn)|(E & _)].
    + apply Qle_trans with (1 := Hup). apply Qle_trans with (2 := Hlo Hn).
      apply Qpow2_le. lia.
    + unfold exponent in *. lia.
Qed.

Theorem b64_monotone (x y : Q) : x <= y -> num_le (b64 x) (b64 y) = true.
Proof.
  intros Hxy.
  destruct (b64_cases x) as [(Hx & ->)|[(Hx & rx & Hrx & ->)|(Hx & rx & Hrx & ->)]];
    destruct (b64_cases y) as [(Hy & ->)|[(Hy & ry & Hry & ->)|(Hy & ry & Hry & ->)]];
    try (exfalso; lra).
  - reflexivity.
  - assert (0 <= ry).
    { rewrite Hry. apply b64_pos_bounds. now rewrite Qred_correct. }
    destruct (Qle_bool (Qpow2 1024) ry); [reflexivity|]. cbn [num_le].
    apply Qle_bool_true. now rewrite Qred_correct.
  - assert (rx <= ry).
    { rewrite Hrx, Hry. apply b64_pos_mono; rewrite !Qred_correct; assumption. }
    destruct (Qle_bool (Qpow2 1024) ry) eqn:Ey; [now destruct (Qle_bool _ rx)|].
    apply Qle_bool_false_lt in Ey.
    rewrite (Qle_bool_false (Qpow2 1024) rx) by lra. cbn [num_le].
    apply Qle_bool_true. now rewrite !Qred_correct.
  - assert (0 <= rx).
    { rewrite Hrx. apply b64_pos_bounds.
      assert (E := Qred_correct x). lra. }
    destruct (Qle_bool (Qpow2 1024) rx); [reflexivity|]. cbn [num_le].
    apply Qle_bool_true. rewrite Qred_correct. lra.
  - assert (0 <= rx).
    { rewrite Hrx. apply b64_pos_bounds. assert (E := Qred_correct x). lra. }
    assert (0 <= ry).
    { rewrite Hry. apply b64_pos_bounds. now rewrite Qred_correct. }
    destruct (Qle_bool (Qpow2 1024) rx); [now destruct (Qle_bool _ ry)|].
    destruct (Qle_bool (Qpow2 1024) ry); [reflexivity|]. cbn [num_le].
    apply Qle_bool_true. rewrite !Qred_correct. lra.
  - assert (ry <= rx).
    { rewrite Hrx, Hry. assert (Ex := Qred_correct x). assert (Ey := Qred_correct y).
      apply b64_pos_mono; lra. }
    destruct (Qle_bool (Qpow2 1024) rx) eqn:Ex; [now destruct (Qle_bool _ ry)|].
    apply Qle_bool_false_lt in Ex.
    rewrite (Qle_bool_false (Qpow2 1024) ry) by lra. cbn [num_le].
    apply Qle_bool_true. rewrite !Qred_correct. lra.
Qed.

Lemma b64_pos_Z (z : Z) :
  (0 < z < 2 ^ 53)%Z -> b64_pos (inject_Z z) == inject_Z z.
Proof.
  intros Hz. set (a := inject_Z z).
  assert (Ha : 0 < a) by (unfold a; rewrite <- (Zlt_Qlt 0); lia).
  destruct (binade_spec a Ha) as (Hlo & Hup).
  assert (Hb0 : (0 <= binade a)%Z).
  { assert (Hlt : Qpow2 0 < Qpow2 (binade a + 1)).
    { apply Qle_lt_trans with (2 := Hup). change (Qpow2 0) with (inject_Z 1).
      unfold a. rewrite <- Zle_Qle. lia. }
    apply Qpow2_lt_inv in Hlt. lia. }
  assert (Hb52 : (binade a <= 52)%Z).
  { assert (Hlt : Qpow2 (binade a) < Qpow2 53).
    { apply Qle_lt_trans with (1 := Hlo). rewrite Qpow2_Z by lia.
      unfold a. rewrite <- Zlt_Qlt. lia. }
    apply Qpow2_lt_inv in Hlt. lia. }
  rewrite b64_pos_eq. unfold exponent. rewrite Z.max_l by lia.
  set (e := binade a) in *.
  pose proof (Qpow2_pos (e - 52)) as Hu.
  assert (Hinv : Qpow2 (e - 52) * inject_Z (2 ^ (52 - e)) == 1).
  { rewrite <- Qpow2_Z by lia. rewrite <- Qpow2_add.
    now replace (e - 52 + (52 - e))%Z with 0%Z by lia. }
  assert (Hy : a / Qpow2 (e - 52) == inject_Z (z * 2 ^ (52 - e))).
  { rewrite inject_Z_mult. fold a.
    apply Qmult_inj_r with (Qpow2 (e - 52)); [lra|].
    transitivity a; [field; lra|].
    transitivity (a * (Qpow2 (e - 52) * inject_Z (2 ^ (52 - e)))); [rewrite Hinv; ring | ring]. }
  rewrite (round_half_even_Z _ _ Hy), inject_Z_mult. fold a.
  transitivity (a * (Qpow2 (e - 52) * inject_Z (2 ^ (52 - e)))); [ring | rewrite Hinv; ring].
Qed.

Lemma Qred_inject_Z (z : Z) : Qred (inject_Z z) = inject_Z z.
Proof. apply Qcanon.Qred_identity. simpl. apply Z.gcd_1_r. Qed.

(** An integer below 2^53 in magnitude is a double. *)
Theorem b64_Z (q : Q) (z : Z) :
  q == inject_Z z -> (Z.abs z < 2 ^ 53)%Z -> b64 q = Fin (inject_Z z).
Proof.
  intros Hq Hz. rewrite (b64_proper q (inject_Z z) Hq). unfold b64.
  rewrite Qred_inject_Z. destruct z as [|p|p]; cbn [Qnum inject_Z]; [reflexivity| |].
  - pose proof (b64_pos_Z (Z.pos p) ltac:(lia)) as Hr.
    change (Z.pos p # 1) with (inject_Z (Z.pos p)).
    rewrite (Qle_bool_false (Qpow2 1024)).
    + rewrite (Qred_complete _ _ Hr). now rewrite Qred_inject_Z.
    + rewrite Hr. apply Qlt_trans with (Qpow2 53).
      * rewrite Qpow2_Z by lia. rewrite <- Zlt_Qlt. lia.
      * apply Qpow2_lt. lia.
  - pose proof (b64_pos_Z (Z.pos p) ltac:(lia)) as Hr.
    change (- (Z.neg p # 1)) with (inject_Z (Z.pos p)).
    change (- inject_Z (Z.neg p)) with (inject_Z (Z.pos p)).
    rewrite (Qle_bool_false (Qpow2 1024)).
    + assert (E : - b64_pos (inject_Z (Z.pos p)) == inject_Z (Z.neg p)).
      { rewrite Hr. reflexivity. }
      rewrite (Qred_complete _ _ E). now rewrite Qred_inject_Z.
    + rewrite Hr. apply Qlt_trans with (Qpow2 53).
      * rewrite Qpow2_Z by lia. rewrite <- Zlt_Qlt. lia.
      * apply Qpow2_lt. lia.
Qed.

(** In the normal range rounding moves a value by at most 2^-53 of
    itself. *)
Theorem b64_close (x : Q) :
  Qpow2 (-1022) <= x -> x < Qpow2 1023 ->
  exists y, b64 x = Fin y /\ Qabs (y - x) <= x * Qpow2 (-53).
Proof.
  intros Hlo Hup. pose proof (Qpow2_pos (-1022)) as Hp.
  assert (Hx : 0 < x) by lra.
  destruct (b64_cases x) as [(E & _)|[(_ & r & Hr & ->)|(Hneg & _)]]; [lra| |lra].
  pose proof (Qred_correct x) as Ex.
  assert (Hx' : 0 < Qred x) by lra.
  destruct (b64_pos_bounds (Qred x) Hx') as (_ & Hb1 & _ & Hb3).
  destruct (exponent_cases (Qred x) Hx') as [(Ee & Hn)|(_ & Hsub)]; [|lra].
  destruct (binade_spec (Qred x) Hx') as (Hbl & _).
  assert (He : (exponent (Qred x) <= 1022)%Z).
  { assert (Hlt : Qpow2 (exponent (Qred x)) < Qpow2 1023) by lra.
    apply Qpow2_lt_inv in Hlt. lia. }
  rewrite (Qle_bool_false (Qpow2 1024)).
  - exists (Qred r). split; [reflexivity|]. rewrite Qred_correct, Hr.
    setoid_replace (b64_pos (Qred x) - x) with (b64_pos (Qred x) - Qred x) by lra.
    apply Qle_trans with (1 := Hb3).
    assert (Hs : Qpow2 (exponent (Qred x) - 53) == Qpow2 (exponent (Qred x)) * Qpow2 (-53)).
    { rewrite <- Qpow2_add. now replace (exponent (Qred x) + -53)%Z
        with (exponent (Qred x) - 53)%Z by lia. }
    rewrite Hs. apply Qmult_le_compat_r; [lra | apply Qlt_le_weak, Qpow2_pos].
  - rewrite Hr. apply Qle_lt_trans with (1 := Hb1). apply Qpow2_lt. lia.
Qed.

Lemma Qeq_bool_false (x : Q) : 0 < x -> Qeq_bool x 0 = false.
Proof.
  intros Hlt. destruct (Qeq_bool x 0) eqn:E; [|reflexivity].
  apply Qeq_bool_iff in E. rewrite E in Hlt. discriminate.
Qed.

(* ================================================================= *)
(** ** The line engine keeps every item *)

Lemma normalize_point_total (H : JsHost) (it : item) :
  not_null it -> exists p, normalize_point H it = Ok p.
Proof.
  intros Hn. unfold normalize_point.
  destruct (as_object_total it Hn) as (o & ->). simpl.
  destruct o as [fs|]; [|eauto].
  destruct (defined (field "time" fs) && defined (field "value" fs)); [eauto|].
  destruct (defined (field "category" fs) && defined (field "value" fs)); eauto.
Qed.

Lemma normalize_point_unknown (H : JsHost) (it : item) (p : Point) :
  normalize_point H it = Ok p -> carries_point it = false ->
  p = unknown_point H it.
Proof.
  unfold normalize_point, carries_point.
  destruct it as [[| | | |]|fs]; simpl; try congruence.
  destruct (defined (field "time" fs)), (defined (field "category" fs)),
    (defined (field "value" fs)); simpl; congruence.
Qed.

Lemma Forall2_nth_error {A B : Type} (R : A -> B -> Prop) (l : list A) (l' : list B) :
  Forall2 R l l' ->
  forall i a, nth_error l i = Some a -> exists b, nth_error l' i = Some b /\ R a b.
Proof.
  induction 1 as [|x y l l' Hxy _ IH]; intros [|i] a; simpl; try discriminate.
  - intros [= <-]. eauto.
  - apply IH.
Qed.

Lemma axis_titles_count (H : JsHost) (p : elem -> bool) (a : ChartArea) (o : Options) :
  (forall e, is_tag "text" e = true -> has_attr "font-size" "10" e = false -> p e = false) ->
  count_if p (axis_titles H a o) = 0%nat.
Proof.
  intros Hp. unfold axis_titles.
  destruct (opt_str_truthy (axisXTitle o)), (opt_str_truthy (axisYTitle o));
    unfold count_if; simpl; rewrite ?Hp; reflexivity.
Qed.

Lemma path_segment_pair (H : JsHost) a n m r (ip : nat * Point) :
  coordinate_pair H (path_segment H a n m r ip).
Proof.
  unfold path_segment.
  exists (match fst ip with O => "M " | _ => " L " end),
         (point_x a n (fst ip)), (point_y a m r (snd ip)).
  split; [destruct (fst ip); auto | reflexivity].
Qed.




(** The sampling of the labels under the x axis, in integers. *)
Lemma Qceiling_eighth (z : Z) :
  Qceiling (inject_Z z / inject_Z 8) = ((z + 7) / 8)%Z.
Proof.
  unfold Qceiling, Qfloor, Qdiv, Qmult, Qinv, Qopp, inject_Z. simpl.
  rewrite Z.mul_1_r. Z.div_mod_to_equations. lia.
Qed.

Lemma shows_label_spec (n i : nat) :
  (0 < n)%nat ->
  shows_label n i = (i mod ((n + 7) / 8) =? 0)%nat.
Proof.
  intros Hn. unfold shows_label, nn, nz.
  cbn [num_div]. change (Qeq_bool (inject_Z 8) 0) with false. cbv iota.
  unfold Math_ceil, nz. rewrite Qceiling_eighth.
  assert (Hm : ((Z.of_nat n + 7) / 8 = Z.of_nat ((n + 7) / 8))%Z).
  { rewrite Nat2Z.inj_div, Nat2Z.inj_add. reflexivity. }
  rewrite Hm. set (m := ((n + 7) / 8)%nat).
  assert (Hmpos : (0 < m)%nat).
  { subst m. apply Nat.div_str_pos. lia. }
  unfold num_mod.
  assert (Hz : Qeq_bool (inject_Z (Z.of_nat m)) 0 = false).
  { apply Qeq_bool_false. change 0 with (inject_Z 0). rewrite <- Zlt_Qlt. lia. }
  rewrite Hz.
  assert (Hquot : Z.quot (Qnum (inject_Z (Z.of_nat i) / inject_Z (Z.of_nat m)))
                         (Zpos (Qden (inject_Z (Z.of_nat i) / inject_Z (Z.of_nat m))))
                  = Z.of_nat (i / m)).
  { destruct (Z.of_nat m) as [|pm|pm] eqn:Epm; [lia | | lia].
    unfold Qdiv, Qmult, Qinv, inject_Z. simpl.
    rewrite Z.mul_1_r, Z.quot_div_nonneg by lia.
    rewrite <- Epm, <- Nat2Z.inj_div. reflexivity. }
  rewrite Hquot. unfold num_seq, Qminus.
  destruct (i mod m =? 0)%nat eqn:E.
  - apply Nat.eqb_eq in E. apply Qeq_bool_iff.
    rewrite <- inject_Z_mult, <- inject_Z_opp, <- inject_Z_plus.
    change 0 with (inject_Z 0). rewrite inject_Z_injective.
    pose proof (Nat.div_mod_eq i m). nia.
  - apply Nat.eqb_neq in E.
    match goal with
    | |- Qeq_bool ?x ?y = false => destruct (Qeq_bool x y) eqn:E'; [|reflexivity]
    end.
    apply Qeq_bool_iff in E'.
    rewrite <- inject_Z_mult, <- inject_Z_opp, <- inject_Z_plus in E'.
    change 0 with (inject_Z 0) in E'. rewrite inject_Z_injective in E'.
    pose proof (Nat.div_mod_eq i m). nia.
Qed.

(* ================================================================= *)
(** ** The column engine draws the whole category-by-group grid *)

Lemma omap_get_set_str {V : Type} (k k' : string) (v : V) (m : list (string * V)) :
  omap_get String.eqb k (omap_set String.eqb k' v m)
  = if String.eqb k k' then Some v else omap_get String.eqb k m.
Proof.
  induction m as [|[k1 v1] m IH]; simpl; [reflexivity|].
  destruct (String.eqb_spec k' k1) as [->|Hne]; simpl.
  - destruct (String.eqb k k1); reflexivity.
  - rewrite IH. destruct (String.eqb_spec k k1) as [->|Hne']; [|reflexivity].
    apply String.eqb_neq in Hne. rewrite String.eqb_sym in Hne. now rewrite Hne.
Qed.

Lemma omap_get_set_none {K V : Type} (keq : K -> K -> bool) (k k' : K) (v : V)
      (m : list (K * V)) :
  omap_get keq k m = None -> keq k k' = false ->
  omap_get keq k (omap_set keq k' v m) = None.
Proof.
  intros Hget Hk. induction m as [|[k1 v1] m IH]; simpl in *.
  - now rewrite Hk.
  - destruct (keq k k1) eqn:E1; [discriminate|].
    destruct (keq k' k1); simpl; rewrite E1; auto.
Qed.

Lemma In_oset_add_str (k k' : string) (s : list string) :
  In k (oset_add String.eqb k' s) -> In k s \/ k = k'.
Proof.
  unfold oset_add. destruct (existsb (String.eqb k') s); [auto|].
  intros Hin. apply in_app_or in Hin. destruct Hin as [?|[<-|[]]]; auto.
Qed.

Lemma foldM_invariant {A S : Type} (f : S -> A -> result S) (P : S -> Prop)
      (R : A -> Prop) (l : list A) :
  (forall s a s', R a -> P s -> f s a = Ok s' -> P s') ->
  Forall R l ->
  forall s s', P s -> foldM f l s = Ok s' -> P s'.
Proof.
  intros Hstep Hall. induction Hall as [|a l Ha _ IH]; intros s s' Hs; simpl.
  - now intros [= <-].
  - destruct (f s a) as [s1|e] eqn:E; simpl; [|discriminate].
    apply IH. eapply Hstep; eauto.
Qed.

Lemma In_combine_seq {A : Type} (l : list A) (s i : nat) (x : A) :
  In (i, x) (combine (seq s (List.length l)) l) <->
  (s <= i)%nat /\ nth_error l (i - s) = Some x.
Proof.
  revert s. induction l as [|a l IH]; intros s; simpl.
  - split; [contradiction|]. intros [_ Hn]. now destruct (i - s)%nat.
  - rewrite IH. split.
    + intros [[= <- <-]|[Hle Hn]].
      * split; [lia|]. now rewrite Nat.sub_diag.
      * split; [lia|]. replace (i - s)%nat with (S (i - S s)) by lia. exact Hn.
    + intros [Hle Hn]. destruct (i - s)%nat as [|j] eqn:Ej.
      * left. injection Hn as ->. f_equal. lia.
      * right. split; [lia|]. replace (i - S s)%nat with j by lia. exact Hn.
Qed.

Lemma In_indexed {A : Type} (l : list A) (i : nat) (x : A) :
  In (i, x) (indexed l) <-> nth_error l i = Some x.
Proof.
  unfold indexed. rewrite In_combine_seq, Nat.sub_0_r.
  split; [now intros [_ ?] | split; [lia | assumption]].
Qed.

Lemma column_collect_cases (H : JsHost) (st st' : ColumnState) (it : item) :
  column_collect H st it = Ok st' ->
  st' = st \/
  exists fs, it = IObj fs /\
             truthy (field "category" fs) && defined (field "value" fs) = true /\
             st' = column_put H st fs.
Proof.
  unfold column_collect. destruct it as [[| | | |]|fs]; simpl;
    try (intros [= <-]; now left); try discriminate.
  destruct (truthy (field "category" fs) && defined (field "value" fs)) eqn:E.
  - intros [= <-]. right. exists fs. auto.
  - intros [= <-]. now left.
Qed.

Lemma column_collect_total (H : JsHost) (it : item) :
  not_null it -> forall st, exists st', column_collect H st it = Ok st'.
Proof.
  intros Hn st. unfold column_collect.
  destruct (as_object_total it Hn) as (o & ->). simpl.
  destruct o as [fs|]; [|eauto].
  destruct (truthy (field "category" fs) && defined (field "value" fs)); eauto.
Qed.

Lemma categories_mapped_collect (H : JsHost) (items : list item) (st : ColumnState) :
  foldM (column_collect H) items column_init = Ok st -> categories_mapped st.
Proof.
  apply (foldM_invariant (column_collect H) categories_mapped (fun _ => True)).
  - intros s a s' _ Hs Hstep c.
    destruct (column_collect_cases H s s' a Hstep) as [->|(fs & _ & _ & ->)];
      [apply Hs|].
    simpl. rewrite omap_get_set_str. intros Hin.
    destruct (String.eqb_spec c (ToString H (field "category" fs))) as [_|Hne];
      [eauto|].
    apply In_oset_add_str in Hin. destruct Hin as [Hin|Heq]; [now apply Hs|].
    contradiction.
  - apply Forall_forall. auto.
  - intros c [].
Qed.

(** A pair no accepted item carries has no cell. *)
Lemma absent_pair_no_cell (H : JsHost) (items : list item) (c : string) (g : prim)
      (st : ColumnState) :
  absent_pair H items c g ->
  foldM (column_collect H) items column_init = Ok st ->
  forall cd, omap_get String.eqb c (groupedData st) = Some cd ->
             omap_get same_value_zero g cd = None.
Proof.
  intros Habs.
  apply (foldM_invariant
           (column_collect H)
           (fun st => forall cd, omap_get String.eqb c (groupedData st) = Some cd ->
                                 omap_get same_value_zero g cd = None)
           (fun it => In it items)).
  - intros s a s' Hin Hs Hstep cd.
    destruct (column_collect_cases H s s' a Hstep) as [->|(fs & -> & Hacc & ->)];
      [apply Hs|].
    simpl. rewrite omap_get_set_str.
    destruct (String.eqb_spec c (ToString H (field "category" fs))) as [Hc|_];
      [|apply Hs].
    intros [= <-]. apply omap_get_set_none.
    + rewrite <- Hc.
      destruct (omap_get String.eqb c (groupedData s)) as [m|] eqn:E;
        [now apply Hs | reflexivity].
    + apply (Habs fs Hin Hacc). now symmetry.
  - apply Forall_forall. auto.
  - simpl. discriminate.
Qed.

Lemma count_if_flat_map_in {A : Type} (p : elem -> bool) (f : A -> list elem)
      (k : nat) (l : list A) :
  (forall a, In a l -> count_if p (f a) = k) ->
  count_if p (flat_map f l) = (k * List.length l)%nat.
Proof.
  induction l as [|a l IH]; intros Hk; simpl.
  - unfold count_if. simpl. lia.
  - rewrite count_if_app, Hk by (simpl; auto).
    rewrite IH by (intros b Hb; apply Hk; simpl; auto). lia.
Qed.

Lemma column_maxValue_nonzero (gd : list (string * list (prim * num))) (m : Q) :
  column_maxValue gd = Fin m -> ~ m == 0.
Proof.
  unfold column_maxValue.
  set (m0 := fold_left _ gd (nz 0)).
  destruct (m0 === nz 0)%num eqn:E.
  - intros [= <-]. discriminate.
  - intros ->. simpl in E. intros Hm. apply Qeq_bool_iff in Hm.
    unfold nz, inject_Z in E. congruence.
Qed.

Lemma str_zero (H : JsHost) (q : Q) : q == 0 -> str H (Fin q) = "0".
Proof.
  intros Hq. unfold str, num_to_string.
  rewrite (Qred_complete q 0 Hq). reflexivity.
Qed.

(** A bar of value 0 has a height that is 0 or NaN, never above 20. *)
Lemma zero_bar_height (maxValue ah : num) :
  (nz 0 / maxValue * ah)%num = NaN \/
  exists q, (nz 0 / maxValue * ah)%num = Fin q /\ q == 0.
Proof.
  destruct maxValue as [m| | |]; simpl; auto.
  - destruct (Qeq_bool m 0); simpl; auto.
    destruct ah as [y| | |]; simpl; auto.
    right. eexists. split; [reflexivity|]. unfold Qdiv. ring.
  - destruct ah as [y| | |]; simpl; auto.
    right. eexists. split; [reflexivity|]. ring.
  - destruct ah as [y| | |]; simpl; auto.
    right. eexists. split; [reflexivity|]. ring.
Qed.

Lemma zero_bar_unlabelled (H : JsHost) a maxValue categoryWidth barWidth groupArray
      categoryX gi :
  bar_label H a maxValue categoryWidth barWidth groupArray categoryX gi (nz 0) = [].
Proof.
  unfold bar_label, barHeight_of.
  destruct (zero_bar_height maxValue (ah a)) as [->|(q & -> & Hq)]; [reflexivity|].
  assert (Hle : Qle_bool q (inject_Z 20) = true)
    by (apply Qle_bool_iff; rewrite Hq; discriminate).
  unfold num_gt, num_lt, nz, Qlt_bool. now rewrite Hle.
Qed.

(** The grid of the collected categories and groups. *)
Lemma column_grid (H : JsHost) (items : list item) (w h : num)
        (o : Options) :
  items <> [] ->
  Forall not_null items ->
  exists st out,
    foldM (column_collect H) items column_init = Ok st /\
    generateColumnChart_elems H (DArray items) w h o = Ok out /\
    count_if is_bar out
    = (List.length (categorySet st) * List.length (groupSet st))%nat /\
    forall ci c gi g,
      nth_error (categorySet st) ci = Some c ->
      nth_error (groupSet st) gi = Some g ->
      exists cd,
        omap_get String.eqb c (groupedData st) = Some cd /\
        let a := chartArea w h in
        let maxValue := column_maxValue (groupedData st) in
        let categoryWidth := (aw a / nn (List.length (categorySet st)))%num in
        let barWidth :=
          (categoryWidth / (nn (List.length (groupSet st)) * Fin (6 # 5)))%num in
        let categoryX := (ax a + nn ci * categoryWidth)%num in
        let rect :=
          bar_rect H a maxValue categoryWidth barWidth (groupSet st) categoryX gi
                   (cell_value cd g) in
        In rect out /\
        (absent_pair H items c g ->
         cell_value cd g = nz 0 /\
         bar_label H a maxValue categoryWidth barWidth (groupSet st) categoryX gi
                   (cell_value cd g) = [] /\
         forall m q, maxValue = Fin m -> h = Fin q -> attr "height" rect = Some "0").
Proof.
  intros Hne Hnn.
  destruct (foldM_total (column_collect H) items) with (s := column_init)
    as (st & Hst).
  { eapply Forall_impl; [|exact Hnn]. intros it. apply column_collect_total. }
  pose proof (categories_mapped_collect H items st Hst) as Hmapped.
  eexists st, _. split; [exact Hst|]. split.
  { unfold generateColumnChart_elems.
    destruct items as [|it items]; [congruence|].
    simpl nonempty_array. cbv beta match. rewrite Hst. reflexivity. }
  split.
  - rewrite !count_if_app.
    assert (Hleg : count_if is_bar (column_legend H (chartArea w h) (groupSet st)) = 0%nat).
    { unfold column_legend. destruct (1 <? List.length (groupSet st))%nat;
        [|reflexivity].
      rewrite (count_if_flat_map _ _ 0); [lia | intros; reflexivity]. }
    rewrite Hleg. rewrite axis_titles_count.
    2:{ unfold is_bar, is_tag. intros e He _. apply String.eqb_eq in He.
        now rewrite He. }
    unfold column_bars.
    rewrite (count_if_flat_map_in _ _ (List.length (groupSet st))).
    + rewrite length_indexed. unfold count_if. simpl. lia.
    + intros [ci c] Hin. apply In_indexed in Hin. apply nth_error_In in Hin.
      destruct (Hmapped c Hin) as (cd & Hcd).
      unfold column_category. simpl snd. rewrite Hcd.
      rewrite count_if_app, (count_if_flat_map _ _ 1).
      * rewrite length_indexed. unfold count_if. simpl. lia.
      * intros ig. unfold column_cell, bar_label. rewrite count_if_cons.
        destruct (_ >? _)%num; reflexivity.
  - intros ci c gi g Hc Hg.
    destruct (Hmapped c (nth_error_In _ _ Hc)) as (cd & Hcd).
    exists cd. split; [exact Hcd|]. cbv zeta. split.
    + apply in_or_app. right. apply in_or_app. left.
      unfold column_bars. apply in_flat_map. exists (ci, c).
      split; [now apply In_indexed|].
      unfold column_category. simpl fst. simpl snd. rewrite Hcd.
      apply in_or_app. left. apply in_flat_map. exists (gi, g).
      split; [now apply In_indexed|]. left. reflexivity.
    + intros Habs.
      assert (Hv : cell_value cd g = nz 0).
      { unfold cell_value.
        now rewrite (absent_pair_no_cell H items c g st Habs Hst cd Hcd). }
      rewrite Hv. split; [reflexivity|]. split; [apply zero_bar_unlabelled|].
      intros m q Hm ->. unfold bar_rect, attr. simpl. f_equal.
      unfold barHeight_of. rewrite Hm. simpl.
      pose proof (column_maxValue_nonzero _ _ Hm) as Hnz.
      destruct (Qeq_bool m 0) eqn:E; [apply Qeq_bool_iff in E; contradiction|].
      apply str_zero. unfold Qdiv. ring.
Qed.

Lemma grid_gap_absent : absent_pair plain_host grid_gap "Q1" (PStr "B").
Proof.
  intros fs [[= <-]|[[= <-]|[]]] _ Hc; [reflexivity | discriminate Hc].
Qed.

(** C3 as stated fails: with only (Q1, A) and (Q2, B) given, the pair
    (Q1, B) is absent from the input, yet the fragment holds four bars and
    one of them is the rect of (Q1, B), of height 0. *)
Lemma column_absent_pair_gets_rect :
  absent_pair plain_host grid_gap "Q1" (PStr "B") /\
  exists out,
    generateColumnChart_elems plain_host (DArray grid_gap) (nz 800) (nz 600) no_options
    = Ok out /\
    count_if is_bar out = 4%nat /\
    In (Elem "rect"
             [("x", "245"); ("y", "520"); ("width", "275/2"); ("height", "0");
              ("fill", "#ea4335"); ("class", "chart-bar")]
             None)
       out.
Proof.
  split; [exact grid_gap_absent|].
  eexists. split; [vm_compute; reflexivity|].
  split; [vm_compute; reflexivity|].
  do 6 right. left. reflexivity.
Qed.

Lemma same_value_zero_trans (a b c : prim) :
  same_value_zero a b = true -> same_value_zero b c = true ->
  same_value_zero a c = true.
Proof.
  intros Hab Hbc.
  destruct a as [| |x|[x| | |]|x], b as [| |y|[y| | |]|y]; cbn in Hab;
    try discriminate;
    destruct c as [| |z|[z| | |]|z]; cbn in Hbc; try discriminate; try reflexivity.
  - apply Bool.eqb_prop in Hab. apply Bool.eqb_prop in Hbc. subst.
    cbn. apply Bool.eqb_reflx.
  - apply Qeq_bool_iff in Hab. apply Qeq_bool_iff in Hbc.
    cbn. apply Qeq_bool_iff. now rewrite Hab.
  - apply String.eqb_eq in Hab. apply String.eqb_eq in Hbc. subst.
    cbn. apply String.eqb_refl.
Qed.

Lemma string_eqb_trans (a b c : string) :
  String.eqb a b = true -> String.eqb b c = true -> String.eqb a c = true.
Proof.
  intros Hab Hbc. apply String.eqb_eq in Hab. apply String.eqb_eq in Hbc.
  subst. apply String.eqb_refl.
Qed.

Lemma filter_filter_comm {A : Type} (p q : A -> bool) (l : list A) :
  filter p (filter q l) = filter q (filter p l).
Proof.
  induction l as [|x l IH]; [reflexivity|]. cbn [filter].
  destruct (p x) eqn:Ep, (q x) eqn:Eq; cbn [filter]; rewrite ?Ep, ?Eq, IH; reflexivity.
Qed.

Lemma filter_filter_absorb {A : Type} (p q : A -> bool) (l : list A) :
  (forall x, p x = true -> q x = true) ->
  filter p (filter q l) = filter p l.
Proof.
  intros Hpq. induction l as [|x l IH]; [reflexivity|]. cbn [filter].
  destruct (q x) eqn:Eq; cbn [filter].
  - now rewrite IH.
  - destruct (p x) eqn:Ep; [|exact IH]. apply Hpq in Ep. congruence.
Qed.

(** Adding the keys of a list to an insertion-ordered set appends, in
    first-seen order, the distinct ones that are not in the set yet. *)
Lemma fold_oset_add_distinct {A : Type} (eqb : A -> A -> bool) (l : list A) :
  (forall a b c, eqb a b = true -> eqb b c = true -> eqb a c = true) ->
  forall s0,
    fold_left (fun s k => oset_add eqb k s) l s0
    = (s0 ++ filter (fun y => negb (existsb (eqb y) s0)) (distinct eqb l))%list.
Proof.
  intros Htrans. induction l as [|x l IH]; intros s0.
  - cbn. now rewrite app_nil_r.
  - cbn [fold_left distinct filter]. rewrite IH. unfold oset_add.
    destruct (existsb (eqb x) s0) eqn:E; cbn [negb].
    + f_equal. symmetry. apply filter_filter_absorb.
      intros y Hy. apply negb_true_iff in Hy. apply negb_true_iff.
      destruct (eqb y x) eqn:Eyx; [|reflexivity].
      apply existsb_exists in E. destruct E as (z & Hz & Hxz).
      assert (Hex : existsb (eqb y) s0 = true).
      { apply existsb_exists. exists z. split; [exact Hz|]. now apply Htrans with x. }
      congruence.
    + rewrite <- app_assoc. cbn [app]. f_equal. f_equal.
      rewrite filter_filter_comm.
      assert (Hext : forall (D : list A),
                 filter (fun y => negb (existsb (eqb y) (s0 ++ [x]))) D
                 = filter (fun y => negb (eqb y x))
                          (filter (fun y => negb (existsb (eqb y) s0)) D)).
      { induction D as [|y D IHD]; [reflexivity|]. cbn [filter].
        rewrite existsb_app. cbn [existsb]. rewrite orb_false_r, negb_orb.
        destruct (existsb (eqb y) s0); cbn [negb andb filter]; [exact IHD|].
        destruct (eqb y x); cbn [negb]; now rewrite IHD. }
      apply Hext.
Qed.

(** The categories and groups the engine collects are those of the
    accepted records, each once, in first-seen order. *)
Lemma column_collect_sets (H : JsHost) (items : list item) :
  forall st0 st,
    foldM (column_collect H) items st0 = Ok st ->
    categorySet st
    = fold_left (fun s k => oset_add String.eqb k s)
                (map (category_of H) (accepted_rows items)) (categorySet st0) /\
    groupSet st
    = fold_left (fun s k => oset_add same_value_zero k s)
                (map group_of (accepted_rows items)) (groupSet st0).
Proof.
  induction items as [|it items IH]; intros st0 st.
  - cbn. intros [= <-]. split; reflexivity.
  - cbn [foldM]. destruct (column_collect H st0 it) as [st1|] eqn:E; [|discriminate].
    cbv beta iota delta [bind]. intros Hst.
    destruct (IH st1 st Hst) as (HC & HG). rewrite HC, HG.
    cbn [accepted_rows flat_map]. rewrite !map_app, !fold_left_app.
    fold (accepted_rows items).
    unfold column_collect in E.
    destruct it as [[| | | |]|fs]; cbn in E; try discriminate;
      try (injection E as <-; split; reflexivity).
    destruct (truthy (field "category" fs) && defined (field "value" fs));
      injection E as <-; split; reflexivity.
Qed.

Lemma column_sets_distinct (H : JsHost) (items : list item) (st : ColumnState) :
  foldM (column_collect H) items column_init = Ok st ->
  categorySet st = distinct String.eqb (map (category_of H) (accepted_rows items)) /\
  groupSet st = distinct same_value_zero (map group_of (accepted_rows items)).
Proof.
  intros Hst.
  destruct (column_collect_sets H items column_init st Hst) as (HC & HG).
  cbn [column_init categorySet groupSet] in HC, HG.
  rewrite (fold_oset_add_distinct String.eqb _ string_eqb_trans) in HC.
  rewrite (fold_oset_add_distinct same_value_zero _ same_value_zero_trans) in HG.
  cbn [app existsb negb] in HC, HG.
  assert (Hall : forall (A : Type) (l : list A), filter (fun _ => true) l = l).
  { intros A l. induction l as [|x l IH]; [reflexivity|]. cbn. now rewrite IH. }
  now rewrite Hall in HC, HG.
Qed.

(** C3, as the code has it.  Let C be the distinct categories and G the
    distinct groups of the records the engine accepts (those with a
    truthy category and a value; the group is item.group || 'Series 1'),
    both in first-seen order.  For a non-empty data array the column
    engine collects exactly C and G and draws one chart-bar rect for
    every cell of the grid C x G, so their number is the product of the
    two counts.  A (category, group) pair that no item of the input
    carries is not left out: its rect is drawn for the value 0, with no
    value label, and its height attribute reads 0 whenever the scaling
    maximum and the canvas height are finite. *)
Theorem column_draws_every_cell (H : JsHost) (items : list item) (w h : num)
        (o : Options) :
  items <> [] ->
  Forall not_null items ->
  let C := distinct String.eqb (map (category_of H) (accepted_rows items)) in
  let G := distinct same_value_zero (map group_of (accepted_rows items)) in
  exists st out,
    foldM (column_collect H) items column_init = Ok st /\
    categorySet st = C /\
    groupSet st = G /\
    generateColumnChart_elems H (DArray items) w h o = Ok out /\
    count_if is_bar out = (List.length C * List.length G)%nat /\
    forall ci c gi g,
      nth_error C ci = Some c ->
      nth_error G gi = Some g ->
      exists cd,
        omap_get String.eqb c (groupedData st) = Some cd /\
        let a := chartArea w h in
        let maxValue := column_maxValue (groupedData st) in
        let categoryWidth := (aw a / nn (List.length C))%num in
        let barWidth := (categoryWidth / (nn (List.length G) * Fin (6 # 5)))%num in
        let categoryX := (ax a + nn ci * categoryWidth)%num in
        let rect :=
          bar_rect H a maxValue categoryWidth barWidth G categoryX gi (cell_value cd g) in
        In rect out /\
        (absent_pair H items c g ->
         cell_value cd g = nz 0 /\
         bar_label H a maxValue categoryWidth barWidth G categoryX gi (cell_value cd g)
         = [] /\
         forall m q, maxValue = Fin m -> h = Fin q -> attr "height" rect = Some "0").
Proof.
  intros Hne Hnn C G.
  destruct (column_grid H items w h o Hne Hnn) as (st & out & Hst & Hout & Hcount & Hcells).
  destruct (column_sets_distinct H items st Hst) as (HC & HG).
  fold C in HC. fold G in HG.
  exists st, out. split; [exact Hst|]. split; [exact HC|]. split; [exact HG|].
  split; [exact Hout|]. rewrite <- HC, <- HG. split; [exact Hcount|]. exact Hcells.
Qed.

Lemma column_draws_every_cell_witness :
  exists st out,
    foldM (column_collect plain_host) grid_gap column_init = Ok st /\
    categorySet st = ["Q1"; "Q2"] /\
    groupSet st = [PStr "A"; PStr "B"] /\
    generateColumnChart_elems plain_host (DArray grid_gap) (nz 800) (nz 600) no_options
    = Ok out /\
    count_if is_bar out = 4%nat /\
    forall ci c gi g,
      nth_error ["Q1"; "Q2"] ci = Some c ->
      nth_error [PStr "A"; PStr "B"] gi = Some g ->
      exists cd,
        omap_get String.eqb c (groupedData st) = Some cd /\
        let a := chartArea (nz 800) (nz 600) in
        let maxValue := column_maxValue (groupedData st) in
        let categoryWidth := (aw a / nn 2)%num in
        let barWidth := (categoryWidth / (nn 2 * Fin (6 # 5)))%num in
        let categoryX := (ax a + nn ci * categoryWidth)%num in
        let rect :=
          bar_rect plain_host a maxValue categoryWidth barWidth [PStr "A"; PStr "B"]
                   categoryX gi (cell_value cd g) in
        In rect out /\
        (absent_pair plain_host grid_gap c g ->
         cell_value cd g = nz 0 /\
         bar_label plain_host a maxValue categoryWidth barWidth [PStr "A"; PStr "B"]
                   categoryX gi (cell_value cd g) = [] /\
         forall m q, maxValue = Fin m -> nz 600 = Fin q ->
                     attr "height" rect = Some "0").
Proof.
  apply (column_draws_every_cell plain_host grid_gap (nz 800) (nz 600) no_options).
  - discriminate.
  - repeat constructor; discriminate.
Defined.

(* ================================================================= *)
(** ** The render call on a well-formed request *)

Lemma well_formed_data_safe (H : JsHost) (o : Options) :
  well_formed H o ->
  data_safe (data_or_empty o) /\
  (forall items, nonempty_array (data_or_empty o) = Some items ->
                 (List.length items <= max_arguments H)%nat).
Proof.
  intros [Hd _]. split; intros items; unfold data_or_empty;
    destruct (data o) as [[l|[p|fs]]|] eqn:E; simpl; try discriminate;
    try (destruct (truthy p); discriminate);
    (destruct l; [discriminate|]); intros [= <-]; now apply Hd.
Qed.

Lemma incr_nth_length (i : nat) (l : list nat) :
  List.length (incr_nth i l) = List.length l.
Proof.
  revert i. induction l as [|x l IH]; intros [|i]; simpl; try reflexivity.
  now rewrite IH.
Qed.

Lemma fill_bins_length (lo bw nbins : num) (values : list num) (hist : list nat) :
  List.length (fill_bins lo bw nbins values hist) = List.length hist.
Proof.
  unfold fill_bins. revert hist.
  induction values as [|v values IH]; intros hist; [reflexivity|].
  cbn [fold_left]. rewrite IH. unfold incr_bin.
  destruct (array_index _ _); [apply incr_nth_length | reflexivity].
Qed.

Lemma Array_fill0_nz (k : Z) :
  (0 <= k < 2 ^ 32)%Z -> Array_fill0 (nz k) = Ok (repeat 0%nat (Z.to_nat k)).
Proof.
  intros Hk. unfold Array_fill0, nz.
  rewrite Qcanon.Qred_identity by (simpl; apply Z.gcd_1_r).
  cbn [inject_Z Qnum Qden].
  rewrite (proj2 (Z.leb_le 0 k)) by lia.
  rewrite (proj2 (Z.ltb_lt k (2 ^ 32))) by lia.
  reflexivity.
Qed.

Lemma Array_fill0_valid (n : num) :
  valid_array_length n -> exists l, Array_fill0 n = Ok l.
Proof.
  intros (q & k & -> & Hq & Hk). unfold Array_fill0.
  rewrite (Qred_complete _ _ Hq).
  rewrite Qcanon.Qred_identity by (simpl; apply Z.gcd_1_r).
  cbn [inject_Z Qnum Qden].
  rewrite (proj2 (Z.leb_le 0 k)) by lia.
  rewrite (proj2 (Z.ltb_lt k (2 ^ 32))) by lia.
  eexists. reflexivity.
Qed.

Lemma bin_count_fits_valid (H : JsHost) (n : num) :
  bin_count_fits H n -> valid_array_length n.
Proof. intros (q & k & Hn & Hq & Hk & _). now exists q, k. Qed.

Lemma Array_fill0_fits (H : JsHost) (n : num) :
  bin_count_fits H n ->
  exists k, Array_fill0 n = Ok (repeat 0%nat k) /\ (k <= max_arguments H)%nat.
Proof.
  intros (q & k & -> & Hq & Hk & Hmax). exists (Z.to_nat k). split; [|lia].
  unfold Array_fill0.
  rewrite (Qred_complete _ _ Hq).
  rewrite Qcanon.Qred_identity by (simpl; apply Z.gcd_1_r).
  cbn [inject_Z Qnum Qden].
  rewrite (proj2 (Z.leb_le 0 k)) by lia.
  rewrite (proj2 (Z.ltb_lt k (2 ^ 32))) by lia.
  reflexivity.
Qed.

Lemma spread_fits (H : JsHost) {A : Type} (l : list A) :
  (List.length l <= max_arguments H)%nat -> spread H l = Ok tt.
Proof. intros Hl. unfold spread. now rewrite (proj2 (Nat.leb_le _ _) Hl). Qed.

Lemma spread_too_long (H : JsHost) {A : Type} (l : list A) :
  (max_arguments H < List.length l)%nat -> spread H l = Throw RangeError.
Proof. intros Hl. unfold spread. now rewrite (proj2 (Nat.leb_gt _ _) Hl). Qed.

Lemma histogram_values_length (H : JsHost) (items : list item) (values : list num) :
  histogram_values H items = Ok values ->
  (List.length values <= List.length items)%nat.
Proof.
  unfold histogram_values. destruct (mapM (histogram_value H) items) as [vs|] eqn:E;
    [|discriminate].
  cbn [bind]. intros [= <-]. rewrite <- (mapM_length _ _ _ E). apply filter_length_le.
Qed.

Lemma normalize_slice_total (H : JsHost) (it : item) :
  not_null it -> exists p, normalize_slice H it = Ok p.
Proof.
  intros Hn. unfold normalize_slice.
  destruct (as_object_total it Hn) as (o & ->). simpl.
  destruct o as [fs|]; [|eauto].
  destruct (defined (field "category" fs) && defined (field "value" fs)); eauto.
Qed.

Lemma radar_collect_total (H : JsHost) (it : item) :
  not_null it -> forall st, exists st', radar_collect H st it = Ok st'.
Proof.
  intros Hn st. unfold radar_collect.
  destruct (as_object_total it Hn) as (o & ->). simpl.
  destruct o as [fs|]; [|eauto].
  destruct (truthy (field "name" fs) && truthy (field "group" fs)
            && defined (field "value" fs)); eauto.
Qed.

Lemma dual_row_total (H : JsHost) (it : item) :
  not_null it -> exists r, dual_row H it = Ok r.
Proof.
  intros Hn. unfold dual_row.
  destruct (as_object_total it Hn) as (o & ->). simpl.
  destruct o; eauto.
Qed.

Lemma histogram_value_total (H : JsHost) (it : item) :
  not_null it -> exists v, histogram_value H it = Ok v.
Proof.
  intros Hn. unfold histogram_value.
  destruct (as_object_total it Hn) as (o & ->). simpl.
  destruct o as [fs|]; [|eauto].
  destruct (defined (field "value" fs)); eauto.
Qed.

Lemma scatter_loop_total (H : JsHost) (a : ChartArea) (n : nat) (l : list (nat * item)) :
  Forall (fun ip => not_null (snd ip)) l ->
  forall k, exists out, scatter_loop H a n k l = Ok out.
Proof.
  induction 1 as [|[index it] l Hn _ IH]; intros k; simpl; [eauto|].
  destruct (as_object_total it Hn) as (o & ->). simpl.
  destruct o as [fs|];
    [destruct (defined (field "x" fs) && defined (field "y" fs))|];
    cbv beta iota zeta;
    match goal with
    | |- context [scatter_loop H a n ?k' l] => destruct (IH k') as (rest & ->)
    end; simpl; eauto.
Qed.

Lemma Forall_indexed {A : Type} (P : A -> Prop) (l : list A) :
  Forall P l -> Forall (fun ip => P (snd ip)) (indexed l).
Proof.
  intros Hall. apply Forall_forall. intros [i x] Hin.
  apply In_indexed, nth_error_In in Hin.
  simpl. revert x Hin. now apply Forall_forall.
Qed.

Ltac with_items Hsafe :=
  match goal with
  | |- context [nonempty_array ?d] =>
      let items := fresh "items" in
      let E := fresh "E" in
      destruct (nonempty_array d) as [items|] eqn:E;
      [specialize (Hsafe items eq_refl) | eexists; reflexivity]
  end.

Section EngineTotality.
Variables (H : JsHost) (d : jsdata) (w h : num) (o : Options).
Hypothesis Hsafe : data_safe d.

Lemma column_total : exists l, generateColumnChart_elems H d w h o = Ok l.
Proof.
  unfold generateColumnChart_elems, data_safe in *. with_items Hsafe.
  destruct (foldM_total (column_collect H) items) with (s := column_init)
    as (st & ->); [|simpl; eauto].
  eapply Forall_impl; [|exact Hsafe]. intros it. apply column_collect_total.
Qed.

Lemma line_total : exists l, generateLineChart_elems H d w h o = Ok l.
Proof.
  unfold generateLineChart_elems, data_safe in *. with_items Hsafe.
  destruct (mapM_total (normalize_point H) items) as (ps & -> & _); [|simpl; eauto].
  eapply Forall_impl; [|exact Hsafe]. intros it. apply normalize_point_total.
Qed.

Lemma area_total : exists l, generateAreaChart_elems H d w h o = Ok l.
Proof.
  unfold generateAreaChart_elems, data_safe in *. with_items Hsafe.
  destruct (mapM_total (normalize_point H) items) as (ps & -> & _); [|simpl; eauto].
  eapply Forall_impl; [|exact Hsafe]. intros it. apply normalize_point_total.
Qed.

Lemma pie_total_ok : exists l, generatePieChart_elems H d w h o = Ok l.
Proof.
  unfold generatePieChart_elems, data_safe in *. with_items Hsafe.
  destruct (mapM_total (normalize_slice H) items) as (ps & -> & _).
  - eapply Forall_impl; [|exact Hsafe]. intros it. apply normalize_slice_total.
  - simpl. destruct (pie_total ps <=? nz 0)%num; eauto.
Qed.

Lemma funnel_total : exists l, generateFunnelChart_elems H d w h o = Ok l.
Proof.
  unfold generateFunnelChart_elems, data_safe in *. with_items Hsafe.
  destruct (mapM_total (normalize_slice H) items) as (ps & -> & _); [|simpl; eauto].
  eapply Forall_impl; [|exact Hsafe]. intros it. apply normalize_slice_total.
Qed.

Lemma scatter_total : exists l, generateScatterChart_elems H d w h o = Ok l.
Proof.
  unfold generateScatterChart_elems, data_safe in *. with_items Hsafe.
  destruct (scatter_loop_total H (chartArea w h) (List.length items) (indexed items))
    with (k := 0%nat) as (out & ->); [|simpl; eauto].
  now apply Forall_indexed.
Qed.

Lemma radar_total : exists l, generateRadarChart_elems H d w h o = Ok l.
Proof.
  unfold generateRadarChart_elems, data_safe in *. with_items Hsafe.
  destruct (foldM_total (radar_collect H) items)
    with (s := {| radarData := []; dimensionSet := [] |}) as (st & ->).
  - eapply Forall_impl; [|exact Hsafe]. intros it. apply radar_collect_total.
  - simpl. destruct (dimensionSet st); eauto.
Qed.

Lemma dual_input_total : exists inp, dual_input H d o = Ok inp.
Proof.
  unfold dual_input, data_safe in *.
  destruct (series o); [destruct (categories o); [eauto|]|];
    (with_items Hsafe;
     destruct (mapM_total (dual_row H) items) as (rows & -> & _); [|simpl; eauto];
     eapply Forall_impl; [|exact Hsafe]; intros it; apply dual_row_total).
Qed.

Lemma dual_total : exists l, generateDualAxesChart_elems H d w h o = Ok l.
Proof.
  unfold generateDualAxesChart_elems.
  destruct dual_input_total as (inp & ->). simpl.
  destruct (barData inp), (lineData inp); eauto.
Qed.

Lemma histogram_total :
  (forall items, nonempty_array d = Some items ->
                 (List.length items <= max_arguments H)%nat) ->
  bin_count_fits H (opt_num_or (bins o) (nz 10)) ->
  exists l, generateHistogramChart_elems H d w h o = Ok l.
Proof.
  intros Hlen Hbins.
  unfold generateHistogramChart_elems, data_safe in *.
  destruct (nonempty_array d) as [items|] eqn:E; [|eexists; reflexivity].
  specialize (Hsafe items eq_refl). specialize (Hlen items eq_refl).
  destruct (mapM_total (histogram_value H) items) as (vs & Hvs & _).
  { eapply Forall_impl; [|exact Hsafe]. intros it. apply histogram_value_total. }
  assert (Hvalues : histogram_values H items = Ok (filter (fun v => negb (isNaN v)) vs))
    by (unfold histogram_values; now rewrite Hvs).
  pose proof (histogram_values_length H items _ Hvalues) as Hvl.
  rewrite Hvalues. cbv beta iota delta [bind].
  destruct (filter _ vs) as [|v vs'] eqn:Ef; [eauto|].
  rewrite spread_fits by lia.
  unfold histogram_bins.
  destruct (Array_fill0_fits H _ Hbins) as (k & -> & Hk).
  cbv beta iota delta [bind].
  rewrite spread_fits by (now rewrite fill_bins_length, repeat_length).
  eauto.
Qed.
End EngineTotality.

Lemma fragment_total (r : result (list elem)) :
  (exists l, r = Ok l) -> exists s, fragment r = Ok s.
Proof. intros (l & ->). simpl. eauto. Qed.

Lemma dispatch_total (H : JsHost) (type : string) (w h : num) (o : Options) :
  well_formed H o -> exists frag, dispatch H type (data_or_empty o) w h o = Ok frag.
Proof.
  intros Hwf. destruct (well_formed_data_safe H o Hwf) as (Hs & Hl).
  pose proof (proj2 Hwf) as Hb.
  unfold dispatch.
  repeat match goal with
         | |- context [if ?c then _ else _] => destruct c
         end;
    apply fragment_total;
    first [ now apply column_total | now apply line_total | now apply pie_total_ok
          | now apply area_total | now apply scatter_total | now apply radar_total
          | now apply funnel_total | now apply dual_total
          | now apply histogram_total ].
Qed.

Ltac find_sub :=
  first [ apply Substring_refl
        | apply Substring_app_l, Substring_refl
        | apply Substring_app_r; find_sub ].

Lemma document_nonempty (H : JsHost) (w h : num) (t frag : string) :
  document H w h t frag <> EmptyString.
Proof. unfold document. simpl. discriminate. Qed.

Lemma document_has_root (H : JsHost) (w h : num) (t frag : string) :
  Substring (svg_open H w h) (document H w h t frag).
Proof. unfold document. find_sub. Qed.

Lemma document_has_footer (H : JsHost) (w h : num) (t frag : string) :
  Substring footer_notice (document H w h t frag).
Proof.
  unfold document.
  match goal with
  | |- context [render (Elem ?tg ?a (Some footer_notice))] =>
      apply Substring_trans with (render (Elem tg a (Some footer_notice)))
  end; [apply body_in_render; reflexivity | find_sub].
Qed.

Lemma document_has_title (H : JsHost) (w h : num) (t frag : string) :
  Substring t (document H w h t frag).
Proof.
  unfold document.
  match goal with
  | |- context [render (Elem ?tg ?a (Some t))] =>
      apply Substring_trans with (render (Elem tg a (Some t)))
  end; [apply body_in_render; reflexivity | find_sub].
Qed.

Lemma document_has_fragment (H : JsHost) (w h : num) (t frag : string) :
  Substring frag (document H w h t frag).
Proof. unfold document. find_sub. Qed.


Lemma histogram_request_well_formed : well_formed plain_host (histogram_request (nz 5)).
Proof.
  split.
  - intros items [= <-]. split; [repeat constructor; discriminate|].
    apply Nat.leb_le. vm_compute. reflexivity.
  - exists (inject_Z 5), 5%Z.
    split; [reflexivity|]. split; [reflexivity|]. split; [lia|].
    apply Z.leb_le. vm_compute. reflexivity.
Qed.



(* ================================================================= *)
(** ** What the engines read from the items *)

(** The normalisers of the engines give the labels and the slices of the
    spec. *)
Lemma normalize_point_label (H : JsHost) (it : item) (p : Point) :
  normalize_point H it = Ok p -> label p = point_label H it.
Proof.
  unfold normalize_point, point_label.
  destruct it as [[| | | |]|fs]; cbn; try discriminate;
    try (intros [= <-]; reflexivity).
  destruct (defined (field "time" fs)), (defined (field "category" fs)),
    (defined (field "value" fs)); cbn; intros [= <-]; reflexivity.
Qed.

Lemma normalize_slice_of (H : JsHost) (it : item) (p : Point) :
  normalize_slice H it = Ok p -> p = slice_of H it.
Proof.
  unfold normalize_slice, slice_of.
  destruct it as [[| | | |]|fs]; cbn; try discriminate;
    try (intros [= <-]; reflexivity).
  destruct (defined (field "category" fs) && defined (field "value" fs));
    intros [= <-]; reflexivity.
Qed.

Lemma normalize_slices_of (H : JsHost) (items : list item) :
  Forall not_null items ->
  mapM (normalize_slice H) items = Ok (map (slice_of H) items).
Proof.
  intros Hnn.
  destruct (mapM_total (normalize_slice H) items) as (ps & Hps & _).
  { eapply Forall_impl; [|exact Hnn]. intros it. apply normalize_slice_total. }
  now rewrite Hps, (mapM_map _ (slice_of H) _ _ (normalize_slice_of H) Hps).
Qed.

Lemma dual_row_category (H : JsHost) (it : item) (r : DualRow) :
  dual_row H it = Ok r -> row_category r = dual_category H it.
Proof.
  unfold dual_row, dual_category.
  destruct it as [[| | | |]|fs]; cbn; try discriminate; intros [= <-]; reflexivity.
Qed.

Lemma histogram_value_extracted (H : JsHost) (it : item) (v : num) :
  histogram_value H it = Ok v -> v = extracted_value H it.
Proof.
  unfold histogram_value, extracted_value.
  destruct it as [[| | | |]|fs]; cbn; try discriminate;
    try (intros [= <-]; reflexivity).
  destruct (defined (field "value" fs)); intros [= <-]; reflexivity.
Qed.

(** The values the engine extracts are those of the spec. *)
Lemma histogram_values_extracted (H : JsHost) (items : list item) :
  Forall not_null items ->
  histogram_values H items = Ok (extracted_values H items).
Proof.
  intros Hnn. unfold histogram_values, extracted_values.
  destruct (mapM_total (histogram_value H) items) as (vs & Hvs & _).
  { eapply Forall_impl; [|exact Hnn]. intros it. apply histogram_value_total. }
  rewrite Hvs. cbv beta iota delta [bind].
  now rewrite (mapM_map _ (extracted_value H) _ _ (histogram_value_extracted H) Hvs).
Qed.

(* ================================================================= *)
(** ** Placeholders on degenerate input *)

Lemma prefix_spec (t s : string) :
  String.prefix t s = true <-> exists post, s = t ++ post.
Proof.
  revert s. induction t as [|c t IH]; intros s.
  - destruct s; simpl; split; eauto.
  - destruct s as [|c' s]; simpl.
    + split; [discriminate | intros (post & Hp); discriminate].
    + destruct (ascii_dec c c') as [->|Hne].
      * rewrite IH. split; intros (post & Hp); exists post; congruence.
      * split; [discriminate | intros (post & Hp); congruence].
Qed.

Lemma is_substring_spec (t s : string) :
  is_substring t s = true <-> Substring t s.
Proof.
  induction s as [|c s IH].
  - cbn [is_substring]. rewrite orb_false_r, prefix_spec. split.
    + intros (post & ->). exists EmptyString, post. reflexivity.
    + intros ([|? ?] & post & Hp); [|discriminate]. eauto.
  - cbn [is_substring]. rewrite orb_true_iff, prefix_spec, IH. split.
    + intros [(post & ->)|(pre & post & ->)].
      * exists EmptyString, post. reflexivity.
      * exists (String c pre), post. reflexivity.
    + intros ([|c' pre] & post & Hp).
      * left. eauto.
      * right. exists pre, post. simpl in Hp. congruence.
Qed.

Lemma not_Substring (t s : string) : is_substring t s = false -> ~ Substring t s.
Proof. intros Hf Hs. apply is_substring_spec in Hs. congruence. Qed.

Lemma dual_no_data (H : JsHost) (d : jsdata) (w h : num) (o : Options) :
  nonempty_array d = None -> no_series_data o ->
  generateDualAxesChart_elems H d w h o = Ok (no_data).
Proof.
  unfold generateDualAxesChart_elems, dual_input, no_series_data.
  intros -> Hs.
  destruct (series o) as [ss|]; [destruct (categories o) as [cats|]|];
    try reflexivity.
  destruct Hs as [-> ->]. reflexivity.
Qed.

Lemma dispatch_no_items (H : JsHost) (type : string) (d : jsdata) (w h : num)
      (o : Options) :
  nonempty_array d = None ->
  (toLowerCase type = "dual-axes" -> no_series_data o) ->
  dispatch H type d w h o = Ok (render (placeholder "No data available")).
Proof.
  intros Hd Hs. unfold dispatch.
  destruct (String.eqb_spec (toLowerCase type) "dual-axes") as [Hdual|_].
  - rewrite Hdual. unfold generateDualAxesChart. simpl.
    now rewrite (dual_no_data H d w h o Hd (Hs Hdual)).
  - repeat match goal with
           | |- context [if ?c then _ else _] => destruct c
           end;
      unfold generateColumnChart, generateLineChart, generatePieChart,
        generateAreaChart, generateScatterChart, generateRadarChart,
        generateFunnelChart, generateHistogramChart,
        generateColumnChart_elems, generateLineChart_elems, generatePieChart_elems,
        generateAreaChart_elems, generateScatterChart_elems, generateRadarChart_elems,
        generateFunnelChart_elems, generateHistogramChart_elems;
      rewrite Hd; reflexivity.
Qed.




(** The total of the pie is the rounded one: 3 + 10^16 is 10^16 + 4 in
    binary64, so the values 3, 10^16, -10^16 and -3.5, whose sum is
    -0.5, have the total 0.5 and the pie is drawn, not the placeholder. *)
Example pie_total_is_rounded :
  let items := [jnum 3; jnum (10 ^ 16); jnum (- 10 ^ 16); IPrim (PNum (Fin (- 7 # 2)))] in
  exists slices out,
    mapM (normalize_slice plain_host) items = Ok slices /\
    pie_total slices = Fin (1 # 2) /\
    fold_left num_add (map value slices) (nz 0) = Fin (- 1 # 2) /\
    generatePieChart_elems plain_host (DArray items) (nz 800) (nz 600) no_options
    = Ok out /\
    count_if (is_tag "path") out = 2%nat.
Proof.
  eexists. eexists. split; [reflexivity|].
  split; [vm_compute; reflexivity|].
  split; [vm_compute; reflexivity|].
  split; vm_compute; reflexivity.
Qed.

(* ================================================================= *)
(** ** Title and labels in the document *)

Lemma In_indexed_of_In {A : Type} (l : list A) (x : A) :
  In x l -> exists i, In (i, x) (indexed l).
Proof.
  intros Hin. apply In_nth_error in Hin. destruct Hin as (i & Hi).
  exists i. now apply In_indexed.
Qed.

Lemma categorySet_grows (H : JsHost) (items : list item) (c : string) :
  forall s s', foldM (column_collect H) items s = Ok s' ->
               In c (categorySet s) -> In c (categorySet s').
Proof.
  induction items as [|it items IH]; intros s s'; simpl.
  - now intros [= <-].
  - destruct (column_collect H s it) as [s1|] eqn:E; simpl; [|discriminate].
    intros Hf Hin. apply (IH s1 s' Hf).
    destruct (column_collect_cases H s s1 it E) as [->|(fs & _ & _ & ->)];
      [assumption|].
    simpl. unfold oset_add. destruct (existsb _ _); [assumption|].
    apply in_or_app. now left.
Qed.

Lemma In_oset_add_self (k : string) (s : list string) :
  In k (oset_add String.eqb k s).
Proof.
  unfold oset_add. destruct (existsb (String.eqb k) s) eqn:E.
  - apply existsb_exists in E. destruct E as (x & Hx & Heq).
    apply String.eqb_eq in Heq. now subst.
  - apply in_or_app. right. now left.
Qed.

(** The category of an accepted item is among the collected ones. *)
Lemma accepted_category_collected (H : JsHost) (items : list item) (fs : fields) :
  In (IObj fs) items ->
  truthy (field "category" fs) && defined (field "value" fs) = true ->
  forall s s', foldM (column_collect H) items s = Ok s' ->
               In (ToString H (field "category" fs)) (categorySet s').
Proof.
  intros Hin Hacc. induction items as [|it items IH]; [contradiction|].
  intros s s'. simpl.
  destruct (column_collect H s it) as [s1|] eqn:E; simpl; [|discriminate].
  intros Hf. destruct Hin as [->|Hin]; [|now apply (IH Hin s1)].
  apply (categorySet_grows H items _ s1 s' Hf).
  unfold column_collect in E. simpl in E. rewrite Hacc in E.
  injection E as <-. simpl. apply In_oset_add_self.
Qed.

Lemma pie_loop_draws (H : JsHost) cX cY r total (p : Point) (l : list (nat * Point))
      (i : nat) :
  In (i, p) l -> (value p <=? nz 0)%num = false ->
  forall cur, exists start, In (pie_step H cX cY r total start i p)
                               (pie_loop H cX cY r total cur l).
Proof.
  intros Hin Hv. induction l as [|[j q] l IH]; [contradiction|].
  intros cur. simpl. destruct Hin as [[= -> ->]|Hin].
  - rewrite Hv. exists cur. now left.
  - destruct (value q <=? nz 0)%num.
    + apply (IH Hin).
    + destruct (IH Hin (cur + ps_angle (pie_step H cX cY r total cur j q))%b64)
        as (start & Hs).
      exists start. now right.
Qed.

Lemma Substring_of_body (frag s b : string) (e : elem) (l : list elem) :
  frag = render_all l -> In e l -> body e = Some b -> Substring s b ->
  Substring s frag.
Proof.
  intros -> Hin Hb Hs. eapply Substring_trans; [exact Hs|].
  now apply body_in_render_all with e.
Qed.

Ltac engine_of Hd Ht :=
  unfold dispatch in Hd; rewrite Ht in Hd;
  cbv beta iota delta [String.eqb Ascii.eqb Bool.eqb orb] in Hd;
  unfold generateColumnChart, generateLineChart, generatePieChart,
    generateFunnelChart, generateRadarChart, generateDualAxesChart, fragment,
    generateColumnChart_elems, generateLineChart_elems, generatePieChart_elems,
    generateFunnelChart_elems, generateRadarChart_elems,
    generateDualAxesChart_elems in Hd.

(** The goal is that a label occurs in a fragment: [find] shows the shape
    that carries it to be among the shapes, the shape's text is the
    label. *)
Ltac by_body find :=
  eapply Substring_of_body; [reflexivity | find | reflexivity | apply Substring_refl].

Ltac skip_left := apply in_or_app; right.
Ltac take_left := apply in_or_app; left.


Lemma In_oset_add_iff (k k' : string) (s : list string) :
  In k (oset_add String.eqb k' s) <-> In k s \/ k = k'.
Proof.
  split; [apply In_oset_add_str|].
  intros [Hin| ->]; [|apply In_oset_add_self].
  unfold oset_add. destruct (existsb _ _); [assumption|].
  apply in_or_app. now left.
Qed.

Lemma NoDup_oset_add (k : string) (s : list string) :
  NoDup s -> NoDup (oset_add String.eqb k s).
Proof.
  intros Hnd. unfold oset_add. destruct (existsb (String.eqb k) s) eqn:E; [assumption|].
  apply NoDup_app; [assumption | repeat constructor; intros [] |].
  intros x Hx [Hk|[]]. subst x.
  assert (existsb (String.eqb k) s = true); [|congruence].
  apply existsb_exists. exists k. split; [assumption | apply String.eqb_refl].
Qed.

Lemma map_fst_omap_set {V : Type} (k : string) (v : V) (m : list (string * V)) :
  map fst (omap_set String.eqb k v m) = oset_add String.eqb k (map fst m).
Proof.
  unfold oset_add. induction m as [|[k1 v1] m IH]; simpl; [reflexivity|].
  destruct (String.eqb k k1); simpl; [reflexivity|].
  rewrite IH. destruct (existsb (String.eqb k) (map fst m)); reflexivity.
Qed.

Lemma radar_collect_step (H : JsHost) (st : RadarState) (it : item) :
  not_null it ->
  exists st',
    radar_collect H st it = Ok st' /\
    dimensionSet st'
    = (if radar_accepts it then oset_add String.eqb (radar_name H it) (dimensionSet st)
       else dimensionSet st) /\
    map fst (radarData st')
    = (if radar_accepts it
       then oset_add String.eqb (radar_group_name H it) (map fst (radarData st))
       else map fst (radarData st)).
Proof.
  intros Hn. unfold radar_collect.
  destruct it as [[| | | |]|fs]; simpl; try (eexists; repeat split; reflexivity).
  - now contradiction Hn.
  - destruct (truthy (field "name" fs) && truthy (field "group" fs)
              && defined (field "value" fs)).
    + eexists. split; [reflexivity|]. split; [reflexivity|].
      simpl. apply map_fst_omap_set.
    + eexists. repeat split; reflexivity.
Qed.

Lemma radar_fold_spec (H : JsHost) (items : list item) :
  Forall not_null items ->
  forall st0,
    NoDup (dimensionSet st0) -> NoDup (map fst (radarData st0)) ->
    exists st,
      foldM (radar_collect H) items st0 = Ok st /\
      NoDup (dimensionSet st) /\ NoDup (map fst (radarData st)) /\
      (forall n, In n (dimensionSet st) <->
                 In n (dimensionSet st0) \/
                 exists it, In it items /\ radar_accepts it = true /\ radar_name H it = n) /\
      (forall g, In g (map fst (radarData st)) <->
                 In g (map fst (radarData st0)) \/
                 exists it, In it items /\ radar_accepts it = true
                            /\ radar_group_name H it = g).
Proof.
  induction 1 as [|it items Hn _ IH]; intros st0 Hd Hg.
  - exists st0. split; [reflexivity|]. split; [assumption|]. split; [assumption|].
    split; intros x; (split; [auto | intros [?|(it & [] & _)]; assumption]).
  - destruct (radar_collect_step H st0 it Hn) as (st1 & E1 & Ed & Eg).
    destruct (IH st1) as (st & Ef & Hd' & Hg' & Hdim & Hgrp).
    { rewrite Ed. destruct (radar_accepts it); [now apply NoDup_oset_add | assumption]. }
    { rewrite Eg. destruct (radar_accepts it); [now apply NoDup_oset_add | assumption]. }
    exists st. split; [simpl; rewrite E1; exact Ef|].
    split; [assumption|]. split; [assumption|].
    split; intros x.
    + rewrite Hdim, Ed. destruct (radar_accepts it) eqn:Ea.
      * rewrite In_oset_add_iff. split.
        -- intros [[?| ->]|(it' & Hin & Ha & Hx)]; [now left | |].
           ++ right. exists it. repeat split; [now left | assumption].
           ++ right. exists it'. repeat split; [now right | assumption | assumption].
        -- intros [?|(it' & [<-|Hin] & Ha & Hx)]; [now left; left | |].
           ++ left. right. now symmetry.
           ++ right. exists it'. now repeat split.
      * split.
        -- intros [?|(it' & Hin & Ha & Hx)]; [now left|].
           right. exists it'. repeat split; [now right | assumption | assumption].
        -- intros [?|(it' & [<-|Hin] & Ha & Hx)]; [now left | congruence |].
           right. exists it'. now repeat split.
    + rewrite Hgrp, Eg. destruct (radar_accepts it) eqn:Ea.
      * rewrite In_oset_add_iff. split.
        -- intros [[?| ->]|(it' & Hin & Ha & Hx)]; [now left | |].
           ++ right. exists it. repeat split; [now left | assumption].
           ++ right. exists it'. repeat split; [now right | assumption | assumption].
        -- intros [?|(it' & [<-|Hin] & Ha & Hx)]; [now left; left | |].
           ++ left. right. now symmetry.
           ++ right. exists it'. now repeat split.
      * split.
        -- intros [?|(it' & Hin & Ha & Hx)]; [now left|].
           right. exists it'. repeat split; [now right | assumption | assumption].
        -- intros [?|(it' & [<-|Hin] & Ha & Hx)]; [now left | congruence |].
           right. exists it'. now repeat split.
Qed.

Lemma radar_collect_not_null (H : JsHost) (items : list item) :
  forall s st, foldM (radar_collect H) items s = Ok st -> Forall not_null items.
Proof.
  induction items as [|it items IH]; intros s st; [constructor|].
  cbn [foldM]. destruct (radar_collect H s it) as [s1|] eqn:E; [|discriminate].
  cbv beta iota delta [bind]. intros Hst. constructor; [|exact (IH s1 st Hst)].
  intros ->. discriminate E.
Qed.

(** The name and the group of an accepted record are collected. *)
Lemma radar_accepted_collected (H : JsHost) (items : list item) (fs : fields)
      (st : RadarState) :
  foldM (radar_collect H) items {| radarData := []; dimensionSet := [] |} = Ok st ->
  In (IObj fs) items ->
  truthy (field "name" fs) && truthy (field "group" fs) && defined (field "value" fs)
  = true ->
  In (ToString H (field "name" fs)) (dimensionSet st) /\
  In (ToString H (field "group" fs)) (map fst (radarData st)).
Proof.
  intros Hst Hin Hacc.
  destruct (radar_fold_spec H items (radar_collect_not_null H items _ _ Hst)
              {| radarData := []; dimensionSet := [] |})
    as (st' & Hst' & _ & _ & Hdim & Hgrp); [constructor | constructor |].
  assert (st' = st) by congruence. subst st'.
  split; [apply Hdim | apply Hgrp]; right; exists (IObj fs); repeat split; assumption.
Qed.

Lemma column_labels_in_fragment (H : JsHost) (items : list item) (w h : num)
      (o : Options) (st : ColumnState) :
  foldM (column_collect H) items column_init = Ok st ->
  let out := (column_legend H (chartArea w h) (groupSet st)
              ++ column_bars H (chartArea w h) st
              ++ axes H (chartArea w h) ++ axis_titles H (chartArea w h) o)%list in
  (forall c, In c (categorySet st) -> Substring c (render_all out)) /\
  (forall g, (1 < List.length (groupSet st))%nat -> In g (groupSet st) ->
             Substring (ToString H g) (render_all out)).
Proof.
  intros Hst out. split.
  - intros c Hc.
    destruct (categories_mapped_collect H items st Hst c Hc) as (cd & Hcd).
    destruct (In_indexed_of_In _ _ Hc) as (ci & Hci).
    by_body ltac:(skip_left; take_left; unfold column_bars;
                  apply in_flat_map; exists (ci, c); split; [exact Hci|];
                  unfold column_category; simpl snd; rewrite Hcd;
                  skip_left; left; reflexivity).
  - intros g Hlen Hg.
    destruct (In_indexed_of_In _ _ Hg) as (gi & Hgi).
    apply Nat.ltb_lt in Hlen.
    by_body ltac:(take_left; unfold column_legend; rewrite Hlen;
                  apply in_flat_map; exists (gi, g); split; [exact Hgi|];
                  right; left; reflexivity).
Qed.

Lemma drawn_label_in_fragment (H : JsHost) (type : string) (o : Options)
      (w h : num) (frag s : string) :
  dispatch H type (data_or_empty o) w h o = Ok frag ->
  drawn_label H type o s -> Substring s frag.
Proof.
  intros Hd Hl.
  destruct Hl as [items fs Ht Hne Hin Hacc | items g Ht Hne G Hlen Hg
                 | items i it Ht Hne Hi Hshow
                 | items it Ht Hne Htot Hin Hv
                 | items it Ht Hne Hin
                 | items fs Ht Hne Hin Hacc
                 | items fs Ht Hne Hin Hacc
                 | ss cats c Ht Hss Hcats Hsome Hc
                 | items it Ht Hleg Hne Hin].
  - assert (exists st, foldM (column_collect H) items column_init = Ok st
                       /\ frag = render_all
                            (column_legend H (chartArea w h) (groupSet st)
                             ++ column_bars H (chartArea w h) st
                             ++ axes H (chartArea w h)
                             ++ axis_titles H (chartArea w h) o)%list)
      as (st & Hst & ->).
    { destruct Ht as [Ht|Ht]; engine_of Hd Ht; rewrite Hne in Hd;
        destruct (foldM (column_collect H) items column_init) as [st|];
        try discriminate; exists st; split; try reflexivity;
        cbv beta iota delta [bind] in Hd; congruence. }
    destruct (column_labels_in_fragment H items w h o st Hst) as [Hcat _].
    apply Hcat.
    now apply (accepted_category_collected H items fs Hin Hacc column_init).
  - assert (exists st, foldM (column_collect H) items column_init = Ok st
                       /\ frag = render_all
                            (column_legend H (chartArea w h) (groupSet st)
                             ++ column_bars H (chartArea w h) st
                             ++ axes H (chartArea w h)
                             ++ axis_titles H (chartArea w h) o)%list)
      as (st & Hst & ->).
    { destruct Ht as [Ht|Ht]; engine_of Hd Ht; rewrite Hne in Hd;
        destruct (foldM (column_collect H) items column_init) as [st|];
        try discriminate; exists st; split; try reflexivity;
        cbv beta iota delta [bind] in Hd; congruence. }
    destruct (column_labels_in_fragment H items w h o st Hst) as [_ Hgrp].
    destruct (column_sets_distinct H items st Hst) as (_ & HG).
    fold G in HG. apply Hgrp; now rewrite HG.
  - engine_of Hd Ht. rewrite Hne in Hd.
    destruct (mapM (normalize_point H) items) as [points|] eqn:Hm; [|discriminate].
    cbv beta iota zeta delta [bind] in Hd. apply Ok_inj in Hd. subst frag.
    destruct (mapM_nth _ _ _ Hm i it Hi) as (p & Hp & Hn).
    rewrite <- (normalize_point_label H it p Hn).
    assert (Hpos : (0 < List.length items)%nat)
      by (destruct items; [destruct i; discriminate | cbn; lia]).
    apply Nat.eqb_eq in Hshow. rewrite <- shows_label_spec in Hshow by exact Hpos.
    rewrite <- (mapM_length _ _ _ Hm) in Hshow.
    apply In_indexed in Hp.
    by_body ltac:(unfold line_elems, value_range; right; skip_left; take_left;
                  apply in_flat_map; exists (i, p); split; [exact Hp|];
                  unfold point_labels; simpl fst; rewrite Hshow; left; reflexivity).
  - engine_of Hd Ht. rewrite Hne in Hd.
    destruct (mapM (normalize_slice H) items) as [slices|] eqn:Hm; [|discriminate].
    pose proof (mapM_map _ (slice_of H) _ _ (normalize_slice_of H) Hm) as Hs.
    subst slices. cbv beta iota delta [bind] in Hd.
    rewrite Htot in Hd. cbv beta iota zeta delta [bind] in Hd. apply Ok_inj in Hd.
    subst frag.
    assert (Hp : In (slice_of H it) (map (slice_of H) items)) by now apply in_map.
    destruct (In_indexed_of_In _ _ Hp) as (i & Hi).
    unfold pie_steps.
    match goal with
    | |- context [pie_loop H ?cX ?cY ?r ?tot ?cur ?l] =>
        destruct (pie_loop_draws H cX cY r tot (slice_of H it) l i Hi Hv cur)
          as (start & Hs)
    end.
    eapply Substring_of_body;
      [ reflexivity
      | skip_left; apply in_flat_map; eexists; split; [exact Hs|];
        right; left; reflexivity
      | reflexivity
      | apply Substring_app_l, Substring_refl ].
  - engine_of Hd Ht. rewrite Hne in Hd.
    destruct (mapM (normalize_slice H) items) as [stages|] eqn:Hm; [|discriminate].
    pose proof (mapM_map _ (slice_of H) _ _ (normalize_slice_of H) Hm) as Hs.
    subst stages.
    cbv beta iota zeta delta [bind] in Hd. apply Ok_inj in Hd. subst frag.
    assert (Hp : In (slice_of H it) (map (slice_of H) items)) by now apply in_map.
    destruct (In_indexed_of_In _ _ Hp) as (i & Hi).
    by_body ltac:(unfold funnel_elems; apply in_flat_map; exists (i, slice_of H it);
                  split; [exact Hi|]; right; left; reflexivity).
  - engine_of Hd Ht. rewrite Hne in Hd.
    destruct (foldM (radar_collect H) items _) as [st|] eqn:Hst; [|discriminate].
    destruct (radar_accepted_collected H items fs st Hst Hin Hacc) as (Hdim & _).
    cbv beta iota delta [bind] in Hd.
    destruct (dimensionSet st) as [|d0 ds] eqn:Eds; [contradiction|].
    cbv beta iota zeta delta [bind] in Hd. apply Ok_inj in Hd. subst frag.
    rewrite <- Eds in *.
    destruct (In_indexed_of_In _ _ Hdim) as (i & Hi).
    by_body ltac:(skip_left; take_left; apply in_flat_map;
                  exists (i, ToString H (field "name" fs));
                  split; [exact Hi|]; right; left; reflexivity).
  - engine_of Hd Ht. rewrite Hne in Hd.
    destruct (foldM (radar_collect H) items _) as [st|] eqn:Hst; [|discriminate].
    destruct (radar_accepted_collected H items fs st Hst Hin Hacc) as (Hdim & Hgrp).
    cbv beta iota delta [bind] in Hd.
    destruct (dimensionSet st) as [|d0 ds] eqn:Eds; [contradiction|].
    cbv beta iota zeta delta [bind] in Hd. apply Ok_inj in Hd. subst frag.
    rewrite <- Eds in *.
    apply in_map_iff in Hgrp. destruct Hgrp as ((g & gd) & Hfst & Hg).
    cbn [fst] in Hfst. subst g.
    destruct (In_indexed_of_In _ _ Hg) as (i & Hi).
    by_body ltac:(skip_left; skip_left; apply in_flat_map;
                  exists (i, (ToString H (field "group" fs), gd));
                  split; [exact Hi|]; right; right; left; reflexivity).
  - engine_of Hd Ht. unfold dual_input in Hd. rewrite Hss, Hcats in Hd.
    cbv beta iota delta [bind] in Hd.
    set (inp := {| barData := series_data "column" ss;
                   lineData := series_data "line" ss; dualCategories := cats |}) in *.
    assert (frag = render_all (dual_elems H (chartArea w h) inp o)) as ->.
    { subst inp. cbn [barData lineData] in Hd.
      destruct (series_data "column" ss), (series_data "line" ss); try congruence.
      destruct Hsome; congruence. }
    apply In_nth_error in Hc. destruct Hc as (i & Hi).
    assert (Hlt : (i < List.length (dualCategories inp))%nat)
      by (apply nth_error_Some; subst inp; cbn; congruence).
    assert (Hseq : In i (seq 0 (dataLength inp)))
      by (apply in_seq; unfold dataLength; lia).
    by_body ltac:(unfold dual_elems; take_left; apply in_flat_map; exists i;
                  split; [exact Hseq|]; unfold dual_slot; skip_left;
                  subst inp; cbn [dualCategories]; rewrite Hi; left; reflexivity).
  - engine_of Hd Ht. unfold dual_input in Hd.
    assert (Hrows : exists rows,
               mapM (dual_row H) items = Ok rows /\
               frag = render_all
                        (dual_elems H (chartArea w h)
                           {| barData := map barValue rows;
                              lineData := map lineValue rows;
                              dualCategories := map row_category rows |} o)).
    { assert (Hitems : items <> []) by (destruct items; [contradiction | discriminate]).
      destruct Hleg as [Hleg|Hleg]; rewrite Hleg in Hd;
        try (destruct (series o));
        rewrite Hne in Hd;
        (destruct (mapM (dual_row H) items) as [rows|] eqn:Hm; [|discriminate]);
        exists rows; (split; [reflexivity|]);
        cbv beta iota delta [bind] in Hd; cbn [barData lineData] in Hd;
        pose proof (mapM_length _ _ _ Hm) as Hlen;
        (destruct rows as [|r rows];
         [destruct items; [congruence | discriminate Hlen]|]);
        cbn [map] in Hd |- *; congruence. }
    destruct Hrows as (rows & Hm & ->).
    apply In_nth_error in Hin. destruct Hin as (i & Hi).
    destruct (mapM_nth _ _ _ Hm i it Hi) as (r & Hr & Hrow).
    rewrite <- (dual_row_category H it r Hrow).
    assert (Hcat : nth_error (map row_category rows) i = Some (row_category r))
      by (now apply map_nth_error).
    assert (Hlt : (i < List.length (map row_category rows))%nat)
      by (apply nth_error_Some; congruence).
    match goal with
    | |- context [dual_elems H ?a ?inp o] =>
        assert (Hseq : In i (seq 0 (dataLength inp)))
          by (apply in_seq; unfold dataLength; cbn [dualCategories]; lia)
    end.
    by_body ltac:(unfold dual_elems; take_left; apply in_flat_map; exists i;
                  split; [exact Hseq|]; unfold dual_slot; skip_left;
                  cbn [dualCategories]; rewrite Hcat; left; reflexivity).
Qed.

(** C9, as the code has it.  A document the render call returns holds the
    title verbatim, with no escaping: options.title when given and not
    empty; otherwise, for a type tag that is empty or starts with an
    ASCII character, the type tag with its first letter in upper case
    followed by Chart.  It also holds verbatim every label the engine
    draws (see [drawn_label]); a label the engine does not draw, such as
    the name of a single group or the label of an unsampled line point,
    need not occur. *)
Theorem title_and_drawn_labels_verbatim (H : JsHost) (type : string) (o : Options)
        (doc : string) :
  generateSvgContent H type o = Ok doc ->
  (forall t, title o = Some t -> t <> EmptyString -> Substring t doc) /\
  (opt_str_truthy (title o) = None -> ascii_initial type ->
   Substring (toUpperCase (charAt0 type) ++ slice1 type ++ " Chart") doc) /\
  (forall s, drawn_label H type o s -> Substring s doc).
Proof.
  unfold generateSvgContent. intros Hdoc.
  destruct (dispatch H type (data_or_empty o) _ _ o) as [frag|] eqn:Hd;
    [|discriminate].
  apply Ok_inj in Hdoc. subst doc.
  split; [|split].
  - intros t Ht Hne.
    replace t with (title_of type o); [apply document_has_title|].
    unfold title_of, opt_str_truthy. rewrite Ht.
    apply String.eqb_neq in Hne. now rewrite Hne.
  - intros Hnone _.
    replace (toUpperCase (charAt0 type) ++ slice1 type ++ " Chart")
      with (title_of type o); [apply document_has_title|].
    unfold title_of. now rewrite Hnone.
  - intros s Hs. apply Substring_trans with frag.
    + exact (drawn_label_in_fragment H type o _ _ frag s Hd Hs).
    + apply document_has_fragment.
Qed.

Lemma title_and_drawn_labels_verbatim_witness :
  Substring "<b>Q&A</b>" markup_document /\ Substring "<Q1>" markup_document.
Proof.
  destruct (title_and_drawn_labels_verbatim plain_host "column" markup_request
              markup_document) as (Htitle & _ & Hlabels).
  - vm_compute. reflexivity.
  - split; [apply Htitle; [reflexivity | discriminate]|].
    apply Hlabels.
    apply (draws_category plain_host "column" markup_request
             [IObj [("category", PStr "<Q1>"); ("value", PNum (nz 10))]]
             [("category", PStr "<Q1>"); ("value", PNum (nz 10))]).
    + left. reflexivity.
    + reflexivity.
    + left. reflexivity.
    + reflexivity.
Defined.

(** C9 as stated fails: the group name Rev is a label string of the
    data, and the document of the request does not hold it, since the
    legend is drawn for more than one group only. *)
Lemma single_group_name_not_drawn :
  exists doc,
    generateSvgContent plain_host "column" (with_data single_group) = Ok doc /\
    ~ Substring "Rev" doc.
Proof.
  eexists. split; [vm_compute; reflexivity|].
  apply not_Substring. vm_compute. reflexivity.
Qed.

(** The labels of a line chart come from the items: the time of a record
    that has one and a value, else its category. *)
Example line_labels_from_items :
  exists doc,
    generateSvgContent plain_host "line"
      (with_data [IObj [("time", PStr "<Jan>"); ("value", PNum (nz 1))];
                  IObj [("category", PStr "Feb&"); ("value", PNum (nz 2))]]) = Ok doc /\
    Substring "<Jan>" doc /\ Substring "Feb&" doc.
Proof.
  eexists. split; [vm_compute; reflexivity|].
  split; apply is_substring_spec; vm_compute; reflexivity.
Qed.

(* ================================================================= *)
(** ** The two axes of the dual-axes engine *)

Lemma texts_where_app (p : elem -> bool) (l1 l2 : list elem) :
  texts_where p (l1 ++ l2) = (texts_where p l1 ++ texts_where p l2)%list.
Proof. unfold texts_where. now rewrite filter_app, flat_map_app. Qed.

Lemma texts_where_flat_map_none {A : Type} (p : elem -> bool) (f : A -> list elem)
      (l : list A) :
  (forall a, texts_where p (f a) = []) -> texts_where p (flat_map f l) = [].
Proof.
  intros Hf. induction l as [|a l IH]; [reflexivity|].
  simpl. now rewrite texts_where_app, Hf, IH.
Qed.

Lemma dual_slot_no_ticks (H : JsHost) a inp (v : string) (i : nat) :
  v = "end" \/ v = "start" ->
  texts_where (has_attr "text-anchor" v) (dual_slot H a inp i) = [].
Proof.
  intros Hv. unfold dual_slot.
  destruct (nth_error (barData inp) i) as [x|];
    [destruct (x >? nz 0)%num; [destruct (_ >? nz 20)%num|]|];
    destruct (nth_error (dualCategories inp) i);
    destruct Hv as [-> | ->]; reflexivity.
Qed.

Lemma dual_line_point_no_ticks (H : JsHost) a inp (v : string) (iv : nat * num) :
  v = "end" \/ v = "start" ->
  texts_where (has_attr "text-anchor" v) (dual_line_point H a inp iv) = [].
Proof. intros [-> | ->]; reflexivity. Qed.

Lemma dual_titles_no_ticks (H : JsHost) a (o : Options) (v : string) :
  v = "end" \/ v = "start" ->
  texts_where (has_attr "text-anchor" v) (dual_titles H a o) = [].
Proof.
  intros Hv. unfold dual_titles.
  destruct (series_title o 0), (series_title o 1), (opt_str_truthy (axisXTitle o));
    destruct Hv as [-> | ->]; reflexivity.
Qed.

(** The labels of the left axis are read off the largest bar value alone
    and those of the right axis off the largest line value alone. *)
Lemma dual_tick_labels (H : JsHost) (a : ChartArea) (inp : DualInput) (o : Options) :
  left_tick_labels (dual_elems H a inp o)
  = map (fun i => str H (Math_round (Math_max (barData inp ++ [nz 1]) / nz 5 * nn i)%num))
        (seq 0 6) /\
  right_tick_labels (dual_elems H a inp o)
  = map (fun i => toFixed H 2 (Math_max (lineData inp ++ [nz 1]) / nz 5 * nn i)%num)
        (seq 0 6).
Proof.
  unfold left_tick_labels, right_tick_labels, dual_elems.
  rewrite !texts_where_app.
  split;
    rewrite (texts_where_flat_map_none _ (dual_slot H a inp))
      by (intros; apply dual_slot_no_ticks; auto);
    rewrite (texts_where_flat_map_none _ (dual_line_point H a inp))
      by (intros; apply dual_line_point_no_ticks; auto);
    rewrite dual_titles_no_ticks by auto;
    reflexivity.
Qed.

Lemma dual_elems_of (H : JsHost) (d : jsdata) (w h : num) (o : Options)
      (inp : DualInput) (out : list elem) :
  dual_input H d o = Ok inp ->
  generateDualAxesChart_elems H d w h o = Ok out ->
  (barData inp = [] /\ lineData inp = [] /\ out = no_data) \/
  ((barData inp <> [] \/ lineData inp <> []) /\ out = dual_elems H (chartArea w h) inp o).
Proof.
  intros Hinp. unfold generateDualAxesChart_elems. rewrite Hinp.
  cbv beta iota delta [bind].
  destruct (barData inp) as [|b bs], (lineData inp) as [|v vs]; intros Hout;
    apply Ok_inj in Hout; subst out;
    [left; auto | right; split; [right; discriminate | reflexivity] ..
     | right; split; [left; discriminate | reflexivity]
     | right; split; [left; discriminate | reflexivity]].
Qed.

Lemma length_nil_iff {A : Type} (l l' : list A) :
  List.length l = List.length l' -> (l = [] <-> l' = []).
Proof. destruct l, l'; simpl; intros Hlen; split; congruence. Qed.

(** In the legacy row format the bar value is read from the fields bar
    and value, the line value from the fields line and value2. *)
Lemma dual_row_fields (H : JsHost) (fs : fields) :
  dual_row H (IObj fs)
  = Ok {| row_category :=
            ToString H (por (por (field "category" fs) (field "time" fs)) (PStr "Unknown"));
          barValue :=
            ToNumber H (por (por (field "bar" fs) (field "value" fs)) (PNum (nz 0)));
          lineValue :=
            ToNumber H (por (por (field "line" fs) (field "value2" fs)) (PNum (nz 0))) |}.
Proof. reflexivity. Qed.

(** In the series format, series lists that differ in the data of their
    line series only are read as the same bar series. *)
Lemma series_data_column_unchanged (ss1 ss2 : list Series) :
  Forall2 (fun s1 s2 => s_type s1 = s_type s2 /\
                        (s_type s1 <> "line" -> s_data s1 = s_data s2)) ss1 ss2 ->
  series_data "column" ss1 = series_data "column" ss2.
Proof.
  unfold series_data.
  induction 1 as [|s1 s2 l1 l2 [Ht Hd] _ IH]; [reflexivity|].
  simpl. rewrite <- Ht.
  destruct (String.eqb_spec (s_type s1) "column") as [Hc|_]; [|exact IH].
  apply Hd. rewrite Hc. discriminate.
Qed.

(** C4.  Let two dual-axes requests be read by the engine (from tagged
    series or from legacy rows) as the same bar series with line series
    of the same length, whatever the line values are: the tick labels of
    the left axis, all six of them, are the same in the two fragments.
    Likewise the tick labels of the right axis are the same when the line
    series agree and the bar series differ in their values only. *)
Theorem dual_axes_ticks_independent (H : JsHost) (d1 d2 : jsdata) (w1 h1 w2 h2 : num)
        (o1 o2 : Options) (inp1 inp2 : DualInput) (out1 out2 : list elem) :
  dual_input H d1 o1 = Ok inp1 ->
  dual_input H d2 o2 = Ok inp2 ->
  generateDualAxesChart_elems H d1 w1 h1 o1 = Ok out1 ->
  generateDualAxesChart_elems H d2 w2 h2 o2 = Ok out2 ->
  (barData inp1 = barData inp2 ->
   List.length (lineData inp1) = List.length (lineData inp2) ->
   left_tick_labels out1 = left_tick_labels out2) /\
  (lineData inp1 = lineData inp2 ->
   List.length (barData inp1) = List.length (barData inp2) ->
   right_tick_labels out1 = right_tick_labels out2).
Proof.
  intros Hi1 Hi2 Ho1 Ho2.
  destruct (dual_elems_of H d1 w1 h1 o1 inp1 out1 Hi1 Ho1)
    as [(Hb1 & Hl1 & ->)|(Hn1 & ->)];
    destruct (dual_elems_of H d2 w2 h2 o2 inp2 out2 Hi2 Ho2)
      as [(Hb2 & Hl2 & ->)|(Hn2 & ->)];
    split; intros Heq Hlen; try reflexivity;
    try (exfalso;
         apply length_nil_iff in Hlen;
         first [ destruct Hn1 as [Hn1|Hn1]; apply Hn1; (congruence || tauto)
               | destruct Hn2 as [Hn2|Hn2]; apply Hn2; (congruence || tauto) ]).
  - destruct (dual_tick_labels H (chartArea w1 h1) inp1 o1) as [-> _].
    destruct (dual_tick_labels H (chartArea w2 h2) inp2 o2) as [-> _].
    now rewrite Heq.
  - destruct (dual_tick_labels H (chartArea w1 h1) inp1 o1) as [_ ->].
    destruct (dual_tick_labels H (chartArea w2 h2) inp2 o2) as [_ ->].
    now rewrite Heq.
Qed.

Lemma dual_axes_ticks_independent_witness :
  exists out1 out2,
    generateDualAxesChart_elems plain_host (DArray small_line) (nz 800) (nz 600) no_options
    = Ok out1 /\
    generateDualAxesChart_elems plain_host (DArray large_line) (nz 800) (nz 600) no_options
    = Ok out2 /\
    left_tick_labels out1 = left_tick_labels out2 /\
    left_tick_labels out1 = ["0"; "50"; "100"; "150"; "200"; "250"].
Proof.
  eexists. eexists.
  split; [vm_compute; reflexivity|]. split; [vm_compute; reflexivity|].
  split; [|vm_compute; reflexivity].
  refine (proj1 (dual_axes_ticks_independent plain_host
                   (DArray small_line) (DArray large_line) (nz 800) (nz 600) (nz 800) (nz 600)
                   no_options no_options _ _ _ _ eq_refl eq_refl eq_refl eq_refl)
                eq_refl eq_refl).
Defined.

(* ================================================================= *)
(** ** Rounding errors of sums and quotients *)

Lemma b64_rel_fin (x y : Q) :
  Qpow2 (-1022) <= x -> b64 x = Fin y ->
  x * (1 - Qpow2 (-53)) <= y /\ y <= x * (1 + Qpow2 (-53)).
Proof.
  intros Hlo Hy. pose proof (Qpow2_pos (-1022)) as Hp.
  assert (Hx : 0 < x) by lra.
  destruct (b64_cases x) as [(E & _)|[(_ & r & Hr & Hb)|(Hneg & _)]]; [lra| |lra].
  rewrite Hy in Hb.
  destruct (Qle_bool (Qpow2 1024) r); [discriminate|]. injection Hb as ->.
  pose proof (Qred_correct x) as Ex.
  assert (Hx' : 0 < Qred x) by lra.
  destruct (b64_pos_bounds (Qred x) Hx') as (_ & _ & _ & Hb3).
  destruct (exponent_cases (Qred x) Hx') as [(Ee & Hn)|(_ & Hsub)]; [|lra].
  destruct (binade_spec (Qred x) Hx') as (Hbl & _).
  assert (Hs : Qpow2 (exponent (Qred x) - 53) == Qpow2 (exponent (Qred x)) * Qpow2 (-53)).
  { rewrite <- Qpow2_add. now replace (exponent (Qred x) + -53)%Z
      with (exponent (Qred x) - 53)%Z by lia. }
  assert (Hle : Qabs (Qred r - x) <= x * Qpow2 (-53)).
  { rewrite Qred_correct, Hr.
    setoid_replace (b64_pos (Qred x) - x) with (b64_pos (Qred x) - Qred x) by lra.
    apply Qle_trans with (1 := Hb3). rewrite Hs.
    apply Qmult_le_compat_r; [|apply Qlt_le_weak, Qpow2_pos].
    rewrite Ee. lra. }
  apply Qabs_Qle_condition in Hle. lra.
Qed.

Lemma b64_rel (x : Q) :
  Qpow2 (-1022) <= x -> x < Qpow2 1023 ->
  exists y, b64 x = Fin y /\
            x * (1 - Qpow2 (-53)) <= y /\ y <= x * (1 + Qpow2 (-53)).
Proof.
  intros Hlo Hup. destruct (b64_close x Hlo Hup) as (y & Hy & _).
  exists y. split; [exact Hy|]. now apply b64_rel_fin.
Qed.

Lemma Qpow2_53_small : 0 < Qpow2 (-53) /\ Qpow2 (-53) <= 1 # 1000.
Proof. split; [apply Qpow2_pos | vm_compute; discriminate]. Qed.

Lemma upow_pos (b : Q) (n : nat) : 0 < b -> 0 < upow b n.
Proof.
  intros Hb. induction n as [|n IH]; simpl; [reflexivity|].
  now apply Qmult_lt_0_compat.
Qed.

Lemma upow_nonneg (b : Q) (n : nat) : 0 <= b -> 0 <= upow b n.
Proof.
  intros Hb. induction n as [|n IH]; simpl; [discriminate|].
  now apply Qmult_le_0_compat.
Qed.

(** Bernoulli, both ways. *)
Lemma upow_lower (u : Q) (n : nat) :
  0 <= u -> u <= 1 -> 1 - inject_Z (Z.of_nat n) * u <= upow (1 - u) n.
Proof.
  intros H0 H1. induction n as [|n IH].
  - cbn [upow Z.of_nat]. change (inject_Z 0) with 0. lra.
  - cbn [upow]. rewrite Nat2Z.inj_succ, <- Z.add_1_r, inject_Z_plus.
    change (inject_Z 1) with 1. set (k := inject_Z (Z.of_nat n)) in *.
    assert (Hk : 0 <= k) by (unfold k; rewrite <- (Zle_Qle 0); lia).
    assert (Hp : 0 <= upow (1 - u) n) by (apply upow_nonneg; lra).
    nra.
Qed.

Lemma upow_upper (u : Q) (n : nat) :
  0 <= u -> 2 * inject_Z (Z.of_nat n) * u <= 1 ->
  upow (1 + u) n <= 1 + 2 * inject_Z (Z.of_nat n) * u.
Proof.
  intros H0. induction n as [|n IH]; intros Hn.
  - cbn [upow Z.of_nat]. change (inject_Z 0) with 0. lra.
  - revert Hn. cbn [upow]. rewrite Nat2Z.inj_succ, <- Z.add_1_r, inject_Z_plus.
    change (inject_Z 1) with 1. set (k := inject_Z (Z.of_nat n)) in *.
    intros Hn.
    assert (Hk : 0 <= k) by (unfold k; rewrite <- (Zle_Qle 0); lia).
    assert (Hku : 0 <= k * u) by (apply Qmult_le_0_compat; assumption).
    assert (IH' : upow (1 + u) n <= 1 + 2 * k * u) by (apply IH; nra).
    assert (Hp : 0 < upow (1 + u) n) by (apply upow_pos; lra).
    nra.
Qed.

Lemma Qsum_nonneg (qs : list Q) : Forall (Qle 0) qs -> 0 <= Qsum qs.
Proof.
  induction 1 as [|q qs Hq _ IH]; simpl; [discriminate|]. lra.
Qed.

Lemma fold_b_add_PInf (slices : list Point) (qs : list Q) :
  map value slices = map Fin qs ->
  fold_left (fun sum slice => (sum + value slice)%b64) slices PInf = PInf.
Proof.
  revert qs. induction slices as [|s l IH]; intros qs Hv; [reflexivity|].
  destruct qs as [|q qs]; [discriminate|]. injection Hv as Hs Hv.
  cbn [fold_left]. rewrite Hs. exact (IH qs Hv).
Qed.

(** The rounded sum of [n] normal values is within the factors
    (1 - 2^-53)^n and (1 + 2^-53)^n of their sum. *)
Lemma fold_b_add_error (slices : list Point) (qs : list Q) :
  map value slices = map Fin qs ->
  Forall (Qle (Qpow2 (-1022))) qs ->
  forall a T,
    0 <= a ->
    fold_left (fun sum slice => (sum + value slice)%b64) slices (Fin a) = Fin T ->
    (a + Qsum qs) * upow (1 - Qpow2 (-53)) (List.length qs) <= T /\
    T <= (a + Qsum qs) * upow (1 + Qpow2 (-53)) (List.length qs).
Proof.
  destruct Qpow2_53_small as (Hu0 & Hu1). set (u := Qpow2 (-53)) in *.
  pose proof (Qpow2_pos (-1022)) as Hm.
  assert (Hrel : forall x y, Qpow2 (-1022) <= x -> b64 x = Fin y ->
                             x * (1 - u) <= y /\ y <= x * (1 + u))
    by (exact b64_rel_fin).
  clearbody u. set (m := Qpow2 (-1022)) in *. clearbody m.
  revert qs. induction slices as [|s l IH]; intros qs Hv Hq a T Ha.
  - destruct qs; [|discriminate]. cbn [fold_left Qsum fold_right List.length upow].
    intros [= ->]. lra.
  - destruct qs as [|q qs]; [discriminate|]. injection Hv as Hs Hv.
    inversion Hq as [|? ? Hq1 Hq2]; subst.
    cbn [fold_left]. rewrite Hs.
    change (Fin a + Fin q)%b64 with (b64 (a + q)).
    destruct (b64 (a + q)) as [a'| | |] eqn:E.
    + destruct (Hrel (a + q) a') as (Hlo & Hhi); [lra | exact E|].
      intros HT. assert (Ha' : 0 <= a') by nra.
      destruct (IH qs Hv Hq2 a' T Ha' HT) as (IHlo & IHhi).
      cbn [Qsum fold_right List.length upow]. fold (Qsum qs).
      assert (HS : 0 <= Qsum qs).
      { apply Qsum_nonneg. eapply Forall_impl; [|exact Hq2]. intros x Hx.
        simpl in Hx. lra. }
      pose proof (upow_nonneg (1 - u) (List.length qs)) as Hd.
      pose proof (upow_nonneg (1 + u) (List.length qs)) as He.
      set (D := upow (1 - u) (List.length qs)) in *.
      set (E' := upow (1 + u) (List.length qs)) in *.
      assert (0 <= D) by (apply Hd; lra). assert (0 <= E') by (apply He; lra).
      split.
      * apply Qle_trans with (2 := IHlo).
        setoid_replace ((a + (q + Qsum qs)) * ((1 - u) * D))
          with (((a + q) * (1 - u) + Qsum qs * (1 - u)) * D) by ring.
        apply Qmult_le_compat_r; [nra | assumption].
      * apply Qle_trans with (1 := IHhi).
        setoid_replace ((a + (q + Qsum qs)) * ((1 + u) * E'))
          with (((a + q) * (1 + u) + Qsum qs * (1 + u)) * E') by ring.
        apply Qmult_le_compat_r; [nra | assumption].
    + rewrite (fold_b_add_PInf l qs Hv). discriminate.
    + destruct (b64_nonneg (a + q)) as [E'|(y & E' & _)]; [lra | |]; congruence.
    + destruct (b64_nonneg (a + q)) as [E'|(y & E' & _)]; [lra | |]; congruence.
Qed.

(** A rounded product or quotient in the normal range. *)
Lemma b_mul_rel (y c : Q) :
  Qpow2 (-1022) <= y * c -> y * c < Qpow2 1023 ->
  exists z, (Fin y * Fin c)%b64 = Fin z /\
            y * c * (1 - Qpow2 (-53)) <= z /\ z <= y * c * (1 + Qpow2 (-53)).
Proof. intros Hlo Hhi. exact (b64_rel (y * c) Hlo Hhi). Qed.

Lemma b_div_rel (q T : Q) :
  0 < T -> Qpow2 (-1022) <= q / T -> q / T < Qpow2 1023 ->
  exists z, (Fin q / Fin T)%b64 = Fin z /\
            q / T * (1 - Qpow2 (-53)) <= z /\ z <= q / T * (1 + Qpow2 (-53)).
Proof.
  intros HT Hlo Hhi. unfold b_div, num_div. rewrite (Qeq_bool_false T HT).
  exact (b64_rel (q / T) Hlo Hhi).
Qed.

Lemma Qpow2_bounds : Qpow2 (-1022) <= 1 # 1000 /\ 1000 <= Qpow2 1023.
Proof. split; vm_compute; discriminate. Qed.

(** A quotient in the normal range and at most 2, times a constant
    between 2 and 100, or times 2 and then times PI. *)
Lemma scaled_ratio_rel (q T c : Q) :
  0 < T -> Qpow2 (-1022) <= q / T -> q / T <= 2 ->
  2 <= c -> c <= 100 ->
  exists z, (Fin q / Fin T * Fin c)%b64 = Fin z /\
            q / T * c * upow (1 - Qpow2 (-53)) 3 <= z /\
            z <= q / T * c * upow (1 + Qpow2 (-53)) 3.
Proof.
  destruct Qpow2_53_small as (Hu0 & Hu1). destruct Qpow2_bounds as (Hm1 & Hm2).
  pose proof (Qpow2_pos (-1022)) as Hm.
  intros HT Hlo Hhi Hc1 Hc2.
  destruct (b_div_rel q T HT Hlo) as (y1 & -> & Hy1l & Hy1h); [lra|].
  assert (Hmul : forall y c, Qpow2 (-1022) <= y * c -> y * c < Qpow2 1023 ->
            exists z, (Fin y * Fin c)%b64 = Fin z /\
                      y * c * (1 - Qpow2 (-53)) <= z /\ z <= y * c * (1 + Qpow2 (-53)))
    by (exact b_mul_rel).
  set (u := Qpow2 (-53)) in *. set (m := Qpow2 (-1022)) in *.
  set (M := Qpow2 1023) in *. clearbody u m M.
  set (x := q / T) in *. clearbody x.
  assert (Hxm : 0 < x) by lra.
  assert (Hy1 : m * (999 # 1000) <= y1 /\ y1 <= 2 * (1001 # 1000)) by nra.
  destruct (Hmul y1 c) as (y2 & -> & Hy2l & Hy2h); [nra | nra |].
  exists y2. split; [reflexivity|]. cbn [upow].
  assert (H1 : x * c * (1 - u) <= y1 * c) by nra.
  assert (H2 : y1 * c <= x * c * (1 + u)) by nra.
  assert (H0 : 0 <= x * c) by nra.
  split.
  - apply Qle_trans with (y1 * c * (1 - u)); [|exact Hy2l].
    apply Qle_trans with (x * c * (1 - u) * (1 - u)).
    + setoid_replace (x * c * ((1 - u) * ((1 - u) * ((1 - u) * 1))))
        with (x * c * (1 - u) * (1 - u) * (1 - u)) by ring.
      rewrite <- (Qmult_1_r (x * c * (1 - u) * (1 - u))) at 2.
      apply Qmult_le_compat_nonneg; split; try lra.
      apply Qmult_le_0_compat; [|lra]. apply Qmult_le_0_compat; lra.
    + apply Qmult_le_compat_r; lra.
  - apply Qle_trans with (y1 * c * (1 + u)); [exact Hy2h|].
    apply Qle_trans with (x * c * (1 + u) * (1 + u)).
    + apply Qmult_le_compat_r; lra.
    + setoid_replace (x * c * ((1 + u) * ((1 + u) * ((1 + u) * 1))))
        with (x * c * (1 + u) * (1 + u) * (1 + u)) by ring.
      rewrite <- (Qmult_1_r (x * c * (1 + u) * (1 + u))) at 1.
      apply Qmult_le_compat_nonneg; split; try lra.
      apply Qmult_le_0_compat; [|lra]. apply Qmult_le_0_compat; lra.
Qed.

Lemma slice_ratio_rel (q T : Q) :
  0 < T -> Qpow2 (-1022) <= q / T -> q / T <= 2 ->
  exists z, slice_ratio (Fin T) (Fin q) = Fin z /\
            q / T * 100 * upow (1 - Qpow2 (-53)) 3 <= z /\
            z <= q / T * 100 * upow (1 + Qpow2 (-53)) 3.
Proof.
  intros HT Hlo Hhi. apply (scaled_ratio_rel q T (inject_Z 100) HT Hlo Hhi);
    vm_compute; discriminate.
Qed.

Lemma slice_angle_rel (q T : Q) :
  0 < T -> Qpow2 (-1022) <= q / T -> q / T <= 2 ->
  exists z, slice_angle (Fin T) (Fin q) = Fin z /\
            q / T * (2 * PI_Q) * upow (1 - Qpow2 (-53)) 3 <= z /\
            z <= q / T * (2 * PI_Q) * upow (1 + Qpow2 (-53)) 3.
Proof.
  destruct Qpow2_53_small as (Hu0 & Hu1). destruct Qpow2_bounds as (Hm1 & Hm2).
  pose proof (Qpow2_pos (-1022)) as Hm.
  intros HT Hlo Hhi. unfold slice_angle.
  destruct (b_div_rel q T HT Hlo) as (y1 & -> & Hy1l & Hy1h); [lra|].
  assert (Hmul : forall y c, Qpow2 (-1022) <= y * c -> y * c < Qpow2 1023 ->
            exists z, (Fin y * Fin c)%b64 = Fin z /\
                      y * c * (1 - Qpow2 (-53)) <= z /\ z <= y * c * (1 + Qpow2 (-53)))
    by (exact b_mul_rel).
  assert (Hpi : 3 <= PI_Q /\ PI_Q <= 4) by (split; vm_compute; discriminate).
  unfold Math_PI, nz. fold PI_Q. change (inject_Z 2) with 2.
  set (u := Qpow2 (-53)) in *. set (m := Qpow2 (-1022)) in *.
  set (M := Qpow2 1023) in *. set (p := PI_Q) in *. clearbody u m M p.
  set (x := q / T) in *. clearbody x.
  assert (Hxm : 0 < x) by lra.
  assert (Hy1 : m * (999 # 1000) <= y1 /\ y1 <= 2 * (1001 # 1000)) by nra.
  destruct (Hmul y1 2) as (y2 & -> & Hy2l & Hy2h); [nra | nra |].
  assert (Hy2 : m <= y2 /\ y2 <= 5) by nra.
  destruct (Hmul y2 p) as (y3 & -> & Hy3l & Hy3h); [nra | nra |].
  exists y3. split; [reflexivity|]. cbn [upow].
  assert (H0 : 0 <= x) by lra.
  assert (A1 : x * 2 * (1 - u) <= y1 * 2) by nra.
  assert (A2 : x * 2 * (1 - u) * (1 - u) <= y2).
  { apply Qle_trans with (y1 * 2 * (1 - u)); [|exact Hy2l].
    apply Qmult_le_compat_r; lra. }
  assert (A3 : x * 2 * (1 - u) * (1 - u) * p * (1 - u) <= y3).
  { apply Qle_trans with (y2 * p * (1 - u)); [|exact Hy3l].
    apply Qmult_le_compat_r; [|lra]. apply Qmult_le_compat_r; lra. }
  assert (B1 : y1 * 2 <= x * 2 * (1 + u)) by nra.
  assert (B2 : y2 <= x * 2 * (1 + u) * (1 + u)).
  { apply Qle_trans with (y1 * 2 * (1 + u)); [exact Hy2h|].
    apply Qmult_le_compat_r; lra. }
  assert (B3 : y3 <= x * 2 * (1 + u) * (1 + u) * p * (1 + u)).
  { apply Qle_trans with (y2 * p * (1 + u)); [exact Hy3h|].
    apply Qmult_le_compat_r; [|lra]. apply Qmult_le_compat_r; lra. }
  split.
  - setoid_replace (x * (2 * p) * ((1 - u) * ((1 - u) * ((1 - u) * 1))))
      with (x * 2 * (1 - u) * (1 - u) * p * (1 - u)) by ring.
    exact A3.
  - setoid_replace (x * (2 * p) * ((1 + u) * ((1 + u) * ((1 + u) * 1))))
      with (x * 2 * (1 + u) * (1 + u) * p * (1 + u)) by ring.
    exact B3.
Qed.

(** The sum of values each of which is within two factors of its share
    is within the same factors of the whole. *)
Lemma Qsum_between (f : Q -> num) (lo hi : Q) (qs : list Q) :
  Forall (fun q => exists z, f q = Fin z /\ q * lo <= z /\ z <= q * hi) qs ->
  exists zs, map f qs = map Fin zs /\
             Qsum qs * lo <= Qsum zs /\ Qsum zs <= Qsum qs * hi.
Proof.
  induction 1 as [|q qs (z & Hz & Hl & Hh) _ (zs & Hzs & IHl & IHh)].
  - exists []. split; [reflexivity|]. simpl. lra.
  - exists (z :: zs). split; [simpl; now rewrite Hz, Hzs|]. simpl.
    fold (Qsum qs) (Qsum zs). lra.
Qed.

Lemma Qmult_le_l' (x y z : Q) : 0 <= z -> x <= y -> z * x <= z * y.
Proof. intros Hz Hxy. rewrite !(Qmult_comm z). now apply Qmult_le_compat_r. Qed.

(** From the error of the total and of the shares to the error of the
    sum of the shares. *)
Lemma share_sum_bound (S T c u k A : Q) :
  0 < S -> 0 < T -> 0 < c -> 0 <= u -> u <= 1 # 1000 -> 0 <= k -> k * u <= 1 # 8 ->
  S * (1 - k * u) <= T -> T <= S * (1 + 2 * k * u) ->
  S * (c * upow (1 - u) 3) <= A * T -> A * T <= S * (c * upow (1 + u) 3) ->
  Qabs (A - c) <= c * (2 * (k + 3) * u).
Proof.
  intros HS HT Hc Hu0 Hu1 Hk Hku Hlo Hhi Hal Hah. cbn [upow] in Hal, Hah.
  assert (Hku0 : 0 <= k * u) by (apply Qmult_le_0_compat; assumption).
  assert (HA : 0 <= A).
  { destruct (Qlt_le_dec A 0) as [Hn|]; [|assumption]. exfalso.
    assert (0 < S * (c * ((1 - u) * ((1 - u) * ((1 - u) * 1))))).
    { apply Qmult_lt_0_compat; [assumption|]. apply Qmult_lt_0_compat; [assumption|].
      repeat (apply Qmult_lt_0_compat; try lra). }
    nra. }
  assert (E3 : (1 + u) * ((1 + u) * ((1 + u) * 1)) <= 1 + 4 * u) by nra.
  assert (D3 : 1 - 3 * u <= (1 - u) * ((1 - u) * ((1 - u) * 1))) by nra.
  (* upper *)
  assert (U1 : A * (S * (1 - k * u)) <= S * (c * (1 + 4 * u))).
  { apply Qle_trans with (A * T); [apply Qmult_le_l'; try lra|].
    apply Qle_trans with (1 := Hah). apply Qmult_le_l'; [lra|].
    apply Qmult_le_l'; try lra. }
  assert (U2 : A * (1 - k * u) <= c * (1 + 4 * u)).
  { apply (Qmult_le_l _ _ S HS). lra. }
  assert (L1 : S * (c * (1 - 3 * u)) <= A * (S * (1 + 2 * k * u))).
  { apply Qle_trans with (A * T); [|apply Qmult_le_l'; try lra].
    apply Qle_trans with (2 := Hal). apply Qmult_le_l'; [lra|].
    apply Qmult_le_l'; try lra. }
  assert (L2 : c * (1 - 3 * u) <= A * (1 + 2 * k * u)).
  { apply (Qmult_le_l _ _ S HS). lra. }
  apply Qabs_Qle_condition. split.
  - (* c (1 - 2 (k+3) u) <= A *)
    assert (c * (1 - 2 * (k + 3) * u) * (1 + 2 * k * u) <= c * (1 - 3 * u)).
    { setoid_replace (c * (1 - 2 * (k + 3) * u) * (1 + 2 * k * u))
        with (c * ((1 - 2 * (k + 3) * u) * (1 + 2 * k * u))) by ring.
      apply Qmult_le_l'; [lra|]. nra. }
    assert (Hpos : 0 < 1 + 2 * k * u) by lra.
    apply (Qmult_le_r _ _ (1 + 2 * k * u) Hpos). lra.
  - assert (c * (1 + 4 * u) <= (c + c * (2 * (k + 3) * u)) * (1 - k * u)).
    { setoid_replace ((c + c * (2 * (k + 3) * u)) * (1 - k * u))
        with (c * ((1 + 2 * (k + 3) * u) * (1 - k * u))) by ring.
      apply Qmult_le_l'; [lra|]. nra. }
    assert (Hpos : 0 < 1 - k * u) by lra.
    apply (Qmult_le_r _ _ (1 - k * u) Hpos). lra.
Qed.

Lemma In_le_Qsum (q : Q) (qs : list Q) :
  Forall (Qle 0) qs -> In q qs -> q <= Qsum qs.
Proof.
  induction 1 as [|x qs Hx Hall IH]; [contradiction|].
  pose proof (Qsum_nonneg qs Hall) as HS. simpl. fold (Qsum qs).
  intros [->|Hin]; [lra|]. specialize (IH Hin). lra.
Qed.

Lemma no_underflow_values (T : Q) (slices : list Point) :
  Forall (no_underflow T) slices ->
  exists qs, map value slices = map Fin qs /\
             Forall (fun q => Qpow2 (-1022) <= q /\ Qpow2 (-1022) <= q / T) qs.
Proof.
  induction 1 as [|s l (q & Hq & H1 & H2) _ (qs & Hqs & Hall)].
  - exists []. split; constructor.
  - exists (q :: qs). split; [simpl; congruence | now constructor].
Qed.

(** The sums of the rounded angles and of the rounded ratios. *)
Lemma pie_sums (slices : list Point) (T : Q) :
  pie_total slices = Fin T -> 0 < T ->
  Forall (no_underflow T) slices ->
  (Z.of_nat (List.length slices) <= 2 ^ 32)%Z ->
  exists angles ratios,
    map (fun s => slice_angle (Fin T) (value s)) slices = map Fin angles /\
    Qabs (Qsum angles - 2 * PI_Q) <= 2 * PI_Q * pie_epsilon (List.length slices) /\
    map (fun s => slice_ratio (Fin T) (value s)) slices = map Fin ratios /\
    Qabs (Qsum ratios - 100) <= 100 * pie_epsilon (List.length slices).
Proof.
  intros HT HTpos Hno Hlen.
  destruct (no_underflow_values T slices Hno) as (qs & Hv & Hq).
  destruct Qpow2_53_small as (Hu0 & Hu1).
  pose proof (Qpow2_pos (-1022)) as Hm.
  assert (Hn : List.length qs = List.length slices)
    by (rewrite <- (length_map Fin qs), <- Hv; apply length_map).
  assert (Hq1 : Forall (Qle (Qpow2 (-1022))) qs)
    by (eapply Forall_impl; [|exact Hq]; intros x Hx; apply Hx).
  assert (Hq0 : Forall (Qle 0) qs)
    by (eapply Forall_impl; [|exact Hq1]; intros x Hx;
        apply Qle_trans with (2 := Hx); apply Qlt_le_weak, Hm).
  destruct (fold_b_add_error slices qs Hv Hq1 0 T) as (Hlo & Hhi);
    [lra | exact HT|].
  rewrite Hn in Hlo, Hhi.
  set (n := List.length slices) in *. set (k := inject_Z (Z.of_nat n)).
  assert (Hk0 : 0 <= k) by (unfold k; rewrite <- (Zle_Qle 0); lia).
  assert (Hk1 : k <= inject_Z (2 ^ 32)) by (unfold k; rewrite <- Zle_Qle; exact Hlen).
  assert (Hku : k * Qpow2 (-53) <= 1 # 8).
  { apply Qle_trans with (inject_Z (2 ^ 32) * Qpow2 (-53)).
    - apply Qmult_le_compat_r; lra.
    - vm_compute. discriminate. }
  pose proof (upow_lower (Qpow2 (-53)) n) as Hd.
  pose proof (upow_upper (Qpow2 (-53)) n) as He. fold k in Hd, He.
  assert (Hp2 : 2 * Qpow2 (-53) == Qpow2 (-52)) by apply (Qpow2_pred (-52)).
  assert (Heps : pie_epsilon n == 2 * (k + 3) * Qpow2 (-53)).
  { unfold pie_epsilon. rewrite inject_Z_plus. fold k. change (inject_Z 3) with 3.
    rewrite <- Hp2. ring. }
  pose proof (Qsum_nonneg qs Hq0) as HS0.
  revert Hlo Hhi Hd He Heps Hku Hu0 Hu1.
  set (u := Qpow2 (-53)). set (S := Qsum qs) in *.
  set (D := upow (1 - u) n). set (E := upow (1 + u) n).
  intros Hlo Hhi Hd He Heps Hku Hu0 Hu1.
  rewrite Qplus_0_l in Hlo, Hhi.
  assert (Hd' : 1 - k * u <= D) by (apply Hd; lra).
  assert (He' : E <= 1 + 2 * k * u) by (apply He; lra).
  assert (HSpos : 0 < S).
  { destruct (Qlt_le_dec 0 S) as [|Hle]; [assumption|]. exfalso.
    assert (S == 0) by lra.
    assert (S * E == 0) by (rewrite H; ring). lra. }
  assert (HloT : S * (1 - k * u) <= T).
  { apply Qle_trans with (2 := Hlo). apply Qmult_le_l'; lra. }
  assert (HhiT : T <= S * (1 + 2 * k * u)).
  { apply Qle_trans with (1 := Hhi). apply Qmult_le_l'; lra. }
  assert (Hratio : Forall (fun q => 0 < T /\ Qpow2 (-1022) <= q / T /\ q / T <= 2) qs).
  { apply Forall_forall. intros q Hin.
    pose proof (In_le_Qsum q qs Hq0 Hin) as HqS. fold S in HqS.
    rewrite Forall_forall in Hq. destruct (Hq q Hin) as (_ & Hr).
    split; [assumption|]. split; [assumption|].
    apply Qle_shift_div_r; [assumption|]. nra. }
  assert (Hshare : forall (f : Q -> num) (c : Q),
             0 < c ->
             (forall q, 0 < T -> Qpow2 (-1022) <= q / T -> q / T <= 2 ->
                        exists z, f q = Fin z /\
                                  q / T * c * upow (1 - u) 3 <= z /\
                                  z <= q / T * c * upow (1 + u) 3) ->
             exists zs, map f qs = map Fin zs /\
                        Qabs (Qsum zs - c) <= c * pie_epsilon n).
  { intros f c Hc Hf.
    destruct (Qsum_between f (c * upow (1 - u) 3 / T) (c * upow (1 + u) 3 / T) qs)
      as (zs & Hzs & Hl & Hh).
    { eapply Forall_impl; [|exact Hratio]. intros q (H1 & H2 & H3).
      destruct (Hf q H1 H2 H3) as (z & Hz & Hzl & Hzh).
      exists z. split; [exact Hz|]. split.
      - setoid_replace (q * (c * upow (1 - u) 3 / T))
          with (q / T * c * upow (1 - u) 3) by (field; lra). exact Hzl.
      - setoid_replace (q * (c * upow (1 + u) 3 / T))
          with (q / T * c * upow (1 + u) 3) by (field; lra). exact Hzh. }
    exists zs. split; [exact Hzs|]. fold S in Hl, Hh. rewrite Heps.
    apply (share_sum_bound S T c u k (Qsum zs)); try assumption; try lra.
    - apply Qle_trans with (Qsum zs * T).
      2: apply Qle_refl.
      apply Qle_trans with (S * (c * upow (1 - u) 3 / T) * T).
      + setoid_replace (S * (c * upow (1 - u) 3 / T) * T)
          with (S * (c * upow (1 - u) 3)) by (field; lra). apply Qle_refl.
      + apply Qmult_le_compat_r; lra.
    - apply Qle_trans with (S * (c * upow (1 + u) 3 / T) * T).
      + apply Qmult_le_compat_r; lra.
      + setoid_replace (S * (c * upow (1 + u) 3 / T) * T)
          with (S * (c * upow (1 + u) 3)) by (field; lra). apply Qle_refl. }
  destruct (Hshare (fun q => slice_angle (Fin T) (Fin q)) (2 * PI_Q))
    as (angles & Ha & Hab); [reflexivity | intros q; apply slice_angle_rel |].
  destruct (Hshare (fun q => slice_ratio (Fin T) (Fin q)) 100)
    as (ratios & Hr & Hrb); [reflexivity | intros q; apply slice_ratio_rel |].
  exists angles, ratios.
  assert (Hmap : forall g : num -> num,
             map (fun s => g (value s)) slices = map (fun q => g (Fin q)) qs).
  { intros g. rewrite <- (map_map value g), Hv, map_map. reflexivity. }
  split; [rewrite (Hmap (slice_angle (Fin T))); exact Ha|].
  split; [exact Hab|].
  split; [rewrite (Hmap (slice_ratio (Fin T))); exact Hr | exact Hrb].
Qed.

(* ================================================================= *)
(** ** The angles and the sectors of the pie *)

Lemma positive_not_skipped (s : Point) :
  positive_value s -> (value s <=? nz 0)%num = false.
Proof. intros (q & -> & Hq). apply Qle_bool_false. exact Hq. Qed.

Lemma sweep_length (total start : num) (l : list Point) :
  List.length (sweep total start l) = List.length l.
Proof.
  revert start. induction l as [|s l IH]; intros start; simpl; [reflexivity|].
  now rewrite IH.
Qed.

(** When every slice has a positive value the loop draws every slice, in
    input order, each starting where the one before ended. *)
Lemma pie_loop_sweep (H : JsHost) (cX cY r total : num) (l : list Point) :
  Forall positive_value l ->
  forall (k : nat) (cur : num),
    pie_loop H cX cY r total cur (combine (seq k (List.length l)) l)
    = map (fun isa : nat * (Point * num) =>
             pie_step H cX cY r total (snd (snd isa)) (fst isa) (fst (snd isa)))
          (combine (seq k (List.length l)) (combine l (sweep total cur l))).
Proof.
  induction 1 as [|s l Hs _ IH]; intros k cur; [reflexivity|].
  cbn [List.length seq combine sweep pie_loop map fst snd].
  rewrite (positive_not_skipped s Hs). f_equal. apply IH.
Qed.

Lemma filter_flat_map {A B : Type} (P : B -> bool) (f : A -> list B) (l : list A) :
  filter P (flat_map f l) = flat_map (fun x => filter P (f x)) l.
Proof.
  induction l as [|x l IH]; [reflexivity|].
  cbn [flat_map]. now rewrite filter_app, IH.
Qed.

Lemma map_flat_map {A B C : Type} (g : B -> C) (f : A -> list B) (l : list A) :
  map g (flat_map f l) = flat_map (fun x => map g (f x)) l.
Proof.
  induction l as [|x l IH]; [reflexivity|].
  cbn [flat_map]. now rewrite map_app, IH.
Qed.

Lemma flat_map_nil {A B : Type} (f : A -> list B) (l : list A) :
  (forall x, f x = []) -> flat_map f l = [].
Proof.
  intros Hf. induction l as [|x l IH]; [reflexivity|].
  cbn [flat_map]. now rewrite Hf, IH.
Qed.

Lemma flat_map_single {A B : Type} (f : A -> list B) (g : A -> B) (l : list A) :
  (forall x, f x = [g x]) -> flat_map f l = map g l.
Proof.
  intros Hf. induction l as [|x l IH]; [reflexivity|].
  cbn [flat_map map]. now rewrite Hf, IH.
Qed.

Lemma pie_step_paths (H : JsHost) (cX cY r total a0 : num) (i : nat) (s : Point) :
  filter (is_tag "path") (ps_shapes (pie_step H cX cY r total a0 i s))
  = [sector H cX cY r a0 (a0 + slice_angle total (value s))%b64
            (slice_angle total (value s) >? Math_PI)%b64 (color_at pie_colors i)] /\
  filter (is_tag "path") (ps_legend (pie_step H cX cY r total a0 i s)) = [].
Proof.
  split; [|reflexivity].
  unfold pie_step. cbn [ps_shapes].
  change (sliceAngle_of total (value s)) with (slice_angle total (value s)).
  destruct (slice_angle total (value s) >? b64 (1 # 5))%b64; reflexivity.
Qed.

Lemma pie_step_percentages (H : JsHost) (cX cY r total a0 : num) (i : nat) (s : Point) :
  map body (filter is_percentage (ps_shapes (pie_step H cX cY r total a0 i s)))
  = (if (slice_angle total (value s) >? b64 (1 # 5))%b64
     then [Some (toFixed H 1 (slice_ratio total (value s)) ++ "%")] else []) /\
  filter is_percentage (ps_legend (pie_step H cX cY r total a0 i s)) = [].
Proof.
  split; [|reflexivity].
  unfold pie_step. cbn [ps_shapes].
  change (sliceAngle_of total (value s)) with (slice_angle total (value s)).
  destruct (slice_angle total (value s) >? b64 (1 # 5))%b64; reflexivity.
Qed.

Lemma percentage_labels_combine (H : JsHost) (total : num) (l : list Point) :
  forall (k : nat) (cur : num),
    flat_map (fun isa : nat * (Point * num) =>
                if (slice_angle total (value (fst (snd isa))) >? b64 (1 # 5))%b64
                then [Some (toFixed H 1 (slice_ratio total (value (fst (snd isa)))) ++ "%")]
                else [])
             (combine (seq k (List.length l)) (combine l (sweep total cur l)))
    = percentage_labels H total l.
Proof.
  unfold percentage_labels.
  induction l as [|s l IH]; intros k cur; [reflexivity|].
  cbn [List.length seq combine sweep flat_map filter fst snd].
  rewrite IH.
  destruct (slice_angle total (value s) >? b64 (1 # 5))%b64; reflexivity.
Qed.

Lemma num_gt_not_le (a : num) : (a >? nz 0)%num = true -> (a <=? nz 0)%num = false.
Proof.
  destruct a as [q| | |]; cbn; try discriminate; try reflexivity.
  unfold Qlt_bool. now intros ->%negb_true_iff.
Qed.

Lemma map_ext_flat {A B C : Type} (f : A -> list B) (g : C -> A) (l : list C) :
  flat_map f (map g l) = flat_map (fun x => f (g x)) l.
Proof. induction l as [|x l IH]; [reflexivity|]. cbn [map flat_map]. now rewrite IH. Qed.

(** What the pie engine draws when every slice has a positive value. *)
Lemma pie_draws_sectors (H : JsHost) (w h total : num) (slices : list Point) :
  Forall positive_value slices ->
  let steps := pie_loop H (w / nz 2)%b64 (h / nz 2 + nz 20)%b64
                        (Math_min [w; h] / nz 4)%b64 total
                        (- Math_PI / nz 2)%b64 (indexed slices) in
  let out := (flat_map ps_shapes steps ++ flat_map ps_legend steps)%list in
  filter (is_tag "path") out = sectors H w h total slices /\
  map body (filter is_percentage out) = percentage_labels H total slices.
Proof.
  intros Hpos steps out. subst out steps. unfold indexed.
  rewrite (pie_loop_sweep H _ _ _ total slices Hpos).
  rewrite !filter_app, !filter_flat_map, !map_ext_flat.
  split.
  - rewrite (flat_map_nil (fun x => filter (is_tag "path") (ps_legend _)))
      by (intros x; apply pie_step_paths).
    rewrite app_nil_r. unfold sectors, indexed.
    rewrite length_combine, sweep_length, Nat.min_id.
    rewrite (flat_map_single _
               (fun isa : nat * (Point * num) =>
                  sector H (w / nz 2)%b64 (h / nz 2 + nz 20)%b64
                         (Math_min [w; h] / nz 4)%b64 (snd (snd isa))
                         (snd (snd isa) + slice_angle total (value (fst (snd isa))))%b64
                         (slice_angle total (value (fst (snd isa))) >? Math_PI)%b64
                         (color_at pie_colors (fst isa))))
      by (intros x; apply pie_step_paths).
    apply map_ext. intros (i & s & a0). reflexivity.
  - rewrite (flat_map_nil (fun x => filter is_percentage (ps_legend _)))
      by (intros x; apply pie_step_percentages).
    rewrite app_nil_r.
    rewrite <- (percentage_labels_combine H total slices 0 (- Math_PI / nz 2)%b64).
    rewrite map_flat_map. apply flat_map_ext. intros x. apply pie_step_percentages.
Qed.

(** C6, as the code has it in binary64.  For a pie input without null,
    all of whose slices (category and value of a record that has both,
    otherwise Unknown and the item as a number) have a positive value and whose rounded total is above 0, the
    engine draws one sector per slice, in input order: the first starts
    at -PI/2, each next one where the one before ended, each sweeps its
    own angle (value / total) * 2 * PI in the direction of the sweep flag
    1, clockwise; the percentage labels print the ratios
    (value / total) * 100 of the slices whose angle is above 0.2.  When
    moreover the total is finite, no value and no ratio is below 2^-1022
    and there are at most 2^32 slices, the angles add up to 2 * PI and
    the ratios to 100 within the relative error (n + 3) * 2^-52, for [n]
    slices. *)
Theorem pie_angles_fill_the_circle (H : JsHost) (items : list item)
        (w h : num) (o : Options) :
  Forall not_null items ->
  let slices := map (slice_of H) items in
  Forall positive_value slices ->
  (pie_total slices >? nz 0)%num = true ->
  exists out,
    generatePieChart_elems H (DArray items) w h o = Ok out /\
    filter (is_tag "path") out = sectors H w h (pie_total slices) slices /\
    map body (filter is_percentage out) = percentage_labels H (pie_total slices) slices /\
    forall T,
      pie_total slices = Fin T ->
      Forall (no_underflow T) slices ->
      (Z.of_nat (List.length slices) <= 2 ^ 32)%Z ->
      exists angles ratios,
        map (fun s => slice_angle (Fin T) (value s)) slices = map Fin angles /\
        Qabs (Qsum angles - 2 * PI_Q) <= 2 * PI_Q * pie_epsilon (List.length slices) /\
        map (fun s => slice_ratio (Fin T) (value s)) slices = map Fin ratios /\
        Qabs (Qsum ratios - 100) <= 100 * pie_epsilon (List.length slices).
Proof.
  intros Hnn slices Hpos Htot.
  pose proof (normalize_slices_of H items Hnn) as Hm. fold slices in Hm.
  assert (Hne : items <> []).
  { intros E. subst slices. rewrite E in Htot. discriminate. }
  pose proof (pie_draws_sectors H w h (pie_total slices) slices Hpos) as Hdraw.
  cbv zeta in Hdraw. eexists. split; [|split; [apply Hdraw | split; [apply Hdraw|]]].
  - unfold generatePieChart_elems.
    destruct items as [|it items]; [congruence|].
    cbn [nonempty_array]. rewrite Hm. cbv beta iota delta [bind].
    rewrite (num_gt_not_le _ Htot). reflexivity.
  - intros T HT Hno Hlen. apply pie_sums; try assumption.
    rewrite HT in Htot. cbn in Htot. unfold Qlt_bool in Htot.
    apply negb_true_iff in Htot. now apply Qle_bool_false_lt in Htot.
Qed.

Lemma pie_angles_fill_the_circle_witness :
  exists out,
    generatePieChart_elems plain_host (DArray devices) (nz 800) (nz 600) no_options
    = Ok out /\
    filter (is_tag "path") out
    = sectors plain_host (nz 800) (nz 600) (nz 90) device_slices /\
    map body (filter is_percentage out)
    = percentage_labels plain_host (nz 90) device_slices /\
    exists angles ratios,
      map (fun s => slice_angle (nz 90) (value s)) device_slices = map Fin angles /\
      Qabs (Qsum angles - 2 * PI_Q) <= 2 * PI_Q * pie_epsilon 3 /\
      map (fun s => slice_ratio (nz 90) (value s)) device_slices = map Fin ratios /\
      Qabs (Qsum ratios - 100) <= 100 * pie_epsilon 3.
Proof.
  destruct (pie_angles_fill_the_circle plain_host devices (nz 800) (nz 600) no_options)
    as (out & Hout & Hpaths & Hlabels & Hsums).
  - repeat constructor; discriminate.
  - repeat constructor; eexists; (split; [reflexivity|]); reflexivity.
  - vm_compute. reflexivity.
  - exists out. split; [exact Hout|]. split; [exact Hpaths|]. split; [exact Hlabels|].
    apply (Hsums (inject_Z 90)).
    + vm_compute. reflexivity.
    + repeat constructor; eexists; (split; [reflexivity|]); split; vm_compute;
        discriminate.
    + vm_compute. discriminate.
Defined.

(** C6 as stated fails in binary64: two slices of value 2^1023 are
    positive and their total, which overflows to Infinity, is above 0;
    the pie is drawn, but every angle (value / total) * 2 * PI and every
    ratio (value / total) * 100 is 0, so the angles add up to 0, not to
    2 * PI, and both sectors start and end at -PI/2. *)
Lemma pie_angles_vanish_on_overflow :
  Forall not_null overflowing /\
  map (slice_of plain_host) overflowing = overflowing_slices /\
  Forall positive_value overflowing_slices /\
  pie_total overflowing_slices = PInf /\
  map (fun s => slice_angle (pie_total overflowing_slices) (value s)) overflowing_slices
  = [nz 0; nz 0] /\
  map (fun s => slice_ratio (pie_total overflowing_slices) (value s)) overflowing_slices
  = [nz 0; nz 0] /\
  exists out,
    generatePieChart_elems plain_host (DArray overflowing) (nz 800) (nz 600) no_options
    = Ok out /\
    filter (is_tag "path") out
    = [sector plain_host (nz 400) (nz 320) (nz 150)
              (- Math_PI / nz 2)%b64 (- Math_PI / nz 2)%b64 false "#4285f4";
       sector plain_host (nz 400) (nz 320) (nz 150)
              (- Math_PI / nz 2)%b64 (- Math_PI / nz 2)%b64 false "#ea4335"].
Proof.
  split; [repeat constructor; discriminate|].
  split; [reflexivity|].
  split; [repeat constructor; eexists; (split; [reflexivity|]); reflexivity|].
  split; [vm_compute; reflexivity|].
  split; [vm_compute; reflexivity|].
  split; [vm_compute; reflexivity|].
  eexists. split; vm_compute; reflexivity.
Qed.

(** The percentages of the example: 50.0, 33.3 and 16.7 in that order. *)
Example pie_example_percentages :
  percentage_labels plain_host (pie_total device_slices) device_slices
  = [Some "50.0%"; Some "33.3%"; Some "16.7%"].
Proof. vm_compute. reflexivity. Qed.

(* ================================================================= *)
(** ** The stages of the funnel *)

(** What one turn of the loop adds, by kind of element. *)
Lemma funnel_stage_filter (H : JsHost) a stages (i : nat) (st : Point) :
  filter is_conversion (funnel_stage H a stages (i, st))
  = (if (0 <? i)%nat then [conversion_text H a stages i st] else []) /\
  filter (is_tag "polygon") (funnel_stage H a stages (i, st))
  = (if (S i =? List.length stages)%nat then [] else [funnel_shape H a stages i st]) /\
  filter (is_tag "rect") (funnel_stage H a stages (i, st))
  = (if (S i =? List.length stages)%nat then [funnel_shape H a stages i st] else []).
Proof.
  unfold funnel_stage, funnel_shape. cbn [fst snd].
  destruct (S i =? List.length stages)%nat, (0 <? i)%nat; repeat split; reflexivity.
Qed.

Lemma nth_error_middle {A : Type} (pre l : list A) (x : A) :
  nth_error (pre ++ x :: l) (List.length pre) = Some x.
Proof. rewrite nth_error_app2, Nat.sub_diag by lia. reflexivity. Qed.

(** The conversion texts of the stages after a stage [p]. *)
Lemma funnel_conversions_after (H : JsHost) a stages (l : list Point) :
  forall (pre : list Point) (p : Point),
    stages = (pre ++ p :: l)%list ->
    flat_map (fun ist : nat * Point =>
                filter is_conversion (funnel_stage H a stages ist))
             (combine (seq (S (List.length pre)) (List.length l)) l)
    = map (fun ips : nat * (Point * Point) =>
             let '(i, (pv, st)) := ips in
             conversion_label H a (List.length stages) i (value pv) (value st))
          (combine (seq (S (List.length pre)) (List.length l)) (combine (p :: l) l)).
Proof.
  induction l as [|x l IH]; intros pre p Hst; [reflexivity|].
  cbn [List.length seq combine flat_map map].
  destruct (funnel_stage_filter H a stages (S (List.length pre)) x) as (-> & _).
  cbn [Nat.ltb Nat.leb app]. f_equal.
  - unfold conversion_text, conversion_label, text_elem, conversion_rate, previous_value,
      funnel_labelY, stage_top, stage_height, stageHeight.
    replace (S (List.length pre) - 1)%nat with (List.length pre) by lia.
    assert (Hprev : nth_error stages (List.length pre) = Some p)
      by (rewrite Hst; apply nth_error_middle).
    rewrite Hprev. reflexivity.
  - specialize (IH (pre ++ [p])%list x).
    rewrite length_app, Nat.add_1_r in IH. apply IH.
    rewrite <- app_assoc. exact Hst.
Qed.

(** The shapes of the stages from a stage on. *)
Lemma funnel_shapes_from (H : JsHost) a stages (l : list Point) :
  forall (pre : list Point),
    stages = (pre ++ l)%list ->
    flat_map (fun ist : nat * Point =>
                filter (is_tag "polygon") (funnel_stage H a stages ist))
             (combine (seq (List.length pre) (List.length l)) l)
    = map (fun isn : nat * (Point * Point) =>
             let '(i, (st, next)) := isn in
             trapezoid H a (List.length stages) i (Math_max (map value stages))
                       (value st) (value next))
          (combine (seq (List.length pre) (List.length l)) (combine l (tl l))) /\
    flat_map (fun ist : nat * Point =>
                filter (is_tag "rect") (funnel_stage H a stages ist))
             (combine (seq (List.length pre) (List.length l)) l)
    = match rev l with
      | [] => []
      | st :: _ => [last_bar H a (List.length stages) (Math_max (map value stages))
                             (value st)]
      end.
Proof.
  induction l as [|x l IH]; intros pre Hst; [split; reflexivity|].
  cbn [List.length seq combine flat_map tl].
  destruct (funnel_stage_filter H a stages (List.length pre) x) as (_ & -> & ->).
  specialize (IH (pre ++ [x])%list).
  rewrite length_app, Nat.add_1_r in IH.
  destruct IH as (IHp & IHr); [rewrite <- app_assoc; exact Hst|].
  assert (Hn : List.length stages = (List.length pre + S (List.length l))%nat)
    by (rewrite Hst, length_app; reflexivity).
  destruct l as [|y l].
  - (* the last stage *)
    replace (S (List.length pre) =? List.length stages)%nat with true
      by (symmetry; apply Nat.eqb_eq; simpl in Hn; lia).
    split; [reflexivity|]. cbn [rev app List.length seq combine flat_map].
    unfold funnel_shape.
    replace (S (List.length pre) =? List.length stages)%nat with true
      by (symmetry; apply Nat.eqb_eq; simpl in Hn; lia).
    unfold last_bar, stage_width, stageWidth_of, widthRatio_of, funnel_maxValue,
      stage_top, stage_height, stageHeight.
    replace (List.length stages - 1)%nat with (List.length pre)
      by (simpl in Hn; lia).
    reflexivity.
  - replace (S (List.length pre) =? List.length stages)%nat with false
      by (symmetry; apply Nat.eqb_neq; simpl in Hn; lia).
    split.
    + cbn [app]. rewrite IHp. cbn [combine map]. f_equal.
      unfold funnel_shape.
      replace (S (List.length pre) =? List.length stages)%nat with false
        by (symmetry; apply Nat.eqb_neq; simpl in Hn; lia).
      assert (Hnext : nth_error stages (S (List.length pre)) = Some y).
      { rewrite Hst.
        change (pre ++ x :: y :: l)%list with (pre ++ [x] ++ y :: l)%list.
        rewrite app_assoc.
        replace (S (List.length pre)) with (List.length (pre ++ [x]))
          by (rewrite length_app; simpl; lia).
        apply nth_error_middle. }
      rewrite Hnext. reflexivity.
    + cbn [app]. rewrite IHr.
      change (rev (x :: y :: l)) with ((rev (y :: l)) ++ [x])%list.
      destruct (rev (y :: l)) as [|z r] eqn:E; [|reflexivity].
      apply (f_equal (@List.length Point)) in E. rewrite length_rev in E. discriminate.
Qed.

Lemma b64_not_NaN (q : Q) : b64 q <> NaN.
Proof.
  destruct (b64_cases q) as [(_ & ->)|[(_ & r & _ & ->)|(_ & r & _ & ->)]];
    [discriminate | |]; destruct (Qle_bool (Qpow2 1024) r); discriminate.
Qed.

(** Rounding keeps the order. *)
Lemma fl_monotone (x y : num) : (x <=? y)%num = true -> (fl x <=? fl y)%num = true.
Proof.
  destruct x as [p| | |], y as [q| | |]; cbn [fl num_le]; try discriminate;
    try reflexivity.
  - intros Hle. apply b64_monotone. now apply Qle_bool_iff.
  - intros _. pose proof (b64_not_NaN p) as Hn.
    destruct (b64 p); [reflexivity.. | congruence].
  - intros _. pose proof (b64_not_NaN q) as Hn.
    destruct (b64 q); [reflexivity.. | congruence].
Qed.

Lemma Qsgn_positive (c : Q) : 0 < c -> Qsgn c = 1%Z.
Proof.
  unfold Qsgn, Qlt. simpl. rewrite Z.mul_1_r. intros Hc.
  now apply Z.sgn_pos.
Qed.

(** On a canvas of positive width the stage width follows the ratio. *)
Lemma scaled_monotone (c : Q) (r1 r2 : num) :
  0 < c -> (r1 <=? r2)%num = true -> (Fin c * r1 <=? Fin c * r2)%num = true.
Proof.
  intros Hc Hle.
  destruct r1 as [x| | |], r2 as [y| | |]; simpl in *;
    rewrite ?(Qsgn_positive c Hc); simpl; try reflexivity; try discriminate.
  apply Qle_bool_iff. apply Qle_bool_iff in Hle.
  apply Qmult_le_l; assumption.
Qed.



(** The rate is rounded before it is printed: of 80 visits, 23 orders
    are 28.749999999999996 percent in binary64 and print as 28.7,
    where the exact quotient 28.75 would print as 28.8. *)
Example funnel_rate_is_rounded :
  exists out,
    generateFunnelChart_elems plain_host (DArray two_stages) (nz 800) (nz 600) no_options
    = Ok out /\
    map body (filter is_conversion out) = [Some "28.7%"] /\
    toFixed plain_host 1 (nz 23 / nz 80 * nz 100)%num = "28.8".
Proof. eexists. repeat split; vm_compute; reflexivity. Qed.


(* ================================================================= *)
(** ** The bins of the histogram *)

Lemma fold_min2_Fin (qs : list Q) (a : Q) :
  exists b, fold_left min2 (map Fin qs) (Fin a) = Fin b /\ b <= a /\ Forall (Qle b) qs.
Proof.
  revert a. induction qs as [|q qs IH]; intros a; simpl.
  - exists a. split; [reflexivity|]. split; [apply Qle_refl | constructor].
  - unfold Qlt_bool. destruct (Qle_bool a q) eqn:E; simpl.
    + apply Qle_bool_iff in E. destruct (IH a) as (b & Hb & Hba & Hall).
      exists b. split; [exact Hb|]. split; [exact Hba|].
      constructor; [now apply Qle_trans with a | exact Hall].
    + assert (Hqa : q <= a).
      { destruct (Qlt_le_dec q a) as [Hlt|Hle]; [now apply Qlt_le_weak|].
        apply Qle_bool_iff in Hle. congruence. }
      destruct (IH q) as (b & Hb & Hbq & Hall).
      exists b. split; [exact Hb|]. split; [now apply Qle_trans with q|].
      constructor; assumption.
Qed.

Lemma Math_min_Fin (q : Q) (qs : list Q) :
  exists lo, Math_min (map Fin (q :: qs)) = Fin lo /\ Forall (Qle lo) (q :: qs).
Proof.
  unfold Math_min. simpl.
  destruct (fold_min2_Fin qs q) as (b & Hb & Hbq & Hall).
  exists b. split; [exact Hb | now constructor].
Qed.

Lemma incr_nth_spec (i : nat) (l : list nat) :
  (i < List.length l)%nat ->
  List.length (incr_nth i l) = List.length l /\
  list_sum (incr_nth i l) = S (list_sum l).
Proof.
  revert i. induction l as [|x l IH]; intros [|i] Hi; simpl in *; try lia.
  destruct (IH i) as [Hlen Hsum]; [lia|]. rewrite Hlen, Hsum. lia.
Qed.

Lemma incr_nth_nth (i j : nat) (l : list nat) :
  (i < List.length l)%nat ->
  nth j (incr_nth i l) 0%nat = (nth j l 0 + (if (j =? i)%nat then 1 else 0))%nat.
Proof.
  revert i j. induction l as [|x l IH]; intros [|i] [|j] Hi; simpl in *; try lia.
  apply IH. lia.
Qed.

Lemma array_index_integer (q : Q) (z : Z) (len : nat) :
  q == inject_Z z -> (0 <= z < Z.of_nat len)%Z ->
  array_index (Fin q) len = Some (Z.to_nat z).
Proof.
  intros Hq Hz. unfold array_index.
  rewrite (Qred_complete _ _ Hq).
  rewrite Qcanon.Qred_identity by (simpl; apply Z.gcd_1_r).
  cbn [inject_Z Qnum Qden].
  rewrite (proj2 (Z.leb_le 0 z)) by lia.
  rewrite (proj2 (Z.ltb_lt z (Z.of_nat len))) by lia.
  reflexivity.
Qed.

(** [bins - 1] is computed exactly. *)
Lemma last_index_exact (k : Z) :
  (0 < k < 2 ^ 32)%Z -> (nz k - nz 1)%b64 = nz (k - 1).
Proof.
  intros Hk. unfold b_sub, num_sub, num_neg, num_add, nz, fl.
  apply b64_Z; [|lia].
  unfold Z.sub. rewrite inject_Z_plus, inject_Z_opp. reflexivity.
Qed.

(** The quotient (value - min) / binWidth of a value at or above the
    minimum, for a positive bin width: a number that is at least 0, or
    Infinity. *)
Lemma bin_quotient (lo bw q : Q) :
  lo <= q -> 0 < bw ->
  ((Fin q - Fin lo) / Fin bw)%b64 = PInf \/
  exists t, ((Fin q - Fin lo) / Fin bw)%b64 = Fin t /\ 0 <= t.
Proof.
  intros Hq Hbw.
  change (Fin q - Fin lo)%b64 with (b64 (q + - lo)).
  destruct (b64_nonneg (q + - lo)) as [->|(y & -> & Hy)]; [lra | |].
  - left. unfold b_div, num_div. rewrite (Qle_bool_true 0 bw) by lra. reflexivity.
  - unfold b_div, num_div. rewrite (Qeq_bool_false bw Hbw). cbn [fl].
    destruct (b64_nonneg (y / bw)) as [->|(t & -> & Ht)].
    + apply Qle_shift_div_l; lra.
    + now left.
    + right. now exists t.
Qed.

Lemma Math_min_pair (a b : Q) :
  Math_min [Fin a; Fin b] = if (Fin b <? Fin a)%num then Fin b else Fin a.
Proof. reflexivity. Qed.

(** With a positive bin width a value at or above the minimum gets the
    index of one of the bins, and the engine's index is the clamped one
    of the spec. *)
Lemma binIndex_in_range (lo bw q : Q) (k : Z) :
  lo <= q -> 0 < bw -> (0 < k < 2 ^ 32)%Z ->
  exists z, (0 <= z < k)%Z /\
            binIndex_of (Fin lo) (Fin bw) (nz k) (Fin q) = nz z /\
            clamped_bin (Fin lo) (Fin bw) (nz k) (Fin q) = nz z.
Proof.
  intros Hq Hbw Hk.
  unfold binIndex_of, clamped_bin. rewrite (last_index_exact k Hk).
  destruct (bin_quotient lo bw q Hq Hbw) as [->|(t & -> & Ht)].
  - exists (k - 1)%Z. split; [lia|]. split; reflexivity.
  - cbn [Math_floor]. unfold nz at 1 2. rewrite Math_min_pair. fold (nz (Qfloor t)).
    fold (nz (k - 1)).
    assert (Hf : (0 <= Qfloor t)%Z).
    { change 0%Z with (Qfloor 0). now apply Qfloor_resp_le. }
    assert (Hneg : (nz (Qfloor t) <? nz 0)%num = false).
    { unfold nz, num_lt, Qlt_bool. apply negb_false_iff. apply Qle_bool_true.
      rewrite <- Zle_Qle. exact Hf. }
    rewrite Hneg.
    change (nz (Qfloor t) >? nz (k - 1))%num
      with (num_lt (nz (k - 1)) (nz (Qfloor t))).
    destruct (num_lt (nz (k - 1)) (nz (Qfloor t))) eqn:E.
    + exists (k - 1)%Z. split; [lia|]. split; reflexivity.
    + exists (Qfloor t). split; [|split; reflexivity]. split; [exact Hf|].
      unfold nz, num_lt, Qlt_bool in E. apply negb_false_iff in E.
      apply Qle_bool_iff in E. rewrite <- Zle_Qle in E. lia.
Qed.

Lemma nz_seq_nn (z : Z) (j : nat) :
  (0 <= z)%Z -> (nz z === nn j)%num = (Z.to_nat z =? j)%nat.
Proof.
  intros Hz. unfold nz, nn, num_seq.
  destruct (Nat.eqb_spec (Z.to_nat z) j) as [E|E].
  - apply Qeq_bool_iff. rewrite <- E, Z2Nat.id by lia. reflexivity.
  - destruct (Qeq_bool (inject_Z z) (inject_Z (Z.of_nat j))) eqn:Q; [|reflexivity].
    apply Qeq_bool_iff in Q. rewrite inject_Z_injective in Q. subst z.
    rewrite Nat2Z.id in E. congruence.
Qed.

(** Filling the bins: the length stays, every value adds one, and each
    bin gains the values the spec puts there. *)
Lemma fill_bins_counts (lo bw : Q) (k : Z) (qs : list Q) :
  Forall (Qle lo) qs -> 0 < bw -> (0 < k < 2 ^ 32)%Z ->
  forall hist,
    List.length hist = Z.to_nat k ->
    let filled := fill_bins (Fin lo) (Fin bw) (nz k) (map Fin qs) hist in
    List.length filled = Z.to_nat k /\
    list_sum filled = (list_sum hist + List.length qs)%nat /\
    forall j, nth j filled 0%nat
              = (nth j hist 0 + bin_count (Fin lo) (Fin bw) (nz k) (map Fin qs) j)%nat.
Proof.
  intros Hall Hbw Hk. unfold fill_bins, bin_count.
  induction Hall as [|q qs Hq _ IH]; intros hist Hlen; cbn [map fold_left filter].
  - cbv zeta. split; [exact Hlen|]. split; [simpl; lia|]. intros j. simpl. lia.
  - destruct (binIndex_in_range lo bw q k Hq Hbw Hk) as (z & Hz & Hx & Hc).
    rewrite Hx, Hc.
    assert (Hinc : incr_bin hist (nz z) = incr_nth (Z.to_nat z) hist).
    { unfold incr_bin, nz.
      rewrite (array_index_integer (inject_Z z) z (List.length hist)); [reflexivity..|lia]. }
    rewrite Hinc.
    destruct (incr_nth_spec (Z.to_nat z) hist) as [Hlen' Hsum']; [lia|].
    destruct (IH (incr_nth (Z.to_nat z) hist)) as (Hl & Hs & Hn); [lia|].
    cbv zeta in *. split; [exact Hl|]. split; [rewrite Hs, Hsum'; simpl; lia|].
    intros j. rewrite Hn, incr_nth_nth by lia.
    rewrite nz_seq_nn by lia. rewrite (Nat.eqb_sym j).
    destruct (Z.to_nat z =? j)%nat; simpl; lia.
Qed.

Lemma list_sum_repeat_0 (n : nat) : list_sum (repeat 0%nat n) = 0%nat.
Proof. induction n as [|n IH]; simpl; [reflexivity | exact IH]. Qed.

Lemma nth_repeat_0 (n j : nat) : nth j (repeat 0%nat n) 0%nat = 0%nat.
Proof. revert j. induction n as [|n IH]; intros [|j]; simpl; auto. Qed.

Lemma least_normal_exact : b64 (Qpow2 (-1022)) = Fin (Qpow2 (-1022)).
Proof. vm_compute. reflexivity. Qed.

(** When the bin width is a normal number, the quotient of the range by
    it is at least [bins - 1]. *)
Lemma range_over_width (r b : Q) (k : Z) :
  (0 < k < 2 ^ 32)%Z -> 0 <= r ->
  b64 (r / inject_Z k) = Fin b -> Qpow2 (-1022) < b ->
  0 < b /\ inject_Z (k - 1) <= r / b.
Proof.
  intros Hk Hr Hb Hnorm.
  pose proof (Qpow2_pos (-1022)) as Hm.
  destruct Qpow2_53_small as (Hu0 & Hu1).
  assert (HK : 1 <= inject_Z k) by (change 1 with (inject_Z 1); rewrite <- Zle_Qle; lia).
  assert (HK2 : inject_Z k <= inject_Z (2 ^ 32)) by (rewrite <- Zle_Qle; lia).
  assert (HKu : inject_Z k * Qpow2 (-53) <= 1).
  { apply Qle_trans with (inject_Z (2 ^ 32) * Qpow2 (-53)).
    - apply Qmult_le_compat_r; lra.
    - vm_compute. discriminate. }
  assert (Hx : Qpow2 (-1022) <= r / inject_Z k).
  { destruct (Qlt_le_dec (r / inject_Z k) (Qpow2 (-1022))) as [Hlt|]; [|assumption].
    exfalso. pose proof (b64_monotone _ _ (Qlt_le_weak _ _ Hlt)) as Hmono.
    rewrite Hb, least_normal_exact in Hmono. cbn [num_le] in Hmono.
    apply Qle_bool_iff in Hmono. lra. }
  destruct (b64_rel_fin _ _ Hx Hb) as (Hlo & Hhi).
  assert (Hbpos : 0 < b) by lra.
  split; [exact Hbpos|].
  apply Qle_shift_div_l; [exact Hbpos|].
  unfold Z.sub. rewrite inject_Z_plus, inject_Z_opp. change (inject_Z 1) with 1.
  assert (Er : r == r / inject_Z k * inject_Z k) by (field; lra).
  set (x := r / inject_Z k) in *. set (u := Qpow2 (-53)) in *.
  set (K := inject_Z k) in *. set (m := Qpow2 (-1022)) in *.
  clearbody x u K m. rewrite Er. nra.
Qed.

(** The computed maximum is counted in the last bin. *)
Lemma max_in_last_bin (lo hi b : Q) (k : Z) :
  lo <= hi -> (0 < k < 2 ^ 32)%Z ->
  ((Fin hi - Fin lo) / nz k)%b64 = Fin b -> Qpow2 (-1022) < b ->
  clamped_bin (Fin lo) (Fin b) (nz k) (Fin hi) = nz (k - 1).
Proof.
  intros Hle Hk Hb Hnorm.
  assert (HKpos : 0 < inject_Z k)
    by (change 0 with (inject_Z 0); rewrite <- Zlt_Qlt; lia).
  revert Hb. unfold clamped_bin. rewrite (last_index_exact k Hk).
  change (Fin hi - Fin lo)%b64 with (b64 (hi + - lo)).
  destruct (b64_nonneg (hi + - lo)) as [->|(r & -> & Hr)]; [lra | |].
  - unfold nz at 1, b_div at 1, num_div.
    rewrite (Qle_bool_true 0 (inject_Z k)) by lra. discriminate.
  - unfold nz at 1, b_div at 1, num_div at 1.
    rewrite (Qeq_bool_false _ HKpos). cbn [fl]. intros Hb.
    destruct (range_over_width r b k Hk Hr Hb Hnorm) as (Hbpos & Hq).
    unfold b_div, num_div. rewrite (Qeq_bool_false b Hbpos). cbn [fl].
    pose proof (b64_monotone _ _ Hq) as Hmono.
    rewrite (b64_Z (inject_Z (k - 1)) (k - 1)) in Hmono by (reflexivity || lia).
    destruct (b64 (r / b)) as [t| | |]; cbn [num_le] in Hmono; try discriminate.
    + apply Qle_bool_iff in Hmono.
      assert (Hf : (k - 1 <= Qfloor t)%Z).
      { rewrite <- (Qfloor_Z (k - 1)). now apply Qfloor_resp_le. }
      cbn [Math_floor].
      assert (Hneg : (nz (Qfloor t) <? nz 0)%num = false).
      { unfold nz, num_lt, Qlt_bool. apply negb_false_iff. apply Qle_bool_true.
        rewrite <- Zle_Qle. lia. }
      rewrite Hneg.
      destruct (nz (Qfloor t) >? nz (k - 1))%num eqn:E; [reflexivity|].
      unfold nz, num_gt, num_lt, Qlt_bool in E. apply negb_false_iff in E.
      apply Qle_bool_iff in E. rewrite <- Zle_Qle in E.
      f_equal. lia.
    + reflexivity.
Qed.

Lemma fold_max2_ge (qs : list Q) (a : Q) :
  exists b, fold_left max2 (map Fin qs) (Fin a) = Fin b /\ a <= b /\
            (b == a \/ exists x, In x qs /\ b == x).
Proof.
  revert a. induction qs as [|q qs IH]; intros a; cbn [map fold_left].
  - exists a. split; [reflexivity|]. split; [lra | now left].
  - cbn [max2]. unfold num_lt, Qlt_bool.
    destruct (Qle_bool q a) eqn:E; cbn [negb].
    + destruct (IH a) as (b & Hb & Hab & [Hba|(x & Hx & Hbx)]);
        exists b; (split; [exact Hb|]); (split; [exact Hab|]).
      * now left.
      * right. exists x. split; [now right | exact Hbx].
    + apply Qle_bool_false_lt in E.
      destruct (IH q) as (b & Hb & Hqb & [Hbq|(x & Hx & Hbx)]);
        exists b; (split; [exact Hb|]); (split; [lra|]); right.
      * exists q. split; [now left | exact Hbq].
      * exists x. split; [now right | exact Hbx].
Qed.

(** The maximum of finite values is one of them. *)
Lemma Math_max_in (q : Q) (qs : list Q) :
  exists hi x, Math_max (map Fin (q :: qs)) = Fin hi /\ In x (q :: qs) /\ hi == x.
Proof.
  unfold Math_max. cbn [map fold_left max2].
  change (num_lt NInf (Fin q)) with true. cbv iota.
  destruct (fold_max2_ge qs q) as (b & Hb & _ & [Hbq|(x & Hx & Hbx)]).
  - exists b, q. split; [exact Hb|]. split; [now left | exact Hbq].
  - exists b, x. split; [exact Hb|]. split; [now right | exact Hbx].
Qed.




(** The histogram at the input the code gets wrong: three equal values.
    All three are valid numbers, the bin width is 0, the bin index of each
    value is NaN (0/0), and no bin counts any of them: the frequencies add
    up to 0 and the maximum is not in the last bin. *)
Lemma histogram_equal_values_uncounted :
  histogram_values plain_host [jnum 5; jnum 5; jnum 5] = Ok [nz 5; nz 5; nz 5] /\
  num_eq (histogram_binWidth (nz 10) [nz 5; nz 5; nz 5]) (nz 0) /\
  binIndex_of (Math_min [nz 5; nz 5; nz 5])
              (histogram_binWidth (nz 10) [nz 5; nz 5; nz 5]) (nz 10) (nz 5) = NaN /\
  histogram_bins (nz 10) [nz 5; nz 5; nz 5] = Ok (repeat 0%nat 10) /\
  list_sum (repeat 0%nat 10) = 0%nat /\
  List.length [nz 5; nz 5; nz 5] = 3%nat.
Proof. vm_compute. repeat split; reflexivity. Qed.

(** The index is rounded: with the values 0, 9 and 18 and 14 bins the
    bin width is 1.2857142857142858 and 9 over it is 6.999999999999999,
    so 9 is counted in bin 6, where the exact quotient is 7. *)
Example histogram_index_is_rounded :
  let values := [nz 0; nz 9; nz 18] in
  binIndex_of (Math_min values) (histogram_binWidth (nz 14) values) (nz 14) (nz 9)
  = nz 6 /\
  Math_floor ((nz 9 - nz 0) / ((nz 18 - nz 0) / nz 14))%num = nz 7.
Proof. split; vm_compute; reflexivity. Qed.

(** Where the bin width is not a positive finite number: the range of
    -2^1023 and 2^1023 overflows, the bin width is Infinity and the
    maximum is not counted (Infinity / Infinity is NaN); the range of 0
    and 2^-1074 over 10 bins underflows to the bin width 0 and the
    minimum is not counted (0 / 0 is NaN). *)
Example histogram_range_overflows :
  histogram_binWidth (nz 10) [nz (- 2 ^ 1023); nz (2 ^ 1023)] = PInf /\
  (exists hist, histogram_bins (nz 10) [nz (- 2 ^ 1023); nz (2 ^ 1023)] = Ok hist /\
                list_sum hist = 1%nat) /\
  histogram_binWidth (nz 10) [nz 0; Fin (Qpow2 (-1074))] = Fin 0 /\
  (exists hist, histogram_bins (nz 10) [nz 0; Fin (Qpow2 (-1074))] = Ok hist /\
                list_sum hist = 1%nat).
Proof.
  split; [vm_compute; reflexivity|].
  split; [eexists; split; vm_compute; reflexivity|].
  split; [vm_compute; reflexivity|].
  eexists; split; vm_compute; reflexivity.
Qed.

(* ================================================================= *)
(** ** Denominators *)

Lemma max_with_one (a : num) (m : Q) : max2 a (nz 1) = Fin m -> 1 <= m.
Proof.
  destruct a as [x| | |]; simpl; try discriminate.
  - unfold Qlt_bool. destruct (Qle_bool (inject_Z 1) x) eqn:E; simpl; intros [= <-].
    + now apply Qle_bool_iff in E.
    + apply Qle_refl.
  - intros [= <-]. apply Qle_refl.
Qed.

(** The guarded denominators: the maxima of the two axes of the dual-axes
    engine and the largest frequency of the histogram are taken together
    with 1, the range of the line and area engines falls back to 1, the
    column maximum is 1 in place of 0.  None of them is 0. *)
Lemma guarded_denominators :
  (forall l m, Math_max (l ++ [nz 1]) = Fin m -> 1 <= m) /\
  (forall f m, Math_max [f; nz 1] = Fin m -> 1 <= m) /\
  (forall points m, snd (value_range points) = Fin m -> ~ m == 0) /\
  (forall gd m, column_maxValue gd = Fin m -> ~ m == 0).
Proof.
  split; [|split; [|split]].
  - intros l m. unfold Math_max. rewrite fold_left_app. simpl. apply max_with_one.
  - intros f m. unfold Math_max. simpl. apply max_with_one.
  - intros points m. unfold value_range, num_or. simpl.
    destruct (num_truthy _) eqn:E.
    + intros Hm. rewrite Hm in E. simpl in E. intros Hz.
      apply Qeq_bool_iff in Hz. rewrite Hz in E. discriminate.
    + intros [= <-]. discriminate.
  - apply column_maxValue_nonzero.
Qed.

(** C5 at the inputs the code gets wrong.  The bin width of the histogram
    is used as a divisor with no guard: for three equal values it is 0
    and the quotient is 0/0.  The funnel maximum is used as a divisor with
    no guard: for stages that are all 0 it is 0, the width ratio is 0/0
    and the width is drawn as NaN. *)
Theorem unguarded_denominators :
  num_eq (histogram_binWidth (nz 10) [nz 5; nz 5; nz 5]) (nz 0) /\
  ((nz 5 - Math_min [nz 5; nz 5; nz 5])
   / histogram_binWidth (nz 10) [nz 5; nz 5; nz 5])%num = NaN /\
  funnel_maxValue zero_stages = nz 0 /\
  widthRatio_of zero_stages (nz 0) = NaN /\
  attr "width"
       (funnel_shape plain_host (funnelArea (nz 800) (nz 600)) zero_stages 1
                     {| label := "Buyers"; value := nz 0 |})
  = Some "NaN".
Proof. vm_compute. repeat split; reflexivity. Qed.

(* ================================================================= *)
(** ** Dispatch and exceptions *)

(** A type tag that names none of the eight other engines, whatever it
    is, is drawn by the column engine. *)
Theorem unknown_type_draws_columns (H : JsHost) (type : string) (o : Options) :
  ~ In (toLowerCase type) engine_tags ->
  generateSvgContent H type o
  = (frag <- generateColumnChart H (data_or_empty o) (opt_num_or (width o) (nz 800))
                                  (opt_num_or (height o) (nz 600)) o ;;
     Ok (document H (opt_num_or (width o) (nz 800)) (opt_num_or (height o) (nz 600))
                  (title_of type o) frag)).
Proof.
  intros Hnot. unfold generateSvgContent, dispatch.
  assert (Hne : forall t, In t engine_tags -> String.eqb (toLowerCase type) t = false).
  { intros t Ht. apply String.eqb_neq. intros E. apply Hnot. now rewrite E. }
  rewrite (Hne "line"), (Hne "pie"), (Hne "area"), (Hne "scatter"), (Hne "radar"),
    (Hne "funnel"), (Hne "dual-axes"), (Hne "histogram") by (simpl; auto 10).
  now destruct (_ || _).
Qed.

Lemma unknown_type_draws_columns_witness :
  generateSvgContent plain_host "Treemap" (with_data grid_gap)
  = (frag <- generateColumnChart plain_host (DArray grid_gap) (nz 800) (nz 600)
                                  (with_data grid_gap) ;;
     Ok (document plain_host (nz 800) (nz 600) "Treemap Chart" frag)).
Proof.
  apply (unknown_type_draws_columns plain_host "Treemap" (with_data grid_gap)).
  simpl. intros Hin. repeat (destruct Hin as [Hin|Hin]; [discriminate|]). exact Hin.
Defined.

Lemma null_or_not (it : item) : it = IPrim PNull \/ not_null it.
Proof.
  destruct it as [[| | | |]|fs]; try (right; discriminate). now left.
Qed.

Lemma mapM_throws {A B : Type} (f : A -> result B) (l : list A) (e : js_error) :
  (forall a, (exists b, f a = Ok b) \/ f a = Throw e) ->
  Exists (fun a => f a = Throw e) l ->
  mapM f l = Throw e.
Proof.
  intros Hf. induction 1 as [a l Ha | a l _ IH]; simpl.
  - now rewrite Ha.
  - destruct (Hf a) as [(b & ->) | ->]; [|reflexivity]. simpl. now rewrite IH.
Qed.

Lemma foldM_throws {A S : Type} (f : S -> A -> result S) (l : list A) (e : js_error) :
  (forall s a, (exists s', f s a = Ok s') \/ f s a = Throw e) ->
  Exists (fun a => forall s, f s a = Throw e) l ->
  forall s, foldM f l s = Throw e.
Proof.
  intros Hf. induction 1 as [a l Ha | a l _ IH]; intros s; simpl.
  - now rewrite Ha.
  - destruct (Hf s a) as [(s' & ->) | ->]; [|reflexivity]. simpl. apply IH.
Qed.

Lemma scatter_loop_throws (H : JsHost) (a : ChartArea) (n : nat) (l : list (nat * item)) :
  Exists (fun ip => snd ip = IPrim PNull) l ->
  forall k, scatter_loop H a n k l = Throw TypeError.
Proof.
  induction 1 as [[i it] l Hnull | [i it] l _ IH]; intros k; simpl.
  - simpl in Hnull. subst it. reflexivity.
  - destruct (null_or_not it) as [-> | Hn]; [reflexivity|].
    destruct (as_object_total it Hn) as (o & ->). simpl.
    destruct o as [fs|];
      [destruct (defined (field "x" fs) && defined (field "y" fs))|];
      cbv beta iota zeta; rewrite IH; reflexivity.
Qed.

Lemma Exists_null (items : list item) :
  In (IPrim PNull) items -> Exists (fun it => it = IPrim PNull) items.
Proof. intros Hin. apply Exists_exists. eauto. Qed.

Lemma Exists_indexed_null (items : list item) :
  In (IPrim PNull) items ->
  Exists (fun ip : nat * item => snd ip = IPrim PNull) (indexed items).
Proof.
  intros Hin. destruct (In_indexed_of_In _ _ Hin) as (i & Hi).
  apply Exists_exists. exists (i, IPrim PNull). auto.
Qed.

Ltac per_item total :=
  intros it; destruct (null_or_not it) as [-> | Hn];
  [right; reflexivity | left; now apply total].

Section NullItems.
Variables (H : JsHost) (items : list item) (w h : num) (o : Options).
Hypothesis Hnull : In (IPrim PNull) items.

Lemma normalize_point_null : mapM (normalize_point H) items = Throw TypeError.
Proof.
  apply mapM_throws; [per_item normalize_point_total|].
  eapply Exists_impl; [|apply Exists_null, Hnull]. now intros it ->.
Qed.

Lemma normalize_slice_null : mapM (normalize_slice H) items = Throw TypeError.
Proof.
  apply mapM_throws; [per_item normalize_slice_total|].
  eapply Exists_impl; [|apply Exists_null, Hnull]. now intros it ->.
Qed.

Lemma dual_row_null : mapM (dual_row H) items = Throw TypeError.
Proof.
  apply mapM_throws; [per_item dual_row_total|].
  eapply Exists_impl; [|apply Exists_null, Hnull]. now intros it ->.
Qed.

Lemma histogram_value_null : mapM (histogram_value H) items = Throw TypeError.
Proof.
  apply mapM_throws; [per_item histogram_value_total|].
  eapply Exists_impl; [|apply Exists_null, Hnull]. now intros it ->.
Qed.

Lemma column_collect_null s : foldM (column_collect H) items s = Throw TypeError.
Proof.
  apply foldM_throws.
  - intros s0 it. destruct (null_or_not it) as [-> | Hn];
      [right; reflexivity | left; now apply column_collect_total].
  - eapply Exists_impl; [|apply Exists_null, Hnull]. now intros it -> s0.
Qed.

Lemma radar_collect_null s : foldM (radar_collect H) items s = Throw TypeError.
Proof.
  apply foldM_throws.
  - intros s0 it. destruct (null_or_not it) as [-> | Hn];
      [right; reflexivity | left; now apply radar_collect_total].
  - eapply Exists_impl; [|apply Exists_null, Hnull]. now intros it -> s0.
Qed.

Lemma nonempty_array_has_null : nonempty_array (DArray items) = Some items.
Proof. destruct items; [contradiction | reflexivity]. Qed.
End NullItems.

Lemma dispatch_null_item (H : JsHost) (type : string) (items : list item) (w h : num)
      (o : Options) :
  In (IPrim PNull) items ->
  reads_rows type o ->
  dispatch H type (DArray items) w h o = Throw TypeError.
Proof.
  intros Hnull Hrows. unfold dispatch.
  destruct (String.eqb_spec (toLowerCase type) "dual-axes") as [Hdual|_].
  - rewrite Hdual. cbv beta iota delta [String.eqb Ascii.eqb Bool.eqb orb].
    unfold generateDualAxesChart, generateDualAxesChart_elems, dual_input.
    rewrite (nonempty_array_has_null items Hnull), (dual_row_null H items Hnull).
    destruct (Hrows Hdual) as [-> | ->]; [reflexivity|].
    destruct (series o); reflexivity.
  - repeat match goal with
           | |- context [if ?c then _ else _] => destruct c
           end;
      unfold generateColumnChart, generateLineChart, generatePieChart,
        generateAreaChart, generateScatterChart, generateRadarChart,
        generateFunnelChart, generateHistogramChart,
        generateColumnChart_elems, generateLineChart_elems, generatePieChart_elems,
        generateAreaChart_elems, generateScatterChart_elems, generateRadarChart_elems,
        generateFunnelChart_elems, generateHistogramChart_elems, histogram_values;
      rewrite (nonempty_array_has_null items Hnull);
      rewrite ?(normalize_point_null H items Hnull),
        ?(normalize_slice_null H items Hnull),
        ?(histogram_value_null H items Hnull),
        ?(column_collect_null H items Hnull),
        ?(radar_collect_null H items Hnull),
        ?(scatter_loop_throws H _ _ _ (Exists_indexed_null items Hnull));
      reflexivity.
Qed.

Lemma dispatch_total_but_histogram (H : JsHost) (type : string) (d : jsdata) (w h : num)
      (o : Options) :
  data_safe d -> toLowerCase type <> "histogram" ->
  exists frag, dispatch H type d w h o = Ok frag.
Proof.
  intros Hs Hnh. apply String.eqb_neq in Hnh. unfold dispatch. rewrite Hnh.
  repeat match goal with
         | |- context [if ?c then _ else _] => destruct c
         end;
    apply fragment_total;
    first [ now apply column_total | now apply line_total | now apply pie_total_ok
          | now apply area_total | now apply scatter_total | now apply radar_total
          | now apply funnel_total | now apply dual_total ].
Qed.



Lemma Array_fill0_cases (n : num) :
  (exists l, Array_fill0 n = Ok l /\ valid_array_length n) \/
  (Array_fill0 n = Throw RangeError /\ ~ valid_array_length n).
Proof.
  destruct (Array_fill0 n) as [l|e] eqn:E.
  - left. exists l. split; [reflexivity|].
    unfold Array_fill0 in E. destruct n as [q| | |]; try discriminate.
    destruct ((Zpos (Qden (Qred q)) =? 1)%Z) eqn:Ed; [|discriminate].
    destruct ((0 <=? Qnum (Qred q))%Z) eqn:E0; [|discriminate].
    destruct ((Qnum (Qred q) <? 2 ^ 32)%Z) eqn:E1; [|discriminate].
    exists q, (Qnum (Qred q)). split; [reflexivity|].
    apply Z.eqb_eq in Ed. apply Z.leb_le in E0. apply Z.ltb_lt in E1.
    split; [|lia].
    rewrite <- (Qred_correct q) at 1.
    destruct (Qred q) as [a b]. simpl in *. injection Ed as ->. reflexivity.
  - right.
    assert (He : e = RangeError).
    { unfold Array_fill0 in E. destruct n as [q| | |]; try congruence.
      destruct (_ && _); congruence. }
    subst e. split; [reflexivity|].
    intros Hv. destruct (Array_fill0_valid n Hv) as (l & Hl). congruence.
Qed.

Lemma Array_fill0_Ok (n : num) (l : list nat) :
  Array_fill0 n = Ok l ->
  exists q k, n = Fin q /\ q == inject_Z k /\ (0 <= k < 2 ^ 32)%Z /\
              l = repeat 0%nat (Z.to_nat k).
Proof.
  unfold Array_fill0. destruct n as [q| | |]; try discriminate.
  destruct ((Zpos (Qden (Qred q)) =? 1)%Z) eqn:Ed; [|discriminate].
  destruct ((0 <=? Qnum (Qred q))%Z) eqn:E0; [|discriminate].
  destruct ((Qnum (Qred q) <? 2 ^ 32)%Z) eqn:E1; [|discriminate].
  cbn [andb]. intros [= <-].
  exists q, (Qnum (Qred q)). split; [reflexivity|].
  apply Z.eqb_eq in Ed. apply Z.leb_le in E0. apply Z.ltb_lt in E1.
  split; [|split; [lia | reflexivity]].
  rewrite <- (Qred_correct q) at 1.
  destruct (Qred q) as [a b]. simpl in *. injection Ed as ->. reflexivity.
Qed.

Lemma valid_length_unique (q : Q) (k k' : Z) :
  q == inject_Z k -> q == inject_Z k' -> k = k'.
Proof. intros E E'. rewrite E in E'. now apply inject_Z_injective. Qed.

(** The histogram looks at the bin count only once it has found a valid
    value: from then on the call returns exactly when the values are no
    more than the arguments a call takes and the count in force
    (options.bins, or 10 when that is absent, 0 or NaN) is an integer from
    0 to 2^32-1 that is no more than that either, and throws a RangeError
    otherwise. *)
Theorem histogram_bin_count_decides (H : JsHost) (type : string) (o : Options)
        (items : list item) (v : num) (vs : list num) :
  toLowerCase type = "histogram" ->
  data o = Some (DArray items) ->
  histogram_values H items = Ok (v :: vs) ->
  let fits := (List.length (v :: vs) <= max_arguments H)%nat /\
              bin_count_fits H (opt_num_or (bins o) (nz 10)) in
  (fits -> exists doc, generateSvgContent H type o = Ok doc) /\
  (~ fits -> generateSvgContent H type o = Throw RangeError).
Proof.
  intros Ht Hd Hv fits. subst fits.
  assert (Hdata : data_or_empty o = DArray items)
    by (unfold data_or_empty; now rewrite Hd).
  assert (Hne : nonempty_array (DArray items) = Some items).
  { destruct items; [|reflexivity]. discriminate Hv. }
  unfold generateSvgContent, dispatch. rewrite Hdata, Ht.
  cbv beta iota delta [String.eqb Ascii.eqb Bool.eqb orb].
  unfold generateHistogramChart, generateHistogramChart_elems, fragment.
  rewrite Hne, Hv. cbv beta iota delta [bind].
  destruct (Nat.le_gt_cases (List.length (v :: vs)) (max_arguments H)) as [Hlen|Hlen].
  2:{ rewrite (spread_too_long H (v :: vs) Hlen). split; [intros (Hl & _); lia|].
      reflexivity. }
  rewrite (spread_fits H (v :: vs) Hlen). cbv beta iota delta [bind].
  unfold histogram_bins.
  destruct (Array_fill0_cases (opt_num_or (bins o) (nz 10)))
    as [(l & Hl & Hok) | (-> & Hbad)].
  2:{ split; [intros (_ & Hfit); apply bin_count_fits_valid in Hfit; contradiction|].
      reflexivity. }
  rewrite Hl. cbv beta iota delta [bind].
  destruct (Array_fill0_Ok _ _ Hl) as (q & k & Hn & Hq & Hk & ->).
  set (hist := fill_bins _ _ _ _ _).
  assert (Hlh : List.length hist = Z.to_nat k)
    by (subst hist; now rewrite fill_bins_length, repeat_length).
  destruct (Nat.le_gt_cases (Z.to_nat k) (max_arguments H)) as [Hkm|Hkm].
  - rewrite (spread_fits H hist) by lia. cbv beta iota delta [bind].
    split; [eauto|]. intros Hnot. exfalso. apply Hnot. split; [exact Hlen|].
    exists q, k. repeat split; try assumption; lia.
  - rewrite (spread_too_long H hist) by lia. split; [|reflexivity].
    intros (_ & q' & k' & Hn' & Hq' & Hk' & Hmax). exfalso.
    rewrite Hn in Hn'. injection Hn' as <-.
    pose proof (valid_length_unique q k k' Hq Hq'). subst k'. lia.
Qed.

Lemma histogram_bin_count_decides_witness :
  generateSvgContent plain_host "histogram" (histogram_request (nz (-1)))
  = Throw RangeError.
Proof.
  refine (proj2 (histogram_bin_count_decides plain_host "histogram"
                   (histogram_request (nz (-1))) [jnum 1; jnum 2; jnum 3]
                   (nz 1) [nz 2; nz 3] eq_refl eq_refl eq_refl) _).
  intros (_ & q & k & Hq & Hk & Hr & _). simpl in Hq. injection Hq as <-.
  unfold Qeq in Hk. simpl in Hk. lia.
Defined.

(** More bins than the arguments a call takes: the array of the bins is
    built and filled, and spreading it into [Math.max] throws. *)
Example histogram_too_many_bins :
  Z.of_nat (max_arguments plain_host) = 65535%Z /\
  generateSvgContent plain_host "histogram" (histogram_request (nz 130000))
  = Throw RangeError.
Proof. split; vm_compute; reflexivity. Qed.

(* ================================================================= *)
(** ** Area, scatter and radar *)



Lemma scatter_loop_random_free (H : JsHost) (r : nat -> num) (a : ChartArea) (n : nat)
      (l : list (nat * item)) :
  Forall (fun ip => has_xy (snd ip) = true) l ->
  forall k k', scatter_loop (with_random H r) a n k l = scatter_loop H a n k' l.
Proof.
  induction 1 as [|[i it] l Hxy _ IH]; intros k k'; [reflexivity|].
  destruct it as [p|fs]; [discriminate|].
  change (defined (field "x" fs) && defined (field "y" fs) = true) in Hxy.
  cbn [scatter_loop as_object bind]. rewrite Hxy. cbv beta iota zeta.
  now rewrite (IH k k').
Qed.

(** When every item carries x and y the scatter fragment does not depend
    on Math.random: any two sources of random numbers give the same
    fragment. *)
Theorem scatter_with_coordinates_ignores_random (H : JsHost) (r : nat -> num)
        (items : list item) (w h : num) (o : Options) :
  Forall (fun it => has_xy it = true) items ->
  generateScatterChart_elems (with_random H r) (DArray items) w h o
  = generateScatterChart_elems H (DArray items) w h o.
Proof.
  intros Hxy. unfold generateScatterChart_elems.
  destruct (nonempty_array (DArray items)) as [its|] eqn:E; [|reflexivity].
  assert (its = items) by (destruct items; [discriminate | now injection E]).
  subst its.
  rewrite (scatter_loop_random_free H r (chartArea w h) (List.length items)
             (indexed items) (Forall_indexed _ items Hxy) 0%nat 0%nat).
  reflexivity.
Qed.

Lemma scatter_with_coordinates_ignores_random_witness :
  generateScatterChart_elems (with_random plain_host (fun k => nn k))
    (DArray [IObj [("x", PNum (nz 10)); ("y", PNum (nz 20))]]) (nz 800) (nz 600) no_options
  = generateScatterChart_elems plain_host
      (DArray [IObj [("x", PNum (nz 10)); ("y", PNum (nz 20))]]) (nz 800) (nz 600)
      no_options.
Proof.
  apply (scatter_with_coordinates_ignores_random plain_host (fun k => nn k)
           [IObj [("x", PNum (nz 10)); ("y", PNum (nz 20))]] (nz 800) (nz 600) no_options).
  repeat constructor.
Defined.

Lemma map_fst_indexed {A : Type} (l : list A) :
  map fst (indexed l) = seq 0 (List.length l).
Proof.
  unfold indexed. generalize 0%nat.
  induction l as [|a l IH]; intros s; simpl; [reflexivity | now rewrite IH].
Qed.

Lemma scatter_loop_fallback (H : JsHost) (a : ChartArea) (n : nat)
      (l1 l2 : list (nat * item)) :
  map fst l1 = map fst l2 ->
  Forall (fun ip => has_xy (snd ip) = false /\ not_null (snd ip)) l1 ->
  Forall (fun ip => has_xy (snd ip) = false /\ not_null (snd ip)) l2 ->
  forall k, scatter_loop H a n k l1 = scatter_loop H a n k l2.
Proof.
  intros Hfst H1. revert l2 Hfst.
  induction H1 as [|[i it1] l1 [Hx1 Hn1] _ IH]; intros l2 Hfst H2 k.
  - destruct l2; [reflexivity | discriminate].
  - destruct l2 as [|[j it2] l2]; [discriminate|].
    simpl in Hfst. injection Hfst as <- Hfst.
    inversion H2 as [|? ? [Hx2 Hn2] H2']; subst. simpl in *.
    destruct (as_object_total it1 Hn1) as (o1 & E1).
    destruct (as_object_total it2 Hn2) as (o2 & E2).
    rewrite E1, E2. cbn [bind].
    assert (P1 : match o1 with
                 | Some fs =>
                     if defined (field "x" fs) && defined (field "y" fs)
                     then Some ((ax a + ToNumber H (field "x" fs) / nz 100 * aw a)%num,
                                (ay a + ah a - ToNumber H (field "y" fs) / nz 100 * ah a)%num)
                     else None
                 | None => None
                 end = None).
    { destruct it1 as [[| | | |]|fs]; simpl in E1; inversion E1; subst; try reflexivity.
      simpl in Hx1. now rewrite Hx1. }
    assert (P2 : match o2 with
                 | Some fs =>
                     if defined (field "x" fs) && defined (field "y" fs)
                     then Some ((ax a + ToNumber H (field "x" fs) / nz 100 * aw a)%num,
                                (ay a + ah a - ToNumber H (field "y" fs) / nz 100 * ah a)%num)
                     else None
                 | None => None
                 end = None).
    { destruct it2 as [[| | | |]|fs]; simpl in E2; inversion E2; subst; try reflexivity.
      simpl in Hx2. now rewrite Hx2. }
    rewrite P1, P2. cbv beta iota zeta.
    now rewrite (IH l2 Hfst H2' (S k)).
Qed.

(** Items without coordinates are placed by their index and by
    Math.random alone: two data arrays of the same length, none of whose
    items carries x and y, give the same fragment, whatever the items
    are. *)
Theorem scatter_without_coordinates_ignores_data (H : JsHost) (items1 items2 : list item)
        (w h : num) (o1 o2 : Options) :
  List.length items1 = List.length items2 ->
  Forall (fun it => has_xy it = false /\ not_null it) items1 ->
  Forall (fun it => has_xy it = false /\ not_null it) items2 ->
  generateScatterChart_elems H (DArray items1) w h o1
  = generateScatterChart_elems H (DArray items2) w h o2.
Proof.
  intros Hlen H1 H2. unfold generateScatterChart_elems.
  destruct items1 as [|a1 l1], items2 as [|a2 l2]; try discriminate; [reflexivity|].
  cbn [nonempty_array]. rewrite Hlen.
  rewrite (scatter_loop_fallback H (chartArea w h) (List.length (a2 :: l2))
             (indexed (a1 :: l1)) (indexed (a2 :: l2))).
  - reflexivity.
  - rewrite !map_fst_indexed. now rewrite Hlen.
  - apply (Forall_indexed (fun it => has_xy it = false /\ not_null it)). exact H1.
  - apply (Forall_indexed (fun it => has_xy it = false /\ not_null it)). exact H2.
Qed.

Lemma scatter_without_coordinates_ignores_data_witness :
  generateScatterChart_elems plain_host (DArray [jnum 5; jnum 10]) (nz 800) (nz 600)
                             no_options
  = generateScatterChart_elems plain_host
      (DArray [IObj [("value", PNum (nz 1))]; IPrim (PStr "a")]) (nz 800) (nz 600)
      no_options.
Proof.
  apply (scatter_without_coordinates_ignores_data plain_host [jnum 5; jnum 10]
           [IObj [("value", PNum (nz 1))]; IPrim (PStr "a")] (nz 800) (nz 600)
           no_options no_options).
  - reflexivity.
  - repeat constructor; discriminate.
  - repeat constructor; discriminate.
Defined.

(** When no item of the data is a record with a name, a group and a
    value, the radar fragment is the placeholder "No valid radar data"
    and nothing else. *)
Theorem radar_without_accepted_item (H : JsHost) (items : list item) (w h : num)
        (o : Options) :
  items <> [] ->
  Forall not_null items ->
  Forall (fun it => radar_accepts it = false) items ->
  generateRadarChart_elems H (DArray items) w h o
  = Ok [placeholder "No valid radar data"].
Proof.
  intros Hne Hnn Hacc.
  destruct (radar_fold_spec H items Hnn {| radarData := []; dimensionSet := [] |})
    as (st & Ef & _ & _ & Hdim & _); [constructor | constructor |].
  unfold generateRadarChart_elems.
  replace (nonempty_array (DArray items)) with (Some items)
    by (destruct items; [congruence | reflexivity]).
  rewrite Ef. cbv beta iota delta [bind].
  destruct (dimensionSet st) as [|n l] eqn:E; [reflexivity|].
  exfalso. destruct (proj1 (Hdim n) (or_introl eq_refl)) as [[]|(it & Hin & Ha & _)].
  rewrite Forall_forall in Hacc. rewrite (Hacc it Hin) in Ha. discriminate.
Qed.

Lemma radar_without_accepted_item_witness :
  generateRadarChart_elems plain_host
    (DArray [IObj [("name", PStr "speed"); ("value", PNum (nz 70))]; jnum 3])
    (nz 800) (nz 600) no_options
  = Ok [placeholder "No valid radar data"].
Proof.
  apply (radar_without_accepted_item plain_host
           [IObj [("name", PStr "speed"); ("value", PNum (nz 70))]; jnum 3]
           (nz 800) (nz 600) no_options).
  - discriminate.
  - repeat constructor; discriminate.
  - repeat constructor.
Defined.

(** With an accepted item the radar fragment has five grid circles, one
    spoke and one label per distinct dimension name, and one polygon and
    one legend entry per distinct group name; the names are those of the
    accepted items, each drawn once. *)
Theorem radar_one_spoke_per_name (H : JsHost) (items : list item) (w h : num)
        (o : Options) :
  Forall not_null items ->
  Exists (fun it => radar_accepts it = true) items ->
  exists st out,
    foldM (radar_collect H) items {| radarData := []; dimensionSet := [] |} = Ok st /\
    generateRadarChart_elems H (DArray items) w h o = Ok out /\
    NoDup (dimensionSet st) /\
    NoDup (map fst (radarData st)) /\
    (forall n, In n (dimensionSet st) <->
               exists it, In it items /\ radar_accepts it = true /\ radar_name H it = n) /\
    (forall g, In g (map fst (radarData st)) <->
               exists it, In it items /\ radar_accepts it = true
                          /\ radar_group_name H it = g) /\
    count_if (is_tag "circle") out = 5%nat /\
    count_if (is_tag "line") out = List.length (dimensionSet st) /\
    count_if (is_tag "path") out = List.length (radarData st) /\
    count_if (is_tag "rect") out = List.length (radarData st) /\
    count_if (is_tag "text") out
    = (List.length (dimensionSet st) + List.length (radarData st))%nat.
Proof.
  intros Hnn Hex.
  destruct (radar_fold_spec H items Hnn {| radarData := []; dimensionSet := [] |})
    as (st & Ef & Hd & Hg & Hdim & Hgrp); [constructor | constructor |].
  assert (Hdim' : forall n, In n (dimensionSet st) <->
            exists it, In it items /\ radar_accepts it = true /\ radar_name H it = n).
  { intros n. rewrite Hdim. split; [intros [[]|?]; assumption | now right]. }
  assert (Hgrp' : forall g, In g (map fst (radarData st)) <->
            exists it, In it items /\ radar_accepts it = true
                       /\ radar_group_name H it = g).
  { intros g. rewrite Hgrp. split; [intros [[]|?]; assumption | now right]. }
  assert (Hne : dimensionSet st <> []).
  { apply Exists_exists in Hex. destruct Hex as (it & Hin & Ha).
    intros E. assert (Hi : In (radar_name H it) (dimensionSet st))
      by (apply Hdim'; exists it; now repeat split).
    rewrite E in Hi. contradiction. }
  exists st.
  exists (radar_grid H (w / nz 2)%num (h / nz 2)%num (Math_min [w; h] / nz 3)%num
          ++ flat_map (radar_spoke H (w / nz 2)%num (h / nz 2)%num
                                   (Math_min [w; h] / nz 3)%num (dimensionSet st))
                      (indexed (dimensionSet st))
          ++ flat_map (radar_group H (w / nz 2)%num (h / nz 2)%num
                                   (Math_min [w; h] / nz 3)%num (dimensionSet st))
                      (indexed (radarData st)))%list.
  split; [exact Ef|]. split.
  { unfold generateRadarChart_elems.
    replace (nonempty_array (DArray items)) with (Some items)
      by (destruct items; [now apply Exists_nil in Hex | reflexivity]).
    rewrite Ef. cbv beta iota delta [bind].
    destruct (dimensionSet st) as [|n l]; [congruence|]. reflexivity. }
  split; [assumption|]. split; [assumption|].
  split; [assumption|]. split; [assumption|].
  rewrite !count_if_app.
  rewrite !(count_if_flat_map (is_tag "circle") _ 0), !(count_if_flat_map (is_tag "line") _ 1),
    !(count_if_flat_map (is_tag "path") _ 0), !(count_if_flat_map (is_tag "rect") _ 0),
    !(count_if_flat_map (is_tag "text") _ 1), !(count_if_flat_map (is_tag "line") _ 0),
    !(count_if_flat_map (is_tag "path") _ 1), !(count_if_flat_map (is_tag "rect") _ 1)
    by (intros; reflexivity).
  rewrite !length_indexed.
  repeat split; unfold radar_grid; try reflexivity;
    cbn [seq map count_if filter is_tag String.eqb Ascii.eqb Bool.eqb List.length tag];
    lia.
Qed.

Lemma radar_one_spoke_per_name_witness :
  exists st out,
    foldM (radar_collect plain_host)
          [IObj [("name", PStr "speed"); ("group", PStr "A"); ("value", PNum (nz 70))];
           IObj [("name", PStr "speed"); ("group", PStr "B"); ("value", PNum (nz 40))];
           jnum 3]
          {| radarData := []; dimensionSet := [] |} = Ok st /\
    generateRadarChart_elems plain_host
      (DArray [IObj [("name", PStr "speed"); ("group", PStr "A"); ("value", PNum (nz 70))];
               IObj [("name", PStr "speed"); ("group", PStr "B"); ("value", PNum (nz 40))];
               jnum 3])
      (nz 800) (nz 600) no_options = Ok out /\
    NoDup (dimensionSet st) /\
    NoDup (map fst (radarData st)) /\
    (forall n, In n (dimensionSet st) <->
               exists it,
                 In it [IObj [("name", PStr "speed"); ("group", PStr "A");
                              ("value", PNum (nz 70))];
                        IObj [("name", PStr "speed"); ("group", PStr "B");
                              ("value", PNum (nz 40))];
                        jnum 3]
                 /\ radar_accepts it = true /\ radar_name plain_host it = n) /\
    (forall g, In g (map fst (radarData st)) <->
               exists it,
                 In it [IObj [("name", PStr "speed"); ("group", PStr "A");
                              ("value", PNum (nz 70))];
                        IObj [("name", PStr "speed"); ("group", PStr "B");
                              ("value", PNum (nz 40))];
                        jnum 3]
                 /\ radar_accepts it = true /\ radar_group_name plain_host it = g) /\
    count_if (is_tag "circle") out = 5%nat /\
    count_if (is_tag "line") out = List.length (dimensionSet st) /\
    count_if (is_tag "path") out = List.length (radarData st) /\
    count_if (is_tag "rect") out = List.length (radarData st) /\
    count_if (is_tag "text") out
    = (List.length (dimensionSet st) + List.length (radarData st))%nat.
Proof.
  apply (radar_one_spoke_per_name plain_host
           [IObj [("name", PStr "speed"); ("group", PStr "A"); ("value", PNum (nz 70))];
            IObj [("name", PStr "speed"); ("group", PStr "B"); ("value", PNum (nz 40))];
            jnum 3]
           (nz 800) (nz 600) no_options).
  - repeat constructor; discriminate.
  - apply Exists_cons_hd. reflexivity.
Defined.

(* ================================================================= *)
(** ** Slices the pie loop skips *)

Lemma pie_step_fill (H : JsHost) (cX cY r total a0 : num) (i : nat) (s : Point) :
  map (attr "fill") (filter (is_tag "path") (ps_shapes (pie_step H cX cY r total a0 i s)))
  = [Some (color_at pie_colors i)] /\
  filter (is_tag "path") (ps_legend (pie_step H cX cY r total a0 i s)) = [] /\
  filter is_legend (ps_shapes (pie_step H cX cY r total a0 i s)) = [] /\
  map body (filter is_legend (ps_legend (pie_step H cX cY r total a0 i s)))
  = [Some (label s ++ ": " ++ str H (value s))].
Proof.
  destruct (pie_step_paths H cX cY r total a0 i s) as (-> & ->).
  split; [reflexivity|]. split; [reflexivity|]. split; [|reflexivity].
  unfold pie_step. cbn [ps_shapes].
  destruct (sliceAngle_of total (value s) >? b64 (1 # 5))%b64; reflexivity.
Qed.

(** The loop draws the slices it does not skip, in input order, each
    with the colour of its own index. *)
Lemma pie_loop_skips (H : JsHost) (cX cY r total : num) (l : list (nat * Point)) :
  forall cur,
    let steps := pie_loop H cX cY r total cur l in
    let drawn := filter (fun ip : nat * Point => negb (value (snd ip) <=? nz 0)%num) l in
    map (attr "fill") (filter (is_tag "path") (flat_map ps_shapes steps))
    = map (fun ip : nat * Point => Some (color_at pie_colors (fst ip))) drawn /\
    filter (is_tag "path") (flat_map ps_legend steps) = [] /\
    filter is_legend (flat_map ps_shapes steps) = [] /\
    map body (filter is_legend (flat_map ps_legend steps))
    = map (fun ip : nat * Point =>
             Some (label (snd ip) ++ ": " ++ str H (value (snd ip)))) drawn.
Proof.
  cbv zeta. induction l as [|[i s] l IH]; intros cur; [repeat split; reflexivity|].
  cbn [pie_loop filter fst snd].
  destruct (value s <=? nz 0)%num; cbn [negb]; [apply IH|].
  set (st := pie_step H cX cY r total cur i s).
  destruct (IH (cur + ps_angle st)%b64) as (IH1 & IH2 & IH3 & IH4).
  destruct (pie_step_fill H cX cY r total cur i s) as (Hp1 & Hp2 & Hl1 & Hl2).
  fold st in Hp1, Hp2, Hl1, Hl2.
  cbn [flat_map map]. rewrite !filter_app, !map_app, Hp1, Hp2, Hl1, Hl2, IH1, IH2, IH3, IH4.
  repeat split; reflexivity.
Qed.



(* ================================================================= *)
(** ** Which points of the line engine show their label *)

Lemma count_multiples (m n : nat) :
  (0 < m)%nat ->
  List.length (filter (fun i => (i mod m =? 0)%nat) (seq 0 n)) = ((n + m - 1) / m)%nat.
Proof.
  intros Hm. induction n as [|n IH].
  - simpl. symmetry. apply Nat.div_small. lia.
  - rewrite seq_S, filter_app, length_app, IH. cbn [filter Nat.add].
    change (S (n + m)) with (S n + m)%nat.
    pose proof (Nat.div_mod_eq n m) as Hdm.
    pose proof (Nat.mod_upper_bound n m ltac:(lia)) as Hub.
    destruct (n mod m =? 0)%nat eqn:E.
    + apply Nat.eqb_eq in E. cbn [List.length].
      assert (H1 : ((n + m - 1) / m = n / m)%nat).
      { symmetry. apply (Nat.div_unique (n + m - 1) m (n / m) (m - 1)); lia. }
      assert (H2 : ((S n + m - 1) / m = S (n / m))%nat).
      { symmetry. apply (Nat.div_unique (S n + m - 1) m (S (n / m)) 0); lia. }
      lia.
    + apply Nat.eqb_neq in E. cbn [List.length].
      assert (H1 : ((n + m - 1) / m = S (n / m))%nat).
      { symmetry. apply (Nat.div_unique (n + m - 1) m (S (n / m)) (n mod m - 1)); lia. }
      assert (H2 : ((S n + m - 1) / m = S (n / m))%nat).
      { symmetry. apply (Nat.div_unique (S n + m - 1) m (S (n / m)) (n mod m)); lia. }
      lia.
Qed.

Lemma count_axis_labels (H : JsHost) (a : ChartArea) (n : nat) (minValue range : num)
      (l : list (nat * Point)) :
  count_if is_axis_label (flat_map (point_labels H a n minValue range) l)
  = List.length (filter (shows_label n) (map fst l)).
Proof.
  induction l as [|ip l IH]; [reflexivity|].
  cbn [flat_map map filter]. rewrite count_if_app, IH.
  unfold point_labels. destruct (shows_label n (fst ip)); reflexivity.
Qed.



(* ================================================================= *)
(** ** The file layer *)

(** The promise of [generateChartUrl] resolves exactly when the output
    directory is there or can be made, the render call returns a document
    and writing it does not throw; the calls made are then the making of
    the directory, if it was missing, and the one write of the document,
    and the address is "file://" followed by the resolved path. *)
Theorem chart_resolves_when_saved (H : JsHost) (N : NodeHost) (timestamp : num)
        (type : string) (o : Options) (calls : list fs_call) (url : string) :
  generateChartUrl H N timestamp type o = (calls, Resolved url) <->
  exists doc,
    generateSvgContent H type o = Ok doc /\
    ensure_dir_throws N = false /\
    fs_throws N (writeFileSync (svg_path H N type timestamp) doc) = false /\
    calls = (ensure_dir N ++ [writeFileSync (svg_path H N type timestamp) doc])%list /\
    url = "file://" ++ path_resolve N (svg_path H N type timestamp).
Proof.
  unfold generateChartUrl, generateChartSvgLocally, chart_try. split.
  - destruct (ensure_dir_throws N); [discriminate|].
    destruct (generateSvgContent H type o) as [doc|e]; cbn [fst snd].
    + destruct (fs_throws N (writeFileSync (svg_path H N type timestamp) doc)) eqn:E.
      * destruct (fs_throws N (writeFileSync (error_path H N type timestamp) _));
          discriminate.
      * intros [= <- <-]. exists doc. repeat split; assumption.
    + destruct (fs_throws N (writeFileSync (error_path H N type timestamp) _));
        discriminate.
  - intros (doc & -> & -> & E & -> & ->). cbn [fst snd]. now rewrite E.
Qed.

(** Whatever happens, [generateChartUrl] makes at most three file-system
    calls, and each one stays in the output directory: making it, writing
    the chart file, or writing the error report. *)
Theorem chart_calls_stay_in_output_dir (H : JsHost) (N : NodeHost) (timestamp : num)
        (type : string) (o : Options) :
  let calls := fst (generateChartUrl H N timestamp type o) in
  (List.length calls <= 3)%nat /\
  Forall (in_output_dir H N type timestamp) calls.
Proof.
  unfold generateChartUrl, generateChartSvgLocally, chart_try, ensure_dir, in_output_dir.
  destruct (ensure_dir_throws N), (existsSync N (outputDir N));
    try destruct (generateSvgContent H type o) as [doc|e];
    try destruct (fs_throws N (writeFileSync (svg_path H N type timestamp) doc));
    cbn [fst snd app List.length];
    (split; [lia|]);
    repeat first [apply Forall_nil | apply Forall_cons];
    first [now left | right; eexists; left; reflexivity
          | right; eexists; right; reflexivity].
Qed.

(** A null among the rows reaches the caller as a rejection: the promise
    is rejected with "Failed to generate chart SVG: " and the message of
    the TypeError, no chart file is written, and the only file written is
    the error report, which holds the message and the options. *)
Theorem null_item_is_reported (H : JsHost) (N : NodeHost) (timestamp : num)
        (type : string) (o : Options) (items : list item) :
  data o = Some (DArray items) ->
  reads_rows type o ->
  In (IPrim PNull) items ->
  ensure_dir_throws N = false ->
  (forall c, fs_throws N c = false) ->
  generateChartUrl H N timestamp type o
  = ((ensure_dir N
      ++ [writeFileSync (error_path H N type timestamp)
                        ("Error generating chart: " ++ error_message N (EngineError TypeError)
                         ++ nl ++ "Options: " ++ JSON_stringify N o)])%list,
     Rejected_Error ("Failed to generate chart SVG: "
                     ++ error_message N (EngineError TypeError))).
Proof.
  intros Hd Hrows Hnull Hdir Hfs.
  assert (Hthrow : generateSvgContent H type o = Throw TypeError).
  { unfold generateSvgContent.
    replace (data_or_empty o) with (DArray items)
      by (unfold data_or_empty; now rewrite Hd).
    now rewrite dispatch_null_item. }
  unfold generateChartUrl, generateChartSvgLocally, chart_try.
  rewrite Hdir, Hthrow. cbn [fst snd]. rewrite Hfs. reflexivity.
Qed.

Lemma null_item_is_reported_witness :
  generateChartUrl plain_host plain_node (nz 1700000000000) "line"
                   (with_data [jnum 1; IPrim PNull])
  = ([mkdirSync "./generated-charts";
      writeFileSync
        (error_path plain_host plain_node "line" (nz 1700000000000))
        ("Error generating chart: TypeError" ++ nl ++ "Options: {}")],
     Rejected_Error "Failed to generate chart SVG: TypeError").
Proof.
  apply (null_item_is_reported plain_host plain_node (nz 1700000000000) "line"
           (with_data [jnum 1; IPrim PNull]) [jnum 1; IPrim PNull]).
  - reflexivity.
  - intros Hdual. vm_compute in Hdual. discriminate.
  - right. now left.
  - reflexivity.
  - reflexivity.
Defined.



(** Once the output directory is there or can be made, [generateMap]
    always answers: its promise resolves even when nothing could be
    saved.  The answer is an error exactly when the input has no JSON
    text or the write throws; otherwise the one file written is the map
    and the answer carries its address. *)
Theorem map_always_answers (H : JsHost) (N : NodeHost) (Input : Type)
        (stringify : Input -> option string) (timestamp : num) (tool : string)
        (input : Input) :
  ensure_dir_throws N = false ->
  exists calls r,
    generateMap H N Input stringify timestamp tool input = (calls, Resolved r) /\
    metadata_tool Input r = tool /\
    (isError Input r = false <->
     exists json,
       stringify input = Some json /\
       fs_throws N (writeFileSync (svg_path H N tool timestamp)
                                  (map_document H tool json)) = false /\
       calls = (ensure_dir N ++ [writeFileSync (svg_path H N tool timestamp)
                                               (map_document H tool json)])%list /\
       metadata_localPath Input r
       = Some ("file://" ++ path_resolve N (svg_path H N tool timestamp))) /\
    (stringify input = None ->
     calls = ensure_dir N /\
     content_text Input r
     = "Error generating map SVG: " ++ error_message N (EngineError TypeError)).
Proof.
  intros Hdir. unfold generateMap, generateMapSvgLocally, map_try. rewrite Hdir.
  destruct (stringify input) as [json|]; cbn [fst snd].
  - destruct (fs_throws N (writeFileSync (svg_path H N tool timestamp)
                                          (map_document H tool json))) eqn:E.
    + eexists. eexists. split; [reflexivity|]. split; [reflexivity|].
      split; [|discriminate]. cbn [isError]. split; [discriminate|].
      intros (j & [= <-] & E' & _). congruence.
    + eexists. eexists. split; [reflexivity|]. split; [reflexivity|].
      split; [|discriminate]. cbn [isError metadata_localPath]. split; [|reflexivity].
      intros _. exists json. repeat split. exact E.
  - eexists. eexists. split; [reflexivity|]. split; [reflexivity|].
    cbn [isError content_text]. split.
    + split; [discriminate|]. intros (j & Hj & _). discriminate.
    + intros _. split; [apply app_nil_r | reflexivity].
Qed.

Lemma map_always_answers_witness :
  exists calls r,
    generateMap plain_host plain_node (option string) (fun i => i)
                (nz 1700000000000) "generate_path_map" None = (calls, Resolved r) /\
    metadata_tool (option string) r = "generate_path_map" /\
    (isError (option string) r = false <->
     exists json,
       @None string = Some json /\
       fs_throws plain_node
         (writeFileSync (svg_path plain_host plain_node "generate_path_map"
                                  (nz 1700000000000))
                        (map_document plain_host "generate_path_map" json)) = false /\
       calls = (ensure_dir plain_node
                ++ [writeFileSync (svg_path plain_host plain_node "generate_path_map"
                                            (nz 1700000000000))
                                  (map_document plain_host "generate_path_map" json)])%list /\
       metadata_localPath (option string) r
       = Some ("file://"
               ++ path_resolve plain_node
                    (svg_path plain_host plain_node "generate_path_map"
                              (nz 1700000000000)))) /\
    (@None string = None ->
     calls = ensure_dir plain_node /\
     content_text (option string) r
     = "Error generating map SVG: " ++ error_message plain_node (EngineError TypeError)).
Proof.
  apply (map_always_answers plain_host plain_node (option string) (fun i => i)
           (nz 1700000000000) "generate_path_map" None).
  reflexivity.
Defined.

(* ================================================================= *)
(** ** The two copies of the render call *)

Lemma generate_ts_dispatch_columns (H : JsHost) (type : string) (d : jsdata) (w h : num)
      (o : Options) :
  toLowerCase type = "dual-axes" \/ toLowerCase type = "histogram" ->
  generate_ts.dispatch H type d w h o = generateColumnChart H d w h o.
Proof. intros [E|E]; unfold generate_ts.dispatch; rewrite E; reflexivity. Qed.

(** The render call of src/utils/generate.ts draws what the other copy
    draws for every tag but "dual-axes" and "histogram"; for these two it
    draws the column chart of the data, and reads neither the series nor
    the bin count. *)
Theorem generate_ts_differs_on_two_tags (H : JsHost) (type : string) (d : jsdata)
        (w h : num) (o : Options) :
  (toLowerCase type <> "dual-axes" -> toLowerCase type <> "histogram" ->
   generate_ts.dispatch H type d w h o = dispatch H type d w h o) /\
  (toLowerCase type = "dual-axes" \/ toLowerCase type = "histogram" ->
   generate_ts.dispatch H type d w h o = generateColumnChart H d w h o).
Proof.
  split; [|apply generate_ts_dispatch_columns].
  intros Hd Hh. unfold generate_ts.dispatch, dispatch.
  apply String.eqb_neq in Hd, Hh. rewrite Hd, Hh. reflexivity.
Qed.

Lemma generate_ts_differs_on_two_tags_witness :
  (toLowerCase "Pie" <> "dual-axes" -> toLowerCase "Pie" <> "histogram" ->
   generate_ts.dispatch plain_host "Pie" (DArray devices) (nz 800) (nz 600) no_options
   = dispatch plain_host "Pie" (DArray devices) (nz 800) (nz 600) no_options) /\
  (toLowerCase "Pie" = "dual-axes" \/ toLowerCase "Pie" = "histogram" ->
   generate_ts.dispatch plain_host "Pie" (DArray devices) (nz 800) (nz 600) no_options
   = generateColumnChart plain_host (DArray devices) (nz 800) (nz 600) no_options).
Proof.
  apply (generate_ts_differs_on_two_tags plain_host "Pie" (DArray devices)
           (nz 800) (nz 600) no_options).
Defined.



(* ================================================================= *)
(** ** What the column, dual-axes, histogram and funnel engines draw *)

Lemma column_collect_rejects (H : JsHost) (items : list item) :
  Forall not_null items ->
  Forall (fun it => column_accepts it = false) items ->
  forall st, foldM (column_collect H) items st = Ok st.
Proof.
  intros Hnn Hacc. induction items as [|it items IH]; intros st; [reflexivity|].
  inversion Hnn as [|? ? Hn Hnn']; inversion Hacc as [|? ? Ha Hacc']; subst.
  cbn [foldM].
  replace (column_collect H st it) with (Ok st).
  - cbn [bind]. now apply IH.
  - unfold column_collect. destruct it as [[| | | |]|fs]; simpl; try reflexivity.
    + now contradiction Hn.
    + simpl in Ha. now rewrite Ha.
Qed.

(** Unlike the pie, radar and histogram engines, the column engine has
    no placeholder for data it cannot use: when no item is a record with
    a category and a value, the fragment is the two axes and the axis
    titles, with no bar, no label and no message. *)
Theorem column_without_accepted_item (H : JsHost) (items : list item) (w h : num)
        (o : Options) :
  items <> [] ->
  Forall not_null items ->
  Forall (fun it => column_accepts it = false) items ->
  generateColumnChart_elems H (DArray items) w h o
  = Ok (axes H (chartArea w h) ++ axis_titles H (chartArea w h) o)%list.
Proof.
  intros Hne Hnn Hacc. unfold generateColumnChart_elems.
  replace (nonempty_array (DArray items)) with (Some items)
    by (destruct items; [congruence | reflexivity]).
  rewrite (column_collect_rejects H items Hnn Hacc). reflexivity.
Qed.

Lemma column_without_accepted_item_witness :
  generateColumnChart_elems plain_host (DArray [jnum 3; IObj [("value", PNum (nz 4))]])
                            (nz 800) (nz 600) no_options
  = Ok (axes plain_host (chartArea (nz 800) (nz 600))
        ++ axis_titles plain_host (chartArea (nz 800) (nz 600)) no_options)%list.
Proof.
  apply (column_without_accepted_item plain_host
           [jnum 3; IObj [("value", PNum (nz 4))]] (nz 800) (nz 600) no_options).
  - discriminate.
  - repeat constructor; discriminate.
  - repeat constructor.
Defined.

Lemma skipn_nth_error {A : Type} (l : list A) (s : nat) :
  skipn s l = match nth_error l s with
              | Some x => x :: skipn (S s) l
              | None => []
              end.
Proof.
  revert s. induction l as [|x l IH]; intros [|s]; try reflexivity.
  simpl. rewrite IH. destruct (nth_error l s); reflexivity.
Qed.

Lemma dual_slot_rects (H : JsHost) (a : ChartArea) (inp : DualInput) (n s : nat) :
  count_if (is_tag "rect") (flat_map (dual_slot H a inp) (seq s n))
  = List.length (filter (fun v => (v >? nz 0)%num) (firstn n (skipn s (barData inp)))).
Proof.
  revert s. induction n as [|n IH]; intros s; [reflexivity|].
  cbn [seq flat_map]. rewrite count_if_app, IH, (skipn_nth_error (barData inp) s).
  unfold dual_slot.
  destruct (nth_error (barData inp) s) as [v|] eqn:E.
  - cbn [firstn filter].
    destruct (v >? nz 0)%num;
      destruct (nth_error (dualCategories inp) s);
      try destruct (_ >? nz 20)%num; reflexivity.
  - assert (Hs : skipn (S s) (barData inp) = []).
    { apply skipn_all2. apply nth_error_None in E. lia. }
    rewrite Hs. destruct n; destruct (nth_error (dualCategories inp) s); reflexivity.
Qed.

Lemma dual_slot_others (H : JsHost) (a : ChartArea) (inp : DualInput) (l : list nat) :
  count_if (is_tag "circle") (flat_map (dual_slot H a inp) l) = 0%nat /\
  count_if (is_tag "path") (flat_map (dual_slot H a inp) l) = 0%nat.
Proof.
  split; (rewrite (count_if_flat_map _ _ 0); [reflexivity|]); intros i;
    unfold dual_slot;
    destruct (nth_error (barData inp) i) as [v|];
    destruct (nth_error (dualCategories inp) i);
    try destruct (v >? nz 0)%num; try destruct (_ >? nz 20)%num; reflexivity.
Qed.



(** The histogram engine draws one bar per bin, the empty bins included:
    for a bin count k that is an integer from 0 to 2^32-1 and data with a
    value that is a number, neither more than the arguments a call
    takes, the fragment has exactly k rects, whatever the values are. *)
Theorem histogram_one_bar_per_bin (H : JsHost) (items : list item) (v : num)
        (vs : list num) (k : Z) (w h : num) (o : Options) :
  histogram_values H items = Ok (v :: vs) ->
  opt_num_or (bins o) (nz 10) = nz k ->
  (0 <= k < 2 ^ 32)%Z ->
  (k <= Z.of_nat (max_arguments H))%Z ->
  (List.length (v :: vs) <= max_arguments H)%nat ->
  exists out,
    generateHistogramChart_elems H (DArray items) w h o = Ok out /\
    count_if (is_tag "rect") out = Z.to_nat k.
Proof.
  intros Hvals Hbins Hk Hmax Hlen.
  assert (Hne : nonempty_array (DArray items) = Some items).
  { destruct items; [discriminate | reflexivity]. }
  unfold generateHistogramChart_elems. rewrite Hne, Hvals.
  cbv beta iota delta [bind]. rewrite Hbins, (spread_fits H _ Hlen).
  unfold histogram_bins. rewrite (Array_fill0_nz k Hk).
  cbv beta iota delta [bind].
  rewrite spread_fits by (rewrite fill_bins_length, repeat_length; lia).
  eexists. split; [reflexivity|].
  rewrite !count_if_app.
  rewrite (count_if_flat_map (is_tag "rect") _ 1).
  - rewrite length_indexed, fill_bins_length, repeat_length.
    change (count_if (is_tag "rect") (histogram_axes H (histogramArea w h))) with 0%nat.
    change (count_if (is_tag "rect") (histogram_titles H (histogramArea w h)))
      with 0%nat.
    lia.
  - intros ifreq. unfold histogram_bar.
    rewrite count_if_cons, count_if_app.
    destruct (_ === nz 0)%num; destruct (_ >? nz 15)%num; reflexivity.
Qed.

Lemma histogram_one_bar_per_bin_witness :
  exists out,
    generateHistogramChart_elems plain_host (DArray [jnum 5; jnum 5; jnum 5])
                                 (nz 800) (nz 600) no_options = Ok out /\
    count_if (is_tag "rect") out = Z.to_nat 10.
Proof.
  apply (histogram_one_bar_per_bin plain_host [jnum 5; jnum 5; jnum 5]
           (nz 5) [nz 5; nz 5] 10 (nz 800) (nz 600) no_options).
  - reflexivity.
  - reflexivity.
  - lia.
  - apply Z.leb_le. vm_compute. reflexivity.
  - apply Nat.leb_le. vm_compute. reflexivity.
Defined.

(** In the funnel loop the stage after the current one is always there
    when the current one is not the last, so the bottom edge of every
    trapezoid is as wide as the next stage, and the narrowing by 0.8 that
    the code keeps for a missing next stage is never used. *)
Theorem funnel_next_stage_is_there (H : JsHost) (a : ChartArea) (stages : list Point)
        (i : nat) (st : Point) :
  nth_error stages i = Some st ->
  S i <> List.length stages ->
  exists next,
    nth_error stages (S i) = Some next /\
    let x := (ax a + (aw a - stageWidth_of a stages (value st)) / nz 2)%b64 in
    let y := (ay a + nn i * stageHeight a stages)%b64 in
    let nextX := (ax a + (aw a - stageWidth_of a stages (value next)) / nz 2)%b64 in
    let bottom := (y + stageHeight a stages - nz 10)%b64 in
    funnel_shape H a stages i st
    = Elem "polygon"
           [("points",
             num_to_string H x ++ "," ++ num_to_string H y ++ " "
             ++ num_to_string H (x + stageWidth_of a stages (value st))%b64 ++ ","
             ++ num_to_string H y ++ " "
             ++ num_to_string H (nextX + stageWidth_of a stages (value next))%b64 ++ ","
             ++ num_to_string H bottom ++ " "
             ++ num_to_string H nextX ++ "," ++ num_to_string H bottom);
            ("fill", color_at funnel_colors i); ("stroke", "#fff"); ("stroke-width", "2")]
           None.
Proof.
  intros Hi Hlast.
  assert (Hlt : (i < List.length stages)%nat) by (apply nth_error_Some; congruence).
  destruct (nth_error stages (S i)) as [next|] eqn:E.
  - exists next. split; [reflexivity|]. cbv zeta. unfold funnel_shape.
    rewrite (proj2 (Nat.eqb_neq (S i) (List.length stages)) Hlast), E. reflexivity.
  - apply nth_error_None in E. lia.
Qed.

Lemma funnel_next_stage_is_there_witness :
  exists next,
    nth_error device_slices 1 = Some next /\
    let a := funnelArea (nz 800) (nz 600) in
    let st := {| label := "Mobile"; value := nz 45 |} in
    let x := (ax a + (aw a - stageWidth_of a device_slices (value st)) / nz 2)%b64 in
    let y := (ay a + nn 0 * stageHeight a device_slices)%b64 in
    let nextX := (ax a + (aw a - stageWidth_of a device_slices (value next)) / nz 2)%b64 in
    let bottom := (y + stageHeight a device_slices - nz 10)%b64 in
    funnel_shape plain_host a device_slices 0 st
    = Elem "polygon"
           [("points",
             num_to_string plain_host x ++ "," ++ num_to_string plain_host y ++ " "
             ++ num_to_string plain_host (x + stageWidth_of a device_slices (value st))%b64
             ++ "," ++ num_to_string plain_host y ++ " "
             ++ num_to_string plain_host
                  (nextX + stageWidth_of a device_slices (value next))%b64 ++ ","
             ++ num_to_string plain_host bottom ++ " "
             ++ num_to_string plain_host nextX ++ "," ++ num_to_string plain_host bottom);
            ("fill", color_at funnel_colors 0); ("stroke", "#fff"); ("stroke-width", "2")]
           None.
Proof.
  apply (funnel_next_stage_is_there plain_host (funnelArea (nz 800) (nz 600))
           device_slices 0 {| label := "Mobile"; value := nz 45 |}).
  - reflexivity.
  - discriminate.
Defined.

(* ================================================================= *)
(** ** The converter script *)

Lemma try_converters_spec (S : converter.ScriptHost) (commands : list string) :
  (snd (converter.try_converters S commands) = true
   <-> existsb (fun c => negb (converter.exec_rejects S c)) commands = true) /\
  (forall pre c post,
      commands = (pre ++ c :: post)%list ->
      Forall (fun c' => converter.exec_rejects S c' = true) pre ->
      converter.exec_rejects S c = false ->
      converter.try_converters S commands
      = (map converter.execAsync (pre ++ [c]), true)) /\
  (Forall (fun c' => converter.exec_rejects S c' = true) commands ->
   converter.try_converters S commands = (map converter.execAsync commands, false)).
Proof.
  induction commands as [|c0 rest (IHiff & IHfirst & IHnone)].
  - split; [simpl; tauto|]. split; [|reflexivity].
    intros [|? ?] c post E; discriminate.
  - cbn [converter.try_converters existsb].
    destruct (converter.exec_rejects S c0) eqn:E0; cbn [negb orb].
    + destruct (converter.try_converters S rest) as [calls done] eqn:Et.
      cbn [snd] in *. split; [exact IHiff|]. split.
      * intros [|p pre] c post Heq Hall Hc; simpl in Heq; injection Heq as <- Heq.
        -- congruence.
        -- inversion Hall; subst. specialize (IHfirst pre c post eq_refl H2 Hc).
           injection IHfirst as -> ->. reflexivity.
      * intros Hall. inversion Hall; subst. specialize (IHnone H2).
        injection IHnone as -> ->. reflexivity.
    + split; [simpl; tauto|]. split.
      * intros [|p pre] c post Heq Hall Hc; simpl in Heq; injection Heq as <- Heq.
        -- reflexivity.
        -- inversion Hall; subst. congruence.
      * intros Hall. inversion Hall; subst. congruence.
Qed.

Lemma convertSvgToPng_resolves (S : converter.ScriptHost) (svgPath pngPath : string) :
  snd (converter.convertSvgToPng S svgPath pngPath) = None
  <-> converts S svgPath pngPath = true.
Proof.
  destruct (try_converters_spec S (converter.converters svgPath pngPath)) as (Hiff & _).
  unfold converts, converter.convertSvgToPng.
  destruct (converter.try_converters S (converter.converters svgPath pngPath))
    as [calls done].
  cbn [snd] in Hiff. destruct done.
  - cbn [snd]. split; [intros _; now apply Hiff | reflexivity].
  - destruct (converter.createHtmlFallback S svgPath pngPath) as [more e].
    cbn [snd]. split; [discriminate|]. intros Hex. apply Hiff in Hex. discriminate.
Qed.

(** [convertSvgToPng] runs rsvg-convert, convert and inkscape in this
    order and stops at the first command that does not fail, without
    reading or writing a file itself; its promise resolves exactly when
    one of the three takes the file.  When all three fail it goes on to
    the HTML page and is rejected. *)
Theorem conversion_stops_at_first_converter (S : converter.ScriptHost)
        (svgPath pngPath : string) :
  (snd (converter.convertSvgToPng S svgPath pngPath) = None
   <-> converts S svgPath pngPath = true) /\
  (forall pre c post,
      converter.converters svgPath pngPath = (pre ++ c :: post)%list ->
      Forall (fun c' => converter.exec_rejects S c' = true) pre ->
      converter.exec_rejects S c = false ->
      converter.convertSvgToPng S svgPath pngPath
      = (map converter.execAsync (pre ++ [c]), None)) /\
  (converts S svgPath pngPath = false ->
   converter.convertSvgToPng S svgPath pngPath
   = ((map converter.execAsync (converter.converters svgPath pngPath)
       ++ fst (converter.createHtmlFallback S svgPath pngPath))%list,
      Some (snd (converter.createHtmlFallback S svgPath pngPath)))).
Proof.
  split; [apply convertSvgToPng_resolves|].
  destruct (try_converters_spec S (converter.converters svgPath pngPath))
    as (_ & Hfirst & Hnone).
  unfold converts, converter.convertSvgToPng.
  destruct (converter.try_converters S (converter.converters svgPath pngPath))
    as [calls done] eqn:Et.
  split.
  - intros pre c post Heq Hall Hc. specialize (Hfirst pre c post Heq Hall Hc).
    injection Hfirst as -> ->. reflexivity.
  - intros Hno.
    assert (Hall : Forall (fun c' => converter.exec_rejects S c' = true)
                          (converter.converters svgPath pngPath)).
    { apply Forall_forall. intros c Hin.
      destruct (converter.exec_rejects S c) eqn:E; [reflexivity|].
      assert (existsb (fun c => negb (converter.exec_rejects S c))
                      (converter.converters svgPath pngPath) = true); [|congruence].
      apply existsb_exists. exists c. split; [assumption | now rewrite E]. }
    specialize (Hnone Hall). injection Hnone as -> ->.
    destruct (converter.createHtmlFallback S svgPath pngPath) as [more e]. reflexivity.
Qed.

Lemma conversion_stops_at_first_converter_witness :
  (snd (converter.convertSvgToPng magick_only "in/a.svg" "out/a.png") = None
   <-> converts magick_only "in/a.svg" "out/a.png" = true) /\
  (forall pre c post,
      converter.converters "in/a.svg" "out/a.png" = (pre ++ c :: post)%list ->
      Forall (fun c' => converter.exec_rejects magick_only c' = true) pre ->
      converter.exec_rejects magick_only c = false ->
      converter.convertSvgToPng magick_only "in/a.svg" "out/a.png"
      = (map converter.execAsync (pre ++ [c]), None)) /\
  (converts magick_only "in/a.svg" "out/a.png" = false ->
   converter.convertSvgToPng magick_only "in/a.svg" "out/a.png"
   = ((map converter.execAsync (converter.converters "in/a.svg" "out/a.png")
       ++ fst (converter.createHtmlFallback magick_only "in/a.svg" "out/a.png"))%list,
      Some (snd (converter.createHtmlFallback magick_only "in/a.svg" "out/a.png")))).
Proof.
  apply (conversion_stops_at_first_converter magick_only "in/a.svg" "out/a.png").
Defined.

Lemma convert_all_spec (S : converter.ScriptHost) (inputDir outputDir : string)
      (files : list string) :
  forall results,
    let final := snd (converter.convert_all S inputDir outputDir files results) in
    converter.success final
    = (converter.success results
       ++ filter (converts_file S inputDir outputDir) files)%list /\
    converter.failed final
    = (converter.failed results
       ++ filter (fun file => negb (converts_file S inputDir outputDir file)) files)%list.
Proof.
  induction files as [|file rest IH]; intros results.
  - cbn. now rewrite !app_nil_r.
  - cbn [converter.convert_all filter].
    pose proof (convertSvgToPng_resolves S
                  (converter.join S inputDir file)
                  (converter.join S outputDir
                     (converter.basename_without S file ".svg" ++ ".png"))) as Hiff.
    fold (converts_file S inputDir outputDir file) in Hiff.
    destruct (converter.convertSvgToPng S _ _) as [calls outcome].
    cbn [snd] in Hiff.
    match goal with
    | |- context [converter.convert_all S inputDir outputDir rest ?r] =>
        specialize (IH r);
        destruct (converter.convert_all S inputDir outputDir rest r) as [more final]
    end.
    cbn [snd] in *. destruct IH as (IHs & IHf). rewrite IHs, IHf.
    destruct outcome as [e|].
    + assert (Hc : converts_file S inputDir outputDir file = false).
      { destruct (converts_file S inputDir outputDir file); [|reflexivity].
        destruct Hiff as (_ & Hiff). specialize (Hiff eq_refl). discriminate. }
      rewrite Hc. cbn [negb converter.success converter.failed].
      now rewrite <- app_assoc.
    + rewrite (proj1 Hiff eq_refl). cbn [negb converter.success converter.failed].
      now rewrite <- app_assoc.
Qed.

(** Once the input directory is listed and holds an SVG file, [main]
    runs to its end whatever the conversions do: a conversion that fails
    does not stop the loop and does not make the script exit with 1.  The
    files reported converted are those one of the three converters took,
    the files reported failed are the others, both in directory order. *)
Theorem main_reports_every_file (S : converter.ScriptHost) (args files : list string) :
  let inputDir := converter.arg_or (nth_error args 0) "./generated-charts" in
  let outputDir := converter.arg_or (nth_error args 1) inputDir in
  converter.existsSync S inputDir = true ->
  converter.readdirSync S inputDir = Some files ->
  converter.svg_files S files <> [] ->
  exists calls results,
    converter.main S args = (calls, converter.Complete results) /\
    converter.success results
    = filter (converts_file S inputDir outputDir) (converter.svg_files S files) /\
    converter.failed results
    = filter (fun file => negb (converts_file S inputDir outputDir file))
             (converter.svg_files S files) /\
    (List.length (converter.success results) + List.length (converter.failed results)
     = List.length (converter.svg_files S files))%nat.
Proof.
  intros inputDir outputDir Hex Hdir Hne.
  unfold converter.main. fold inputDir. fold outputDir. rewrite Hex, Hdir.
  cbn [negb].
  destruct (converter.svg_files S files) as [|f fs] eqn:Ef; [congruence|].
  destruct (convert_all_spec S inputDir outputDir (f :: fs)
              {| converter.success := []; converter.failed := [] |}) as (Hs & Hf).
  destruct (converter.convert_all S inputDir outputDir (f :: fs) _) as [calls results].
  cbn [snd converter.success converter.failed app] in Hs, Hf.
  exists calls, results. split; [reflexivity|]. split; [exact Hs|]. split; [exact Hf|].
  rewrite Hs, Hf. clear. induction (f :: fs) as [|x l IH]; [reflexivity|].
  cbn [filter]. destruct (converts_file S inputDir outputDir x); cbn [negb List.length]; lia.
Qed.

Lemma main_reports_every_file_witness :
  let inputDir := converter.arg_or (nth_error ["charts"] 0) "./generated-charts" in
  let outputDir := converter.arg_or (nth_error ["charts"] 1) inputDir in
  exists calls results,
    converter.main magick_only ["charts"] = (calls, converter.Complete results) /\
    converter.success results
    = filter (converts_file magick_only inputDir outputDir)
             (converter.svg_files magick_only ["a.svg"; "notes.txt"; "b.SVG"]) /\
    converter.failed results
    = filter (fun file => negb (converts_file magick_only inputDir outputDir file))
             (converter.svg_files magick_only ["a.svg"; "notes.txt"; "b.SVG"]) /\
    (List.length (converter.success results) + List.length (converter.failed results)
     = List.length (converter.svg_files magick_only ["a.svg"; "notes.txt"; "b.SVG"]))%nat.
Proof.
  apply (main_reports_every_file magick_only ["charts"] ["a.svg"; "notes.txt"; "b.SVG"]).
  - reflexivity.
  - reflexivity.
  - vm_compute. discriminate.
Defined.

(* ================================================================= *)
(** ** The cells of the column engine *)

Lemma foldM_app {A S : Type} (f : S -> A -> result S) (l1 l2 : list A) (s : S) :
  foldM f (l1 ++ l2) s = (s' <- foldM f l1 s ;; foldM f l2 s').
Proof.
  revert s. induction l1 as [|a l1 IH]; intros s; [reflexivity|].
  cbn [app foldM]. destruct (f s a) as [s1|e]; [apply IH | reflexivity].
Qed.

Lemma same_value_zero_refl (p : prim) : same_value_zero p p = true.
Proof.
  destruct p as [| |b|[q| | |]|s]; simpl; try reflexivity.
  - now destruct b.
  - apply Qeq_bool_iff. reflexivity.
  - apply String.eqb_refl.
Qed.

Lemma omap_get_set_same {K V : Type} (keq : K -> K -> bool) (k : K) (v : V)
      (m : list (K * V)) :
  keq k k = true -> omap_get keq k (omap_set keq k v m) = Some v.
Proof.
  intros Hk. induction m as [|[k1 v1] m IH]; simpl.
  - now rewrite Hk.
  - destruct (keq k k1) eqn:E; simpl; rewrite E; [reflexivity | exact IH].
Qed.

(** The last row decides its cell: whatever rows came before, after a
    last accepted row the cell of its category and group holds the value
    of that row.  Rows of the same category and group overwrite one
    another; they are not added up. *)
Theorem column_last_row_wins (H : JsHost) (earlier : list item) (fs : fields)
        (st : ColumnState) :
  column_accepts (IObj fs) = true ->
  foldM (column_collect H) (earlier ++ [IObj fs]) column_init = Ok st ->
  let c := ToString H (field "category" fs) in
  let g := por (field "group" fs) (PStr "Series 1") in
  exists cd,
    omap_get String.eqb c (groupedData st) = Some cd /\
    omap_get same_value_zero g cd = Some (ToNumber H (field "value" fs)) /\
    cell_value cd g = (ToNumber H (field "value" fs) || nz 0)%num.
Proof.
  intros Hacc Hfold c g. rewrite foldM_app in Hfold.
  destruct (foldM (column_collect H) earlier column_init) as [st0|e]; [|discriminate].
  cbn [bind foldM] in Hfold. unfold column_collect in Hfold.
  cbn [as_object bind] in Hfold. simpl in Hacc. rewrite Hacc in Hfold.
  cbv zeta in Hfold. apply Ok_inj in Hfold. subst st. cbn [groupedData].
  fold c. fold g. eexists. split.
  - apply omap_get_set_same. apply String.eqb_refl.
  - assert (Hg : omap_get same_value_zero g
                   (omap_set same_value_zero g (ToNumber H (field "value" fs))
                      match omap_get String.eqb c (groupedData st0) with
                      | Some m => m
                      | None => []
                      end) = Some (ToNumber H (field "value" fs)))
      by (apply omap_get_set_same, same_value_zero_refl).
    split; [exact Hg|]. unfold cell_value. now rewrite Hg.
Qed.

Lemma column_last_row_wins_witness :
  let fs := [("category", PStr "Q1"); ("value", PNum (nz 7))] in
  let c := ToString plain_host (field "category" fs) in
  let g := por (field "group" fs) (PStr "Series 1") in
  exists cd,
    omap_get String.eqb c
             (groupedData
                {| groupedData := [("Q1", [(PStr "Series 1", nz 7)])];
                   categorySet := ["Q1"]; groupSet := [PStr "Series 1"] |}) = Some cd /\
    omap_get same_value_zero g cd = Some (ToNumber plain_host (field "value" fs)) /\
    cell_value cd g = (ToNumber plain_host (field "value" fs) || nz 0)%num.
Proof.
  apply (column_last_row_wins plain_host
           [IObj [("category", PStr "Q1"); ("value", PNum (nz 100))]]
           [("category", PStr "Q1"); ("value", PNum (nz 7))]
           {| groupedData := [("Q1", [(PStr "Series 1", nz 7)])];
              categorySet := ["Q1"]; groupSet := [PStr "Series 1"] |}).
  - reflexivity.
  - reflexivity.
Defined.

